(** * Website pipeline simulator: the scheduling core of [app.py]

    A shallow embedding of [run_simulation] (app.py, lines 55-198) and the
    properties of its schedule.

    Modelling conventions.
    - Python numbers that hold simulated days are exact rationals [Q]
      extended with [+inf] (type [time]); sums are kept in lowest terms.
      Every comparison of the source is a comparison of the denoted values.
    - Resource counts, page counts and site ids are natural numbers, as the
      sidebar produces them.
    - Dictionaries are [gmap]s, Python sets are [gset]s, lists are lists.
    - [active_websites.remove] raises [KeyError] on a missing element; the
      tick function returns [None] in that case.
    - Log lines are kept as structured events (kind, day, site); the text is a
      fixed rendering of these fields.  Gantt rows keep the day offsets that
      the source hands to [pd.to_timedelta]; calendar dates are not modelled. *)

From Stdlib Require Import QArith Qreduction Lqa Sorted.
From stdpp Require Import base decidable option list gmap sets strings pretty.
From Stdlib Require Import Ascii Qround.

Local Open Scope Q_scope.

(** ** Simulated time *)

Module Days.

Inductive time : Type :=
  | Fin (q : Q)
  | Inf.

Definition zero : time := Fin 0.

(** [a + b] on floats, with [inf] absorbing. *)
Definition add (a b : time) : time :=
  match a, b with
  | Fin x, Fin y => Fin (Qred (x + y))
  | _, _ => Inf
  end.

(** [a < b] *)
Definition ltb (a b : time) : bool :=
  match a, b with
  | Fin x, Fin y => negb (Qle_bool y x)
  | Fin _, Inf => true
  | Inf, _ => false
  end.

(** [a <= b] *)
Definition leb (a b : time) : bool :=
  match a, b with
  | Fin x, Fin y => Qle_bool x y
  | _, Inf => true
  | Inf, Fin _ => false
  end.

(** Python's [max(a, b)]: the first argument unless the second is strictly
    greater. *)
Definition max (a b : time) : time := if ltb a b then b else a.

(** Propositional order on the denoted values. *)
Definition le (a b : time) : Prop :=
  match a, b with
  | Fin x, Fin y => x <= y
  | _, Inf => True
  | Inf, Fin _ => False
  end.

Definition lt (a b : time) : Prop :=
  match a, b with
  | Fin x, Fin y => x < y
  | Fin _, Inf => True
  | Inf, _ => False
  end.

End Days.

Import Days.

(** ** Data model *)

(** The five values of a task's ['type']. *)
Inductive stage : Type := Design | Content | WordPress | UI | GoLive.

Global Instance stage_eq_dec : EqDecision stage.
Proof. solve_decision. Defined.

Inductive status_t : Type := pending | inprogress | complete.

Global Instance status_eq_dec : EqDecision status_t.
Proof. solve_decision. Defined.

(** ['depends_on'] is [None], a task id, or a list of task ids. *)
Inductive dependency : Type :=
  | DepNone
  | DepOne (d : string)
  | DepAll (ds : list string).

(** An entry of [websites_info]. *)
Record site : Type := {
  site_id : nat;
  site_name : string;
  site_pages : nat
}.

(** The [resources] dictionary. *)
Record resources : Type := {
  n_design : nat;
  n_content : nat;
  n_wordpress : nat;
  n_ui : nat
}.

(** The [efforts] dictionary. *)
Record efforts : Type := {
  e_design : Q;
  e_content : Q;
  e_wordpress : Q;
  e_ui : Q;
  e_go_live : Q
}.

(** A task dictionary.  [page] is [None] for the ['N/A'] of a Go-Live task. *)
Record task : Type := {
  id : string;
  website_id : nat;
  page : option nat;
  type : stage;
  effort : time;
  status : status_t;
  depends_on : dependency;
  start_day : time;
  end_day : time
}.

(** ** Plan builder (lines 69-85) *)

Definition minus_one : time := Fin (-1).

(** [f"W{site['id']+1}-P{page_num}-<suffix>"] *)
Definition page_task_id (s : site) (page_num : nat) (suffix : string) : string :=
  "W" +:+ pretty (site_id s + 1)%nat +:+ "-P" +:+ pretty page_num +:+ "-" +:+ suffix.

(** [f"W{site['id']+1}-GoLive"] *)
Definition go_live_task_id (s : site) : string :=
  "W" +:+ pretty (site_id s + 1)%nat +:+ "-GoLive".

Definition mk_page_task (tid : string) (s : site) (page_num : nat) (ty : stage)
    (eff : Q) (dep : dependency) : task :=
  {| id := tid; website_id := site_id s; page := Some page_num; type := ty;
     effort := Fin eff; status := pending; depends_on := dep;
     start_day := minus_one; end_day := minus_one |}.

(** The four appends of lines 76-79. *)
Definition page_chain (e : efforts) (s : site) (page_num : nat) : list task :=
  let design_task_id := page_task_id s page_num "Design" in
  let content_task_id := page_task_id s page_num "Content" in
  let wordpress_task_id := page_task_id s page_num "WP" in
  [ mk_page_task design_task_id s page_num Design (e_design e) DepNone;
    mk_page_task content_task_id s page_num Content (e_content e) (DepOne design_task_id);
    mk_page_task wordpress_task_id s page_num WordPress (e_wordpress e) (DepOne content_task_id);
    mk_page_task (page_task_id s page_num "UI") s page_num UI (e_ui e) (DepOne wordpress_task_id) ].

(** The first loop nest (lines 70-79): [range(1, pages + 1)] inside the loop
    over [websites_info], appending to [tasks]. *)
Definition append_page_tasks (e : efforts) (websites_info : list site)
    (tasks : list task) : list task :=
  fold_left
    (fun tasks s =>
       fold_left (fun tasks page_num => tasks ++ page_chain e s page_num)
                 (seq 1 (site_pages s)) tasks)
    websites_info tasks.

(** Line 84. *)
Definition go_live_effort (r : resources) (e : efforts) : time :=
  let go_live_resources_count := (n_wordpress r + n_ui r)%nat in
  if (0 <? go_live_resources_count)%nat
  then Fin (Qred (e_go_live e / inject_Z (Z.of_nat go_live_resources_count)))
  else Inf.

(** Line 82: the comprehension over the task list built so far. *)
Definition ui_tasks_for_site (tasks : list task) (s : site) : list string :=
  map id (filter (fun t => website_id t = site_id s ∧ type t = UI) tasks).

(** Line 85. *)
Definition go_live_task (r : resources) (e : efforts) (tasks : list task)
    (s : site) : task :=
  {| id := go_live_task_id s; website_id := site_id s; page := None;
     type := GoLive; effort := go_live_effort r e; status := pending;
     depends_on := DepAll (ui_tasks_for_site tasks s);
     start_day := minus_one; end_day := minus_one |}.

(** The second loop (lines 81-85). *)
Definition append_go_live_tasks (r : resources) (e : efforts)
    (websites_info : list site) (tasks : list task) : list task :=
  fold_left (fun tasks s => tasks ++ [go_live_task r e tasks s])
            websites_info tasks.

Definition build_tasks (r : resources) (websites_info : list site)
    (e : efforts) : list task :=
  append_go_live_tasks r e websites_info (append_page_tasks e websites_info []).

(** ** Simulation state *)

(** [resource_free_on_day]: one list of free-at marks per category. *)
Record ledger : Type := {
  free_design : list time;
  free_content : list time;
  free_wordpress : list time;
  free_ui : list time
}.

(** The four kinds of line appended to [log_messages]. *)
Inductive event : Type :=
  | EvTimeout
  | EvActivated (day : time) (site : nat)
  | EvStarted (day : time) (site : nat) (ty : stage)
  | EvComplete (day : time) (site : nat).

(** A row of [gantt_tasks] (lines 162-169).  [g_unit] is a ghost field: the
    ledger cell written at lines 177-184, which the source does not store.
    Nothing in the model reads it. *)
Record gantt_row : Type := {
  g_site : nat;
  g_type : stage;
  g_start : time;
  g_end : time;
  g_unit : stage * nat
}.

(** The local variables of [run_simulation] other than [tasks]. *)
Record sim : Type := {
  resource_free_on_day : ledger;
  completed_tasks : gmap string time;
  active_websites : gset nat;
  website_start_times : gmap nat time;
  website_end_times : gmap nat time;
  website_actual_start_logged : gset nat;
  current_day : Q;
  log_messages : list event;
  gantt_tasks : list gantt_row
}.

Definition time_step : Q := 1 # 2.

(** Lines 62-67 and 87-92. *)
Definition init_sim (r : resources) : sim :=
  {| resource_free_on_day :=
       {| free_design := replicate (n_design r) zero;
          free_content := replicate (n_content r) zero;
          free_wordpress := replicate (n_wordpress r) zero;
          free_ui := replicate (n_ui r) zero |};
     completed_tasks := ∅;
     active_websites := ∅;
     website_start_times := ∅;
     website_end_times := ∅;
     website_actual_start_logged := ∅;
     current_day := 0;
     log_messages := [];
     gantt_tasks := [] |}.

(** ** Stable sorting, as [sorted] and [list.sort] do *)

Fixpoint insert_by {A : Type} (le : A -> A -> bool) (x : A) (l : list A) : list A :=
  match l with
  | [] => [x]
  | y :: l' => if le x y then x :: l else y :: insert_by le x l'
  end.

(** Insertion from the right keeps equal keys in their original order. *)
Definition stable_sort {A : Type} (le : A -> A -> bool) (l : list A) : list A :=
  foldr (insert_by le) [] l.

(** [key=lambda x: x['id']] *)
Definition site_le (a b : site) : bool := (site_id a <=? site_id b)%nat.

(** [x['page'] if isinstance(x['page'], int) else float('inf')] *)
Definition page_key_le (a b : option nat) : bool :=
  match a, b with
  | Some m, Some n => (m <=? n)%nat
  | _, None => true
  | None, Some _ => false
  end.

(** Tuples [(website_id, page key)] compare lexicographically (line 112). *)
Definition task_le (a b : task) : bool :=
  (website_id a <? website_id b)%nat
  || ((website_id a =? website_id b)%nat && page_key_le (page a) (page b)).

(** ** Activation (lines 102-109) *)

Definition eligible (s : sim) (x : site) : bool :=
  bool_decide (site_id x ∉ active_websites s)
  && bool_decide (website_end_times s !! site_id x = None).

Definition activate (websites_info : list site) (s : sim) : sim :=
  if bool_decide (size (active_websites s) < 2)%nat then
    let sorted_sites := stable_sort site_le websites_info in
    match find (eligible s) sorted_sites with
    | Some x =>
        {| resource_free_on_day := resource_free_on_day s;
           completed_tasks := completed_tasks s;
           active_websites := active_websites s ∪ {[ site_id x ]};
           website_start_times := website_start_times s;
           website_end_times := website_end_times s;
           website_actual_start_logged := website_actual_start_logged s;
           current_day := current_day s;
           log_messages := log_messages s ++ [EvActivated (Fin (current_day s)) (site_id x)];
           gantt_tasks := gantt_tasks s |}
    | None => s
    end
  else s.

(** ** Ready-task scan (lines 114-184) *)

Definition in_completed (completed : gmap string time) (d : string) : bool :=
  bool_decide (is_Some (completed !! d)).

(** Lines 118-124. *)
Definition deps_met (completed : gmap string time) (d : dependency) : bool :=
  match d with
  | DepNone => true
  | DepOne x => in_completed completed x
  | DepAll xs => forallb (in_completed completed) xs
  end.

(** [max] over a non-empty iterable: the first element unless a later one is
    strictly greater. *)
Definition max_list (x : time) (xs : list time) : time := fold_left max xs x.

(** Lines 130-134, on the path where [deps_met] holds. *)
Definition dep_end_day (completed : gmap string time) (d : dependency) : time :=
  match d with
  | DepNone => zero
  | DepOne x => match completed !! x with Some f => f | None => zero end
  | DepAll xs =>
      match map (fun dep => default zero (completed !! dep)) xs with
      | [] => zero
      | f :: fs => max_list f fs
      end
  end.

(** Lines 129 and 138-141: the list that the scan enumerates. *)
Definition pool_for (l : ledger) (ty : stage) : list time :=
  match ty with
  | Design => free_design l
  | Content => free_content l
  | WordPress => free_wordpress l
  | UI => free_ui l
  | GoLive => free_wordpress l ++ free_ui l
  end.

(** Lines 136-147; [assign = None] stands for [-1]. *)
Fixpoint scan_pool (i : nat) (pool : list time) (dep_end : time)
    (earliest_start_time : time) (resource_to_assign : option nat)
    : time * option nat :=
  match pool with
  | [] => (earliest_start_time, resource_to_assign)
  | free_day :: pool' =>
      let possible_start_time := max free_day dep_end in
      if ltb possible_start_time earliest_start_time
      then scan_pool (S i) pool' dep_end possible_start_time (Some i)
      else scan_pool (S i) pool' dep_end earliest_start_time resource_to_assign
  end.

(** The ledger cell that lines 177-184 write for index [r] of the scanned
    pool. *)
Definition unit_of (l : ledger) (ty : stage) (r : nat) : stage * nat :=
  match ty with
  | GoLive =>
      if (r <? length (free_wordpress l))%nat then (WordPress, r)
      else (UI, (r - length (free_wordpress l))%nat)
  | _ => (ty, r)
  end.

(** Lines 177-184.  For the four page stages [resource_pool] aliases the
    ledger's own list, so the write lands in the ledger. *)
Definition write_unit (l : ledger) (u : stage * nat) (v : time) : ledger :=
  match fst u with
  | Design =>
      {| free_design := <[snd u := v]> (free_design l); free_content := free_content l;
         free_wordpress := free_wordpress l; free_ui := free_ui l |}
  | Content =>
      {| free_design := free_design l; free_content := <[snd u := v]> (free_content l);
         free_wordpress := free_wordpress l; free_ui := free_ui l |}
  | WordPress =>
      {| free_design := free_design l; free_content := free_content l;
         free_wordpress := <[snd u := v]> (free_wordpress l); free_ui := free_ui l |}
  | UI =>
      {| free_design := free_design l; free_content := free_content l;
         free_wordpress := free_wordpress l; free_ui := <[snd u := v]> (free_ui l) |}
  | GoLive => l
  end.

Definition commit (l : ledger) (ty : stage) (r : nat) (v : time) : ledger :=
  write_unit l (unit_of l ty r) v.

(** Lines 150-152. *)
Definition started (t : task) (start : time) : task :=
  {| id := id t; website_id := website_id t; page := page t; type := type t;
     effort := effort t; status := inprogress; depends_on := depends_on t;
     start_day := start; end_day := add start (effort t) |}.

(** Lines 162-184: the Gantt row, the first-start bookkeeping and the ledger
    write for the task [t'] just started on index [r] of its pool. *)
Definition bind_effects (t' : task) (r : nat) (s : sim) : sim :=
  let first := bool_decide (website_id t' ∉ website_actual_start_logged s) in
  {| resource_free_on_day :=
       commit (resource_free_on_day s) (type t') r (end_day t');
     completed_tasks := completed_tasks s;
     active_websites := active_websites s;
     website_start_times :=
       if first then <[website_id t' := start_day t']> (website_start_times s)
       else website_start_times s;
     website_end_times := website_end_times s;
     website_actual_start_logged :=
       if first then website_actual_start_logged s ∪ {[ website_id t' ]}
       else website_actual_start_logged s;
     current_day := current_day s;
     log_messages :=
       if first
       then log_messages s ++ [EvStarted (start_day t') (website_id t') (type t')]
       else log_messages s;
     gantt_tasks :=
       gantt_tasks s ++
         [{| g_site := website_id t'; g_type := type t';
             g_start := start_day t'; g_end := end_day t';
             g_unit := unit_of (resource_free_on_day s) (type t') r |}] |}.

(** Body of the loop of line 114 for one task. *)
Definition bind_task (t : task) (s : sim) : task * sim :=
  if bool_decide (status t ≠ pending ∨ website_id t ∉ active_websites s) then (t, s)
  else if negb (deps_met (completed_tasks s) (depends_on t)) then (t, s)
  else
    let dep_end := dep_end_day (completed_tasks s) (depends_on t) in
    let resource_pool := pool_for (resource_free_on_day s) (type t) in
    match scan_pool 0 resource_pool dep_end Inf None with
    | (earliest_start_time, Some r) =>
        if leb earliest_start_time (Fin (current_day s))
        then (started t earliest_start_time,
              bind_effects (started t earliest_start_time) r s)
        else (t, s)
    | (_, None) => (t, s)
    end.

Fixpoint bind_all (tasks : list task) (s : sim) : list task * sim :=
  match tasks with
  | [] => ([], s)
  | t :: rest =>
      let '(t', s') := bind_task t s in
      let '(rest', s'') := bind_all rest s' in
      (t' :: rest', s'')
  end.

(** ** Clock advance (line 186) and retirement (lines 188-196) *)

Definition advance (s : sim) : sim :=
  {| resource_free_on_day := resource_free_on_day s;
     completed_tasks := completed_tasks s;
     active_websites := active_websites s;
     website_start_times := website_start_times s;
     website_end_times := website_end_times s;
     website_actual_start_logged := website_actual_start_logged s;
     current_day := Qred (current_day s + time_step);
     log_messages := log_messages s;
     gantt_tasks := gantt_tasks s |}.

Definition completed (t : task) : task :=
  {| id := id t; website_id := website_id t; page := page t; type := type t;
     effort := effort t; status := complete; depends_on := depends_on t;
     start_day := start_day t; end_day := end_day t |}.

(** Lines 190-191. *)
Definition record_completion (t : task) (s : sim) : sim :=
  {| resource_free_on_day := resource_free_on_day s;
     completed_tasks := <[id t := end_day t]> (completed_tasks s);
     active_websites := active_websites s;
     website_start_times := website_start_times s;
     website_end_times := website_end_times s;
     website_actual_start_logged := website_actual_start_logged s;
     current_day := current_day s;
     log_messages := log_messages s;
     gantt_tasks := gantt_tasks s |}.

(** Lines 193-196, when [remove] finds the site. *)
Definition retire_site (t : task) (s : sim) : sim :=
  let site_id := website_id t in
  {| resource_free_on_day := resource_free_on_day s;
     completed_tasks := completed_tasks s;
     active_websites := active_websites s ∖ {[ site_id ]};
     website_start_times := website_start_times s;
     website_end_times := <[site_id := end_day t]> (website_end_times s);
     website_actual_start_logged := website_actual_start_logged s;
     current_day := current_day s;
     log_messages := log_messages s ++ [EvComplete (end_day t) site_id];
     gantt_tasks := gantt_tasks s |}.

(** Body of the loop of line 188 for one task; [None] is the [KeyError] of
    [active_websites.remove]. *)
Definition retire_task (t : task) (s : sim) : option (task * sim) :=
  if bool_decide (status t = inprogress) && leb (end_day t) (Fin (current_day s)) then
    if bool_decide (type t = GoLive) then
      if bool_decide (website_id t ∈ active_websites s)
      then Some (completed t, retire_site t (record_completion t s))
      else None
    else Some (completed t, record_completion t s)
  else Some (t, s).

Fixpoint retire_all (tasks : list task) (s : sim) : option (list task * sim) :=
  match tasks with
  | [] => Some ([], s)
  | t :: rest =>
      match retire_task t s with
      | Some (t', s') =>
          match retire_all rest s' with
          | Some (rest', s'') => Some (t' :: rest', s'')
          | None => None
          end
      | None => None
      end
  end.

(** ** The main loop (lines 95-196) *)

(** One pass through the loop body below the timeout test.  The set
    [websites_in_progress] of line 100 is never read and is left out. *)
Definition tick (websites_info : list site) (c : list task * sim)
    : option (list task * sim) :=
  let '(tasks, s) := c in
  let s := activate websites_info s in
  let tasks := stable_sort task_le tasks in
  let '(tasks, s) := bind_all tasks s in
  let s := advance s in
  retire_all tasks s.

Definition timed_out (s : sim) : sim :=
  {| resource_free_on_day := resource_free_on_day s;
     completed_tasks := completed_tasks s;
     active_websites := active_websites s;
     website_start_times := website_start_times s;
     website_end_times := website_end_times s;
     website_actual_start_logged := website_actual_start_logged s;
     current_day := current_day s;
     log_messages := log_messages s ++ [EvTimeout];
     gantt_tasks := gantt_tasks s |}.

(** How a run of the loop can end. *)
Inductive outcome : Type :=
  | Returned (tasks : list task) (s : sim)
  | Raised
  | OutOfFuel.

(** [while len(completed_tasks) < len(tasks)], unrolled at most [fuel] full
    passes. *)
Fixpoint main_loop (fuel : nat) (websites_info : list site)
    (c : list task * sim) : outcome :=
  if bool_decide (size (completed_tasks (snd c)) < length (fst c))%nat then
    if negb (Qle_bool (current_day (snd c)) 1000) then
      Returned (fst c) (timed_out (snd c))
    else
      match fuel with
      | O => OutOfFuel
      | S fuel' =>
          match tick websites_info c with
          | Some c' => main_loop fuel' websites_info c'
          | None => Raised
          end
      end
  else Returned (fst c) (snd c).

Definition init (r : resources) (websites_info : list site) (e : efforts)
    : list task * sim :=
  (build_tasks r websites_info e, init_sim r).

(** Enough passes for the clock to go beyond the safety bound. *)
Definition max_passes : nat := 2001.

Definition run_loop (r : resources) (websites_info : list site) (e : efforts)
    : outcome :=
  main_loop max_passes websites_info (init r websites_info e).

(** The returned tuple (line 198). *)
Definition run_simulation (r : resources) (websites_info : list site)
    (e : efforts)
    : option (gmap nat time * gmap nat time * list event * list gantt_row) :=
  match run_loop r websites_info e with
  | Returned _ s =>
      Some (website_start_times s, website_end_times s, log_messages s, gantt_tasks s)
  | _ => None
  end.

(** ** Runs *)

(** The loop condition and the timeout test of lines 95-96. *)
Definition unfinished (c : list task * sim) : Prop :=
  (size (completed_tasks (snd c)) < length (fst c))%nat.

Definition within_bound (c : list task * sim) : Prop :=
  current_day (snd c) <= 1000.

(** Configurations at the head of the loop, reached from [c0] by full
    passes. *)
Inductive reachable (websites_info : list site) (c0 : list task * sim)
    : list task * sim -> Prop :=
  | reach_start : reachable websites_info c0 c0
  | reach_pass c c' :
      reachable websites_info c0 c ->
      unfinished c -> within_bound c ->
      tick websites_info c = Some c' ->
      reachable websites_info c0 c'.

Definition visited (r : resources) (websites_info : list site) (e : efforts)
    (c : list task * sim) : Prop :=
  reachable websites_info (init r websites_info e) c.

(** [n] full passes from [c], each taken only when the loop would take it. *)
Fixpoint passes (n : nat) (websites_info : list site) (c : list task * sim)
    : option (list task * sim) :=
  match n with
  | O => Some c
  | S n' =>
      if bool_decide (size (completed_tasks (snd c)) < length (fst c))%nat
         && Qle_bool (current_day (snd c)) 1000
      then match tick websites_info c with
           | Some c' => passes n' websites_info c'
           | None => None
           end
      else None
  end.


(** Big-step reading of the [while] loop: the ways a run from [c] can end. *)
Inductive loop_run (websites_info : list site)
    : list task * sim -> outcome -> Prop :=
  | run_complete c :
      ~ unfinished c ->
      loop_run websites_info c (Returned (fst c) (snd c))
  | run_timeout c :
      unfinished c -> ~ within_bound c ->
      loop_run websites_info c (Returned (fst c) (timed_out (snd c)))
  | run_raise c :
      unfinished c -> within_bound c ->
      tick websites_info c = None ->
      loop_run websites_info c Raised
  | run_pass c c' o :
      unfinished c -> within_bound c ->
      tick websites_info c = Some c' ->
      loop_run websites_info c' o ->
      loop_run websites_info c o.

(** The start-time map, the end-time map and the log of a run that
    returns. *)
Definition schedule_of (o : outcome)
    : option (gmap nat time * gmap nat time * list event) :=
  match o with
  | Returned _ s =>
      Some (website_start_times s, website_end_times s, log_messages s)
  | _ => None
  end.

(** ** Vocabulary of the schedule properties *)

(** Task [d] is complete in [tasks] with finish time [f]. *)
Definition recorded_finish (tasks : list task) (d : string) (f : time) : Prop :=
  exists u, u ∈ tasks /\ id u = d /\ status u = complete /\ end_day u = f.

(** The start of [t] respects its dependency: not before 0 without one, not
    before the finish of a single one, not before the maximum finish over a
    list of them. *)
Definition precedence_ok (tasks : list task) (t : task) : Prop :=
  match depends_on t with
  | DepNone => le zero (start_day t)
  | DepOne d => exists f, recorded_finish tasks d f /\ le f (start_day t)
  | DepAll ds =>
      exists fs, Forall2 (recorded_finish tasks) ds fs /\
        match fs with
        | [] => le zero (start_day t)
        | f :: fs' => le (max_list f fs') (start_day t)
        end
  end.

(** [row] is the Gantt row appended when [t] was bound. *)
Definition row_of (t : task) (row : gantt_row) : Prop :=
  g_site row = website_id t /\ g_type row = type t /\
  g_start row = start_day t /\ g_end row = end_day t.

(** Two committed intervals do not overlap. *)
Definition disjoint (a b : gantt_row) : Prop :=
  le (g_end a) (g_start b) \/ le (g_end b) (g_start a).

Definition nonneg_efforts (e : efforts) : Prop :=
  0 <= e_design e /\ 0 <= e_content e /\ 0 <= e_wordpress e /\
  0 <= e_ui e /\ 0 <= e_go_live e.


(** The two shapes a task can take across the ready-task scan of a pass
    running in state [s], and across the retirement scan. *)
Definition binds (s : sim) (t t' : task) : Prop :=
  t' = t \/
  (status t = pending /\ website_id t ∈ active_websites s /\
   deps_met (completed_tasks s) (depends_on t) = true /\
   exists start, t' = started t start /\
     le (dep_end_day (completed_tasks s) (depends_on t)) start /\
     le start (Fin (current_day s))).

Definition retires (t t' : task) : Prop :=
  t' = t \/ (status t = inprogress /\ t' = completed t).

(** Invariants of the loop-head configurations. *)
Definition completed_sound (c : list task * sim) : Prop :=
  forall d f, completed_tasks (snd c) !! d = Some f -> recorded_finish (fst c) d f.

Definition all_precedence (c : list task * sim) : Prop :=
  forall t, t ∈ fst c -> status t ≠ pending -> precedence_ok (fst c) t.

(** The free-at mark of a resource unit. *)
Definition cell (l : ledger) (u : stage * nat) : option time :=
  match fst u with
  | Design => free_design l !! snd u
  | Content => free_content l !! snd u
  | WordPress => free_wordpress l !! snd u
  | UI => free_ui l !! snd u
  | GoLive => None
  end.

(** Every committed interval ends at or before its unit's free-at mark. *)
Definition ledger_covers (s : sim) : Prop :=
  forall row, row ∈ gantt_tasks s ->
    exists f, cell (resource_free_on_day s) (g_unit row) = Some f /\
      le (g_end row) f.

(** On each unit, a later binding starts at or after the finish of every
    earlier one. *)
Definition in_order (rows : list gantt_row) : Prop :=
  forall i j a b, (i < j)%nat ->
    rows !! i = Some a -> rows !! j = Some b ->
    g_unit a = g_unit b -> le (g_end a) (g_start b).

(** The cap on the active set, and no finalized project in it. *)
Definition cap_ok (s : sim) : Prop :=
  (size (active_websites s) <= 2)%nat /\
  forall i, i ∈ active_websites s -> website_end_times s !! i = None.

(** How many times the loop body is entered in a run of at most [fuel] full
    passes; the entry that ends in the timeout [break] counts. *)
Fixpoint body_entries (fuel : nat) (websites_info : list site)
    (c : list task * sim) : nat :=
  if bool_decide (size (completed_tasks (snd c)) < length (fst c))%nat then
    if negb (Qle_bool (current_day (snd c)) 1000) then 1%nat
    else
      match fuel with
      | O => 0%nat
      | S fuel' =>
          match tick websites_info c with
          | Some c' => S (body_entries fuel' websites_info c')
          | None => 1%nat
          end
      end
  else 0%nat.

Definition complete_count (tasks : list task) : nat :=
  length (filter (fun t => status t = complete) tasks).


(** ** The plan as the specification words it *)

(** Four tasks per page, Design, Content, Platform-Build (WordPress) and
    Front-End-Build (UI), each depending on the id of the one before it. *)
Definition page_chain_spec (e : efforts) (s : site) (p : nat) : list task :=
  let design :=
    {| id := page_task_id s p "Design"; website_id := site_id s; page := Some p;
       type := Design; effort := Fin (e_design e); status := pending;
       depends_on := DepNone; start_day := minus_one; end_day := minus_one |} in
  let content :=
    {| id := page_task_id s p "Content"; website_id := site_id s; page := Some p;
       type := Content; effort := Fin (e_content e); status := pending;
       depends_on := DepOne (id design);
       start_day := minus_one; end_day := minus_one |} in
  let platform :=
    {| id := page_task_id s p "WP"; website_id := site_id s; page := Some p;
       type := WordPress; effort := Fin (e_wordpress e); status := pending;
       depends_on := DepOne (id content);
       start_day := minus_one; end_day := minus_one |} in
  let front_end :=
    {| id := page_task_id s p "UI"; website_id := site_id s; page := Some p;
       type := UI; effort := Fin (e_ui e); status := pending;
       depends_on := DepOne (id platform);
       start_day := minus_one; end_day := minus_one |} in
  [design; content; platform; front_end].

(** The finalize effort divided by the total number of WordPress and UI
    units (in lowest terms), or [+inf] when that total is zero. *)
Definition finalize_effort_spec (r : resources) (e : efforts) : time :=
  let total := (n_wordpress r + n_ui r)%nat in
  if decide (total = 0%nat) then Inf
  else Fin (Qred (e_go_live e / inject_Z (Z.of_nat total))).

(** One Finalize task per project, depending on exactly the UI task ids of
    the project's pages. *)
Definition finalize_task_spec (r : resources) (e : efforts) (s : site) : task :=
  {| id := go_live_task_id s; website_id := site_id s; page := None;
     type := GoLive; effort := finalize_effort_spec r e; status := pending;
     depends_on :=
       DepAll (map (fun p => page_task_id s p "UI") (seq 1 (site_pages s)));
     start_day := minus_one; end_day := minus_one |}.

Definition plan_spec (r : resources) (websites_info : list site) (e : efforts)
    : list task :=
  flat_map (fun s => flat_map (page_chain_spec e s) (seq 1 (site_pages s)))
           websites_info
  ++ map (finalize_task_spec r e) websites_info.

(** ** Vocabulary of the further properties *)

(** The ledger has one mark per configured unit. *)
Definition ledger_shape (r : resources) (l : ledger) : Prop :=
  length (free_design l) = n_design r /\
  length (free_content l) = n_content r /\
  length (free_wordpress l) = n_wordpress r /\
  length (free_ui l) = n_ui r.

(** Every unit of [l] is a unit of [l'], with a mark that is not earlier. *)
Definition marks_le (l l' : ledger) : Prop :=
  forall u f, cell l u = Some f -> exists f', cell l' u = Some f' /\ le f f'.

(** A day value that is a number, not [inf]. *)
Definition finite (t : time) : Prop := exists q, t = Fin q.

(** Every time the run has recorded so far is a number. *)
Definition times_finite (c : list task * sim) : Prop :=
  (forall u f, cell (resource_free_on_day (snd c)) u = Some f -> finite f) /\
  (forall d f, completed_tasks (snd c) !! d = Some f -> finite f) /\
  (forall t, t ∈ fst c -> status t ≠ pending ->
     finite (start_day t) /\ finite (end_day t)) /\
  (forall i f, website_start_times (snd c) !! i = Some f -> finite f) /\
  (forall i f, website_end_times (snd c) !! i = Some f -> finite f) /\
  (forall row, row ∈ gantt_tasks (snd c) ->
     finite (g_start row) /\ finite (g_end row)).

(** A task has an infinite effort only if it is a Go-Live task of a run
    without WordPress and UI units. *)
Definition effort_ok (r : resources) (t : task) : Prop :=
  finite (effort t) \/ (type t = GoLive /\ (n_wordpress r + n_ui r = 0)%nat).

Definition stores_finite (r : resources) (s : sim) : Prop :=
  ledger_shape r (resource_free_on_day s) /\
  (forall u f, cell (resource_free_on_day s) u = Some f -> finite f) /\
  (forall d f, completed_tasks s !! d = Some f -> finite f) /\
  (forall i f, website_start_times s !! i = Some f -> finite f) /\
  (forall i f, website_end_times s !! i = Some f -> finite f) /\
  (forall row, row ∈ gantt_tasks s -> finite (g_start row) /\ finite (g_end row)).

Definition bound_finite (t : task) : Prop :=
  status t ≠ pending -> finite (start_day t) /\ finite (end_day t).

(** The invariant behind the summary table: start keys are the logged sites,
    every bound task's site has a start, every ended site has a start, and no
    active site has an end. *)
Definition times_inv (c : list task * sim) : Prop :=
  website_actual_start_logged (snd c) = dom (website_start_times (snd c)) /\
  (forall t, t ∈ fst c -> status t ≠ pending ->
     is_Some (website_start_times (snd c) !! website_id t)) /\
  (forall i, is_Some (website_end_times (snd c) !! i) ->
     is_Some (website_start_times (snd c) !! i)) /\
  cap_ok (snd c).

(** What can change in a task dictionary over a run: nothing but the status
    and, at binding, the two days.  Once bound, the days are frozen and the
    status never goes back. *)
Definition evolves (t t' : task) : Prop :=
  id t' = id t /\ website_id t' = website_id t /\ page t' = page t /\
  type t' = type t /\ effort t' = effort t /\ depends_on t' = depends_on t /\
  (status t ≠ pending ->
     status t' ≠ pending /\ start_day t' = start_day t /\ end_day t' = end_day t) /\
  (status t = complete -> status t' = complete).

(** The state of a bound task against the clock at the head of the loop. *)
Definition on_the_clock (now : Q) (t : task) : Prop :=
  status t ≠ pending ->
  end_day t = add (start_day t) (effort t) /\
  le (start_day t) (Fin now) /\
  (status t = complete <-> le (end_day t) (Fin now)).

(** Number of tasks that have been bound. *)
Definition bound_count (tasks : list task) : nat :=
  length (filter (fun t => status t ≠ pending) tasks).

(** The sites named by the three kinds of project line of the log, in log
    order. *)
Definition activated_sites (log : list event) : list nat :=
  omap (fun ev => match ev with EvActivated _ i => Some i | _ => None end) log.

Definition started_sites (log : list event) : list nat :=
  omap (fun ev => match ev with EvStarted _ i _ => Some i | _ => None end) log.

Definition completed_sites (log : list event) : list nat :=
  omap (fun ev => match ev with EvComplete _ i => Some i | _ => None end) log.

(** Activation so far: the activated sites are the active and the ended
    ones, were activated in strictly ascending id order, and no project of the
    input with a smaller id than an activated one was skipped. *)
Definition activation_inv (websites_info : list site) (s : sim) : Prop :=
  StronglySorted Nat.lt (activated_sites (log_messages s)) /\
  (forall i, i ∈ activated_sites (log_messages s) <->
     i ∈ active_websites s \/ is_Some (website_end_times s !! i)) /\
  (forall a y, a ∈ activated_sites (log_messages s) -> y ∈ websites_info ->
     (site_id y < a)%nat -> site_id y ∈ activated_sites (log_messages s)).

(** The log against the two maps: each start line and each completion line
    carries the value of the map, and names its site once. *)
Definition log_inv (s : sim) : Prop :=
  (forall d i ty, EvStarted d i ty ∈ log_messages s ->
     website_start_times s !! i = Some d) /\
  (forall d i, EvComplete d i ∈ log_messages s ->
     website_end_times s !! i = Some d) /\
  (forall i, i ∈ started_sites (log_messages s) <->
     is_Some (website_start_times s !! i)) /\
  (forall i, i ∈ completed_sites (log_messages s) <->
     is_Some (website_end_times s !! i)) /\
  NoDup (started_sites (log_messages s)) /\
  NoDup (completed_sites (log_messages s)) /\
  website_actual_start_logged s = dom (website_start_times s) /\
  cap_ok s.

(** A string without the separator character of the task ids. *)
Fixpoint no_dash (s : string) : Prop :=
  match s with
  | EmptyString => True
  | String a s' => a ≠ "-"%char /\ no_dash s'
  end.

(** ** The callers of [run_simulation] (lines 47-52 and 211-232) *)

(** Lines 49-52: the project list the sidebar builds from the page counts
    entered, [{'id': i, 'name': f"Website {i+1}", 'pages': pages}] for [i] in
    [range(num_websites)]. *)
Definition websites_info_of (pages : list nat) : list site :=
  imap (fun i p => {| site_id := i;
                      site_name := "Website " +:+ pretty (i + 1)%nat;
                      site_pages := p |}) pages.

(** [math.ceil] of a day value; [None] is the [OverflowError] on [inf]. *)
Definition ceil_days (t : time) : option Z :=
  match t with
  | Fin q => Some (Qceiling q)
  | Inf => None
  end.

(** [math.ceil(end_time - start_time)] (line 230); the difference is
    infinite or not a number as soon as one side is [inf], and [math.ceil]
    raises on both. *)
Definition span_days (end_time start_time : time) : option Z :=
  match end_time, start_time with
  | Fin e, Fin s => Some (Qceiling (e - s))
  | _, _ => None
  end.

(** A row of [summary_data] (lines 226-231), with the numbers that the row
    formats. *)
Record summary_row : Type := {
  row_site : nat;
  row_start : time;
  row_end : time;
  row_duration : Z
}.

(** Tuples [(site_id, end_time)] are ordered by [sorted] on their first
    component; the second is never compared, the keys being distinct. *)
Definition item_le (a b : nat * time) : bool := (fst a <=? fst b)%nat.

(** Lines 224-231 for one item. *)
Definition summary_row_of (starts : gmap nat time) (item : nat * time)
    : option summary_row :=
  let start_time := default zero (starts !! fst item) in
  match span_days (snd item) start_time with
  | Some d => Some {| row_site := fst item; row_start := start_time;
                      row_end := snd item; row_duration := d |}
  | None => None
  end.

Fixpoint summary_rows_of (starts : gmap nat time) (items : list (nat * time))
    : option (list summary_row) :=
  match items with
  | [] => Some []
  | item :: rest =>
      match summary_row_of starts item with
      | Some row =>
          match summary_rows_of starts rest with
          | Some rows => Some (row :: rows)
          | None => None
          end
      | None => None
      end
  end.

(** Lines 219-234.  The outer [None] is an exception of [math.ceil]; the
    inner [None] is the branch of the warning shown when [ends] is empty;
    otherwise the total duration in days and the rows of the table. *)
Definition summary (starts ends : gmap nat time)
    : option (option (Z * list summary_row)) :=
  match map snd (map_to_list ends) with
  | [] => Some None
  | f :: fs =>
      match ceil_days (max_list f fs) with
      | Some total =>
          match summary_rows_of starts (stable_sort item_le (map_to_list ends)) with
          | Some rows => Some (Some (total, rows))
          | None => None
          end
      | None => None
      end
  end.

(** Number of pages of a project list. *)
Definition total_pages (websites_info : list site) : nat :=
  sum_list (map site_pages websites_info).

(** No free-at mark and no project start is negative. *)
Definition nonneg_marks (s : sim) : Prop :=
  (forall u f, cell (resource_free_on_day s) u = Some f -> le zero f) /\
  (forall i v, website_start_times s !! i = Some v -> le zero v).

(** A row of the summary against the item of [ends] it was made from. *)
Definition row_matches (starts : gmap nat time) (item : nat * time)
    (row : summary_row) : Prop :=
  row_site row = fst item /\ row_end row = snd item /\
  row_start row = default zero (starts !! fst item) /\
  exists e s, snd item = Fin e /\ row_start row = Fin s /\
    row_duration row = Qceiling (e - s).

(** Where the two time maps get their values from: a recorded start is the
    [start_day] of a bound task of the project, a recorded end is the
    [end_day] of a complete Go-Live task of the project. *)
Definition times_from_tasks (c : list task * sim) : Prop :=
  (forall i v, website_start_times (snd c) !! i = Some v ->
     exists t, t ∈ fst c /\ website_id t = i /\ status t ≠ pending /\
       start_day t = v) /\
  (forall i v, website_end_times (snd c) !! i = Some v ->
     exists t, t ∈ fst c /\ website_id t = i /\ type t = GoLive /\
       status t = complete /\ end_day t = v).

(** ** Sample inputs *)

Definition website (i pages : nat) : site :=
  {| site_id := i; site_name := "Website " +:+ pretty (i + 1)%nat;
     site_pages := pages |}.

Definition one_each : resources :=
  {| n_design := 1; n_content := 1; n_wordpress := 1; n_ui := 1 |}.

Definition default_efforts : efforts :=
  {| e_design := 3 # 2; e_content := 3 # 2; e_wordpress := 1; e_ui := 2;
     e_go_live := 10 |}.

(** * Properties *)

(** ** Order facts for [time] *)

Section TimeFacts.

Lemma leb_le a b : leb a b = true <-> le a b.
Proof.
  destruct a as [x|], b as [y|]; simpl; try tauto; try (split; [discriminate|tauto]).
  apply Qle_bool_iff.
Qed.

Lemma ltb_lt a b : ltb a b = true <-> lt a b.
Proof.
  destruct a as [x|], b as [y|]; simpl; try tauto; try (split; [discriminate|tauto]).
  rewrite negb_true_iff. split.
  - intros H. apply Qnot_le_lt. intros Hle. apply Qle_bool_iff in Hle. congruence.
  - intros H. destruct (Qle_bool y x) eqn:E; [|reflexivity].
    apply Qle_bool_iff in E. lra.
Qed.

Lemma ltb_ge a b : ltb a b = false -> le b a.
Proof.
  destruct a as [x|], b as [y|]; simpl; try tauto; try discriminate.
  rewrite negb_false_iff. apply Qle_bool_iff.
Qed.

Lemma le_refl a : le a a.
Proof. destruct a; simpl; [lra|exact I]. Qed.

Lemma le_trans a b c : le a b -> le b c -> le a c.
Proof. destruct a, b, c; simpl; try tauto; lra. Qed.

Lemma lt_le a b : lt a b -> le a b.
Proof. destruct a, b; simpl; try tauto; lra. Qed.

Lemma le_max_l a b : le a (max a b).
Proof.
  unfold max. destruct (ltb a b) eqn:E; [|apply le_refl].
  apply lt_le, ltb_lt, E.
Qed.

Lemma le_max_r a b : le b (max a b).
Proof.
  unfold max. destruct (ltb a b) eqn:E; [apply le_refl|].
  apply ltb_ge, E.
Qed.

Lemma le_add a e : le zero e -> le a (add a e).
Proof.
  destruct a as [x|], e as [y|]; simpl; try tauto.
  intros H. rewrite Qred_correct. lra.
Qed.

End TimeFacts.

(** ** The single-project scenario *)

(** C1: one project with one page, one unit per category and the default
    efforts: Design finishes at 1.5, Content at 3.0, WordPress at 4.0, UI at
    6.0; Go-Live has effort 10/2 = 5, starts at 6.0 and finishes at 11.0,
    which is the project's recorded end time. *)
Theorem single_page_scenario :
  go_live_effort one_each default_efforts = Fin 5 /\
  exists tasks s,
    run_loop one_each [website 0 1] default_efforts = Returned tasks s /\
    map (fun t => (type t, status t, start_day t, end_day t)) tasks =
      [ (Design, complete, Fin 0, Fin (3 # 2));
        (Content, complete, Fin (3 # 2), Fin 3);
        (WordPress, complete, Fin 3, Fin 4);
        (UI, complete, Fin 4, Fin 6);
        (GoLive, complete, Fin 6, Fin 11) ] /\
    website_end_times s = {[ 0%nat := Fin 11 ]}.
Proof.
  split; [reflexivity|].
  eexists _, _. split; [vm_compute; reflexivity|].
  split; vm_compute; reflexivity.
Qed.

(** ** Structure of one pass *)

Section PassStructure.

Lemma insert_by_perm {A : Type} (le : A -> A -> bool) (x : A) (l : list A) :
  insert_by le x l ≡ₚ x :: l.
Proof.
  induction l as [|y l IH]; simpl; [reflexivity|].
  destruct (le x y); [reflexivity|].
  rewrite IH. apply Permutation_swap.
Qed.

Lemma stable_sort_perm {A : Type} (le : A -> A -> bool) (l : list A) :
  stable_sort le l ≡ₚ l.
Proof.
  induction l as [|x l IH]; simpl; [reflexivity|].
  rewrite insert_by_perm. by rewrite IH.
Qed.

Lemma stable_sort_elem {A : Type} (le : A -> A -> bool) (l : list A) (x : A) :
  x ∈ stable_sort le l <-> x ∈ l.
Proof. by rewrite stable_sort_perm. Qed.

(** What activation can do to the active set. *)
Lemma activate_cases ws s :
  activate ws s = s \/
  exists x, (size (active_websites s) < 2)%nat /\ x ∈ ws /\
    (site_id x ∉ active_websites s) /\
    website_end_times s !! site_id x = None /\
    find (eligible s) (stable_sort site_le ws) = Some x /\
    active_websites (activate ws s) = active_websites s ∪ {[ site_id x ]} /\
    website_end_times (activate ws s) = website_end_times s /\
    log_messages (activate ws s) =
      log_messages s ++ [EvActivated (Fin (current_day s)) (site_id x)].
Proof.
  unfold activate. case_bool_decide as Hsz; [|by left].
  destruct (find _ _) as [x|] eqn:Hfind; [|by left].
  right. exists x. apply find_some in Hfind as [Hin Hel].
  apply list_elem_of_In, stable_sort_elem in Hin.
  unfold eligible in Hel. apply andb_true_iff in Hel as [H1 H2].
  apply bool_decide_eq_true in H1, H2. done.
Qed.

Lemma activate_frame ws s :
  resource_free_on_day (activate ws s) = resource_free_on_day s /\
  completed_tasks (activate ws s) = completed_tasks s /\
  website_end_times (activate ws s) = website_end_times s /\
  current_day (activate ws s) = current_day s /\
  gantt_tasks (activate ws s) = gantt_tasks s.
Proof.
  unfold activate. case_bool_decide; [|done]. by destruct (find _ _).
Qed.

(** The scan either keeps its accumulator or settles on a cell of the pool. *)
Lemma scan_pool_spec pool dep : forall i e a e' a',
  scan_pool i pool dep e a = (e', a') ->
  (e' = e /\ a' = a) \/
  exists k f, a' = Some (i + k)%nat /\ pool !! k = Some f /\ e' = max f dep.
Proof.
  induction pool as [|f pool IH]; intros i e a e' a' H; simpl in H.
  - left. by inversion H.
  - destruct (ltb (max f dep) e).
    + apply IH in H as [[-> ->]|(k & f' & -> & Hk & ->)].
      * right. exists 0%nat, f. by rewrite Nat.add_0_r.
      * right. exists (S k), f'. split; [f_equal; lia|done].
    + apply IH in H as [[-> ->]|(k & f' & -> & Hk & ->)]; [by left|].
      right. exists (S k), f'. split; [f_equal; lia|done].
Qed.

Lemma scan_pool_some pool dep e r :
  scan_pool 0 pool dep Inf None = (e, Some r) ->
  exists f, pool !! r = Some f /\ e = max f dep.
Proof.
  intros H. apply scan_pool_spec in H as [[_ ?]|(k & f & Hr & Hk & ->)]; [done|].
  exists f. by simplify_eq/=.
Qed.

(** The two ways the body of the ready-task scan can end for a task. *)
Lemma bind_task_cases t s :
  bind_task t s = (t, s) \/
  exists start r f,
    status t = pending /\ website_id t ∈ active_websites s /\
    deps_met (completed_tasks s) (depends_on t) = true /\
    pool_for (resource_free_on_day s) (type t) !! r = Some f /\
    start = max f (dep_end_day (completed_tasks s) (depends_on t)) /\
    le start (Fin (current_day s)) /\
    bind_task t s = (started t start, bind_effects (started t start) r s).
Proof.
  unfold bind_task. case_bool_decide as Hg; [by left|].
  destruct (deps_met _ _) eqn:Hd; simpl; [|by left].
  destruct (scan_pool _ _ _ _ _) as [e [r|]] eqn:Hscan; [|by left].
  destruct (leb e _) eqn:Hle; [|by left].
  right. apply scan_pool_some in Hscan as (f & Hf & ->).
  exists (max f (dep_end_day (completed_tasks s) (depends_on t))), r, f.
  apply leb_le in Hle.
  split_and!; try done.
  - destruct (status t); try done; exfalso; apply Hg; by left.
  - destruct (decide (website_id t ∈ active_websites s)); [done|].
    exfalso; apply Hg; by right.
Qed.

Lemma bind_task_frame t s :
  completed_tasks (snd (bind_task t s)) = completed_tasks s /\
  active_websites (snd (bind_task t s)) = active_websites s /\
  website_end_times (snd (bind_task t s)) = website_end_times s /\
  current_day (snd (bind_task t s)) = current_day s.
Proof.
  destruct (bind_task_cases t s) as [->|(start & r & f & _ & _ & _ & _ & _ & _ & ->)];
    done.
Qed.

Lemma bind_all_frame ts : forall s,
  completed_tasks (snd (bind_all ts s)) = completed_tasks s /\
  active_websites (snd (bind_all ts s)) = active_websites s /\
  website_end_times (snd (bind_all ts s)) = website_end_times s /\
  current_day (snd (bind_all ts s)) = current_day s.
Proof.
  induction ts as [|t ts IH]; intros s; simpl; [done|].
  destruct (bind_task t s) as [t' s'] eqn:Ht.
  specialize (IH s'). destruct (bind_all ts s') as [ts' s''].
  pose proof (bind_task_frame t s) as Hf. rewrite Ht in Hf. simpl in *.
  destruct IH as (-> & -> & -> & ->). done.
Qed.

(** A property of the state kept by every single binding is kept by the
    whole scan. *)
Lemma bind_all_sim_inv (P : sim -> Prop) ts : forall s,
  (forall t s0, t ∈ ts -> P s0 -> P (snd (bind_task t s0))) ->
  P s -> P (snd (bind_all ts s)).
Proof.
  induction ts as [|t ts IH]; intros s Hstep Hs; simpl; [done|].
  destruct (bind_task t s) as [t' s'] eqn:Ht.
  specialize (IH s'). destruct (bind_all ts s') as [ts' s'']. simpl in *.
  apply IH.
  - intros t0 s0 Hin. apply Hstep. by right.
  - specialize (Hstep t s (list_elem_of_here _ _) Hs). by rewrite Ht in Hstep.
Qed.

End PassStructure.

Section ScanShapes.

Lemma bind_all_Forall2 ts : forall s ts' s',
  bind_all ts s = (ts', s') -> Forall2 (binds s) ts ts'.
Proof.
  induction ts as [|t ts IH]; intros s ts' s' H; simpl in H.
  - inversion H. constructor.
  - destruct (bind_task t s) as [t1 s1] eqn:Ht.
    destruct (bind_all ts s1) as [rest s2] eqn:Hrest.
    inversion H; subst; clear H.
    pose proof (bind_task_frame t s) as (Hc & Ha & _ & Hd).
    rewrite Ht in Hc, Ha, Hd. simpl in *.
    constructor.
    + destruct (bind_task_cases t s)
        as [E|(start & r & f & ? & ? & ? & ? & -> & ? & E)];
        rewrite E in Ht; inversion Ht; subst; [by left|].
      right. split_and!; try done. eexists. split_and!; try done.
      apply le_max_r.
    + apply IH in Hrest. eapply Forall2_impl; [exact Hrest|].
      intros x y. unfold binds. by rewrite Hc, Ha, Hd.
Qed.

Lemma retire_task_cases t s :
  retire_task t s = Some (t, s) \/
  (status t = inprogress /\ type t ≠ GoLive /\
     retire_task t s = Some (completed t, record_completion t s)) \/
  (status t = inprogress /\ type t = GoLive /\ website_id t ∈ active_websites s /\
     retire_task t s = Some (completed t, retire_site t (record_completion t s))) \/
  (status t = inprogress /\ type t = GoLive /\ (website_id t ∉ active_websites s) /\
     retire_task t s = None).
Proof.
  unfold retire_task.
  case_bool_decide as Hs; simpl; [|by left].
  destruct (leb _ _); [|by left].
  case_bool_decide as Hty; [|right; by left].
  case_bool_decide as Hact; right; right; [by left|by right].
Qed.

Lemma retire_all_Forall2 ts : forall s ts' s',
  retire_all ts s = Some (ts', s') -> Forall2 retires ts ts'.
Proof.
  induction ts as [|t ts IH]; intros s ts' s' H; simpl in H.
  - inversion H. constructor.
  - destruct (retire_task t s) as [[t1 s1]|] eqn:Ht; [|done].
    destruct (retire_all ts s1) as [[rest s2]|] eqn:Hrest; [|done].
    inversion H; subst; clear H. constructor; [|by eapply IH].
    destruct (retire_task_cases t s)
      as [E|[(? & ? & E)|[(? & ? & ? & E)|(? & ? & ? & E)]]];
      rewrite E in Ht; inversion Ht; subst; try by left.
    all: by right.
Qed.

Lemma retire_task_frame t s t' s' :
  retire_task t s = Some (t', s') ->
  resource_free_on_day s' = resource_free_on_day s /\
  current_day s' = current_day s /\
  gantt_tasks s' = gantt_tasks s /\
  website_start_times s' = website_start_times s.
Proof.
  intros H.
  destruct (retire_task_cases t s)
    as [E|[(? & ? & E)|[(? & ? & ? & E)|(? & ? & ? & E)]]];
    rewrite E in H; inversion H; subst; done.
Qed.

Lemma retire_all_frame ts : forall s ts' s',
  retire_all ts s = Some (ts', s') ->
  resource_free_on_day s' = resource_free_on_day s /\
  current_day s' = current_day s /\
  gantt_tasks s' = gantt_tasks s /\
  website_start_times s' = website_start_times s.
Proof.
  induction ts as [|t ts IH]; intros s ts' s' H; simpl in H.
  - by inversion H.
  - destruct (retire_task t s) as [[t1 s1]|] eqn:Ht; [|done].
    destruct (retire_all ts s1) as [[rest s2]|] eqn:Hrest; [|done].
    inversion H; subst; clear H.
    apply retire_task_frame in Ht as (<- & <- & <- & <-).
    by eapply IH.
Qed.

(** A pass is the ready-task scan on the sorted list after activation,
    followed by the retirement scan after the clock advance. *)
Lemma tick_inv ws ts s c' :
  tick ws (ts, s) = Some c' ->
  exists ts2 s2,
    bind_all (stable_sort task_le ts) (activate ws s) = (ts2, s2) /\
    retire_all ts2 (advance s2) = Some c'.
Proof.
  unfold tick. destruct (bind_all _ _) as [ts2 s2]. intros H. by exists ts2, s2.
Qed.

Lemma Forall2_elem_l {A B : Type} (R : A -> B -> Prop) l l' x :
  Forall2 R l l' -> x ∈ l -> exists y, y ∈ l' /\ R x y.
Proof.
  induction 1 as [|a b l l' Hab _ IH]; intros Hin.
  - by apply elem_of_nil in Hin.
  - apply elem_of_cons in Hin as [->|Hin].
    + exists b. split; [left|done].
    + destruct (IH Hin) as (y & ? & ?). exists y. split; [by right|done].
Qed.

Lemma Forall2_elem_r {A B : Type} (R : A -> B -> Prop) l l' y :
  Forall2 R l l' -> y ∈ l' -> exists x, x ∈ l /\ R x y.
Proof.
  induction 1 as [|a b l l' Hab _ IH]; intros Hin.
  - by apply elem_of_nil in Hin.
  - apply elem_of_cons in Hin as [->|Hin].
    + exists a. split; [left|done].
    + destruct (IH Hin) as (x & ? & ?). exists x. split; [by right|done].
Qed.

End ScanShapes.

(** ** Precedence *)

Section Precedence.

Lemma recorded_finish_binds s ts ts' d f :
  Forall2 (binds s) ts ts' ->
  recorded_finish ts d f -> recorded_finish ts' d f.
Proof.
  intros HF (u & Hin & Hid & Hst & Hend).
  destruct (Forall2_elem_l _ _ _ _ HF Hin) as (u' & Hin' & [->|(Hp & _)]).
  - by exists u.
  - congruence.
Qed.

Lemma recorded_finish_retires ts ts' d f :
  Forall2 retires ts ts' ->
  recorded_finish ts d f -> recorded_finish ts' d f.
Proof.
  intros HF (u & Hin & Hid & Hst & Hend).
  destruct (Forall2_elem_l _ _ _ _ HF Hin) as (u' & Hin' & [->|(Hp & _)]).
  - by exists u.
  - congruence.
Qed.

Lemma recorded_finish_perm ts ts' d f :
  ts ≡ₚ ts' -> recorded_finish ts d f -> recorded_finish ts' d f.
Proof.
  intros HP (u & Hin & ?). exists u. split; [by rewrite <- HP|done].
Qed.

(** [precedence_ok] only looks at the dependency and the start of the task,
    and survives any change of the list that keeps recorded finishes. *)
Lemma precedence_ok_mono ts ts' t t' :
  (forall d f, recorded_finish ts d f -> recorded_finish ts' d f) ->
  depends_on t' = depends_on t -> start_day t' = start_day t ->
  precedence_ok ts t -> precedence_ok ts' t'.
Proof.
  intros Hm Hd Hs. unfold precedence_ok. rewrite Hd, Hs.
  destruct (depends_on t) as [|d|ds]; [done| |].
  - intros (f & Hf & Hle). exists f. eauto.
  - intros (fs & Hfs & Hle). exists fs. split; [|done].
    eapply Forall2_impl; [exact Hfs|]. eauto.
Qed.

Lemma deps_recorded c ds :
  completed_sound c ->
  forallb (in_completed (completed_tasks (snd c))) ds = true ->
  Forall2 (recorded_finish (fst c)) ds
    (map (fun dep => default zero (completed_tasks (snd c) !! dep)) ds).
Proof.
  intros Hc. induction ds as [|d ds IH]; simpl; intros H; [constructor|].
  apply andb_true_iff in H as [Hd Hds].
  constructor; [|by apply IH].
  unfold in_completed in Hd. apply bool_decide_eq_true in Hd as [f Hf].
  rewrite Hf. simpl. by apply Hc.
Qed.

(** A task bound in a pass starts no earlier than its dependencies
    finished. *)
Lemma started_precedence c t start :
  completed_sound c ->
  deps_met (completed_tasks (snd c)) (depends_on t) = true ->
  le (dep_end_day (completed_tasks (snd c)) (depends_on t)) start ->
  precedence_ok (fst c) (started t start).
Proof.
  intros Hc Hmet Hle. unfold precedence_ok. simpl.
  destruct (depends_on t) as [|d|ds]; simpl in *; [done| |].
  - unfold in_completed in Hmet. apply bool_decide_eq_true in Hmet as [f Hf].
    rewrite Hf in Hle. exists f. split; [by apply Hc|done].
  - eexists. split; [by apply deps_recorded|].
    by destruct (map _ ds).
Qed.

Lemma retire_all_completed ts : forall s ts' s',
  retire_all ts s = Some (ts', s') ->
  forall d f, completed_tasks s' !! d = Some f ->
    completed_tasks s !! d = Some f \/ recorded_finish ts' d f.
Proof.
  induction ts as [|t ts IH]; intros s ts' s' H d f Hd; simpl in H.
  - inversion H; subst. by left.
  - destruct (retire_task t s) as [[t1 s1]|] eqn:Ht; [|done].
    destruct (retire_all ts s1) as [[rest s2]|] eqn:Hrest; [|done].
    inversion H; subst; clear H.
    destruct (IH _ _ _ Hrest d f Hd) as [Hs1|(u & Hin & Hu)].
    2:{ right. exists u. split; [by right|done]. }
    assert (completed_tasks s1 = completed_tasks s \/
            (t1 = completed t /\
             completed_tasks s1 = <[id t := end_day t]> (completed_tasks s)))
      as [E|[-> E]].
    { destruct (retire_task_cases t s)
        as [E|[(? & ? & E)|[(? & ? & ? & E)|(? & ? & ? & E)]]];
        rewrite E in Ht; inversion Ht; subst; simpl; auto. }
    + rewrite E in Hs1. by left.
    + rewrite E in Hs1. apply lookup_insert_Some in Hs1 as [[<- <-]|[_ ?]]; [|by left].
      right. exists (completed t). split; [left|done].
Qed.

Lemma precedence_init r ws e :
  completed_sound (init r ws e) /\
  (forall t, t ∈ fst (init r ws e) -> status t = pending).
Proof.
  split.
  - intros d f. simpl. by rewrite lookup_empty.
  - simpl. unfold build_tasks.
    assert (Hpages : forall ws0 acc,
      (forall t, t ∈ acc -> status t = pending) ->
      forall t, t ∈ append_page_tasks e ws0 acc -> status t = pending).
    { unfold append_page_tasks. induction ws0 as [|s ws0 IH]; intros acc Hacc; [done|].
      simpl. apply IH.
      generalize (seq 1 (site_pages s)) as pages. intros pages. revert acc Hacc.
      induction pages as [|p pages IHp]; intros acc Hacc; [done|].
      simpl. apply IHp. intros t Ht. apply elem_of_app in Ht as [Ht|Ht]; [by apply Hacc|].
      unfold page_chain in Ht.
      repeat (apply elem_of_cons in Ht as [->|Ht]; [done|]).
      by apply elem_of_nil in Ht. }
    assert (Hgl : forall ws0 acc,
      (forall t, t ∈ acc -> status t = pending) ->
      forall t, t ∈ append_go_live_tasks r e ws0 acc -> status t = pending).
    { unfold append_go_live_tasks. induction ws0 as [|s ws0 IH]; intros acc Hacc; [done|].
      simpl. apply IH. intros t Ht. apply elem_of_app in Ht as [Ht|Ht]; [by apply Hacc|].
      apply list_elem_of_singleton in Ht. by subst. }
    apply Hgl, Hpages. intros t Ht. by apply elem_of_nil in Ht.
Qed.

Lemma precedence_pass ws c c' :
  tick ws c = Some c' ->
  completed_sound c -> all_precedence c ->
  completed_sound c' /\ all_precedence c'.
Proof.
  destruct c as [ts s], c' as [ts3 s3]. intros Htick Hcs Hprec.
  apply tick_inv in Htick as (ts2 & s2 & Hbind & Hret).
  pose proof (bind_all_Forall2 _ _ _ _ Hbind) as HB.
  pose proof (retire_all_Forall2 _ _ _ _ Hret) as HR.
  pose proof (activate_frame ws s) as (_ & Hca & _ & _ & _).
  pose proof (bind_all_frame (stable_sort task_le ts) (activate ws s)) as (Hcb & _).
  rewrite Hbind in Hcb. simpl in Hcb.
  assert (Hlift : forall d f, recorded_finish ts d f -> recorded_finish ts3 d f).
  { intros d f H. eapply recorded_finish_retires; [exact HR|].
    eapply recorded_finish_binds; [exact HB|].
    eapply recorded_finish_perm; [|exact H]. symmetry. apply stable_sort_perm. }
  split.
  - intros d f Hd. simpl in Hd.
    destruct (retire_all_completed _ _ _ _ Hret d f Hd) as [Hold|Hnew]; [|done].
    simpl in Hold. rewrite Hcb, Hca in Hold. apply Hlift. by apply Hcs.
  - intros t3 Hin3 Hst3. simpl in *.
    destruct (Forall2_elem_r _ _ _ _ HR Hin3) as (t2 & Hin2 & Hr).
    destruct (Forall2_elem_r _ _ _ _ HB Hin2) as (t1 & Hin1 & Hb).
    apply stable_sort_elem in Hin1.
    assert (precedence_ok ts3 t2) as H2.
    { destruct Hb as [->|(Hp & Hact & Hmet & start & -> & Hle & _)].
      - assert (status t1 ≠ pending).
        { destruct Hr as [->|[Hs ->]]; [done|congruence]. }
        eapply precedence_ok_mono; [exact Hlift|done|done|]. by apply Hprec.
      - rewrite Hca in Hmet, Hle.
        eapply precedence_ok_mono; [exact Hlift|done|done|].
        by apply (started_precedence (ts, s)). }
    destruct Hr as [->|[_ ->]]; [done|].
    eapply precedence_ok_mono; [|reflexivity|reflexivity|exact H2]. auto.
Qed.

Lemma precedence_reachable ws c0 c :
  reachable ws c0 c ->
  completed_sound c0 -> all_precedence c0 ->
  completed_sound c /\ all_precedence c.
Proof.
  induction 1 as [|c c' _ IH _ _ Htick]; intros H1 H2; [done|].
  destruct (IH H1 H2). by eapply precedence_pass.
Qed.

Lemma passes_reachable n : forall ws c0 c c',
  reachable ws c0 c -> passes n ws c = Some c' -> reachable ws c0 c'.
Proof.
  induction n as [|n IH]; intros ws c0 c c' Hr H; simpl in H.
  - by inversion H; subst.
  - destruct (bool_decide _ && _) eqn:Hg; [|done].
    apply andb_true_iff in Hg as [Hu Hb].
    apply bool_decide_eq_true in Hu. apply Qle_bool_iff in Hb.
    destruct (tick ws c) as [c1|] eqn:Ht; [|done].
    eapply IH; [|exact H]. by eapply reach_pass.
Qed.

(** What a run returns is a configuration the loop went through, with the
    timeout line added to the log when the run timed out. *)
Lemma main_loop_returned ws fuel : forall c0 c tasks s,
  reachable ws c0 c ->
  main_loop fuel ws c = Returned tasks s ->
  exists c', reachable ws c0 c' /\ fst c' = tasks /\
    (s = snd c' \/ s = timed_out (snd c')).
Proof.
  induction fuel as [|fuel IH]; intros c0 c tasks s Hr; simpl.
  - case_bool_decide as Hun.
    + destruct (Qle_bool _ _); simpl; [done|].
      intros [= <- <-]. exists c. auto.
    + intros [= <- <-]. exists c. auto.
  - case_bool_decide as Hun.
    + destruct (Qle_bool _ _) eqn:Hle; simpl.
      * apply Qle_bool_iff in Hle.
        destruct (tick ws c) as [c1|] eqn:Ht; [|done].
        apply IH. by eapply reach_pass.
      * intros [= <- <-]. exists c. auto.
    + intros [= <- <-]. exists c. auto.
Qed.

Lemma passes_visited n r ws e c :
  passes n ws (init r ws e) = Some c -> visited r ws e c.
Proof. apply passes_reachable. constructor. Qed.

(** C5: in every configuration the loop goes through, each task that has
    been bound starts at or after 0 when it has no dependency, at or after the
    recorded finish of its single dependency, and at or after the maximum
    recorded finish over its dependency list when it is a Go-Live task. *)
Theorem bound_tasks_respect_precedence r ws e c t :
  visited r ws e c ->
  t ∈ fst c -> status t ≠ pending ->
  precedence_ok (fst c) t.
Proof.
  intros Hv Hin Hst.
  destruct (precedence_init r ws e) as [Hcs Hpend].
  eapply (precedence_reachable _ _ _ Hv); try done.
  intros u Hu Hs. by apply Hpend in Hu.
Qed.

(** The Content task of the sample project, started at day 1.5 in the pass
    at day 1.5, right after its Design task finished. *)
Lemma bound_tasks_respect_precedence_witness :
  let ws := [website 0 1] in
  let c := default (init one_each ws default_efforts)
             (passes 4 ws (init one_each ws default_efforts)) in
  let t := default (go_live_task one_each default_efforts [] (website 0 1))
             (fst c !! 1%nat) in
  (status t = inprogress /\ start_day t = Fin (3 # 2)) /\
  precedence_ok (fst c) t.
Proof.
  intros ws c t. split; [by vm_compute|].
  apply (bound_tasks_respect_precedence one_each ws default_efforts c t).
  - apply (passes_visited 4). vm_compute. reflexivity.
  - apply (list_elem_of_lookup_2 _ 1%nat). vm_compute. reflexivity.
  - vm_compute. discriminate.
Defined.

End Precedence.

(** ** Resource exclusivity *)

Section Exclusivity.

(** A property of every task the plan builder emits. *)
Lemma build_tasks_Forall (P : task -> Prop) r ws e :
  (forall s p t, t ∈ page_chain e s p -> P t) ->
  (forall acc s, P (go_live_task r e acc s)) ->
  forall t, t ∈ build_tasks r ws e -> P t.
Proof.
  intros Hchain Hgo. unfold build_tasks.
  assert (Hpages : forall ws0 acc,
    (forall t, t ∈ acc -> P t) ->
    forall t, t ∈ append_page_tasks e ws0 acc -> P t).
  { unfold append_page_tasks. induction ws0 as [|s ws0 IH]; intros acc Hacc; [done|].
    simpl. apply IH.
    generalize (seq 1 (site_pages s)) as pages. intros pages. revert acc Hacc.
    induction pages as [|p pages IHp]; intros acc Hacc; [done|].
    simpl. apply IHp. intros t Ht.
    apply elem_of_app in Ht as [Ht|Ht]; [by apply Hacc|by eapply Hchain]. }
  assert (Hgl : forall ws0 acc,
    (forall t, t ∈ acc -> P t) ->
    forall t, t ∈ append_go_live_tasks r e ws0 acc -> P t).
  { unfold append_go_live_tasks. induction ws0 as [|s ws0 IH]; intros acc Hacc; [done|].
    simpl. apply IH. intros t Ht. apply elem_of_app in Ht as [Ht|Ht]; [by apply Hacc|].
    apply list_elem_of_singleton in Ht. subst. apply Hgo. }
  apply Hgl, Hpages. intros t Ht. by apply elem_of_nil in Ht.
Qed.

Lemma go_live_effort_nonneg r e : 0 <= e_go_live e -> le zero (go_live_effort r e).
Proof.
  intros Hg. unfold go_live_effort.
  destruct (0 <? _)%nat eqn:Hn; simpl; [|exact I].
  apply Nat.ltb_lt in Hn. rewrite Qred_correct.
  apply Qle_shift_div_l.
  - replace 0 with (inject_Z 0) by reflexivity. rewrite <- Zlt_Qlt. lia.
  - lra.
Qed.

Lemma build_tasks_efforts r ws e t :
  nonneg_efforts e -> t ∈ build_tasks r ws e -> le zero (effort t).
Proof.
  intros (Hd & Hc & Hw & Hu & Hg). revert t. apply build_tasks_Forall.
  - intros s p t Ht. unfold page_chain in Ht.
    repeat (apply elem_of_cons in Ht as [->|Ht]; [done|]).
    by apply elem_of_nil in Ht.
  - intros acc s. simpl. by apply go_live_effort_nonneg.
Qed.

Lemma efforts_pass ws c c' :
  tick ws c = Some c' ->
  (forall t, t ∈ fst c -> le zero (effort t)) ->
  forall t, t ∈ fst c' -> le zero (effort t).
Proof.
  destruct c as [ts s], c' as [ts3 s3]. intros Htick Heff t3 Hin3.
  apply tick_inv in Htick as (ts2 & s2 & Hbind & Hret).
  pose proof (bind_all_Forall2 _ _ _ _ Hbind) as HB.
  pose proof (retire_all_Forall2 _ _ _ _ Hret) as HR.
  simpl in *.
  destruct (Forall2_elem_r _ _ _ _ HR Hin3) as (t2 & Hin2 & Hr).
  destruct (Forall2_elem_r _ _ _ _ HB Hin2) as (t1 & Hin1 & Hb).
  apply stable_sort_elem in Hin1. apply Heff in Hin1.
  assert (effort t2 = effort t1) as E2.
  { destruct Hb as [->|(_ & _ & _ & start & -> & _)]; done. }
  assert (effort t3 = effort t2) as E3.
  { destruct Hr as [->|[_ ->]]; done. }
  by rewrite E3, E2.
Qed.

(** The index found by the scan names a real ledger cell, holding the
    free-at mark that was scanned. *)
Lemma cell_unit_of l ty r f :
  pool_for l ty !! r = Some f -> cell l (unit_of l ty r) = Some f.
Proof.
  destruct ty; simpl; try done.
  intros H. destruct (r <? length (free_wordpress l))%nat eqn:Hr; simpl.
  - apply Nat.ltb_lt in Hr. by rewrite lookup_app_l in H.
  - apply Nat.ltb_ge in Hr. by rewrite lookup_app_r in H.
Qed.

Lemma cell_write_same l u v f :
  cell l u = Some f -> cell (write_unit l u v) u = Some v.
Proof.
  destruct u as [ty i]. unfold cell, write_unit. simpl.
  destruct ty; simpl; try done; intros H;
    apply list_lookup_insert_eq; by eapply lookup_lt_Some.
Qed.

Lemma cell_write_other l u v u' :
  u' ≠ u -> cell (write_unit l u v) u' = cell l u'.
Proof.
  destruct u as [ty i], u' as [ty' i']. unfold cell, write_unit. simpl.
  intros Hne.
  destruct ty, ty'; simpl; try done;
    apply list_lookup_insert_ne; congruence.
Qed.

Lemma exclusivity_bind t s :
  le zero (effort t) ->
  ledger_covers s /\ in_order (gantt_tasks s) ->
  ledger_covers (snd (bind_task t s)) /\
  in_order (gantt_tasks (snd (bind_task t s))).
Proof.
  intros Heff [Hcov Hord].
  destruct (bind_task_cases t s)
    as [->|(start & r & f & _ & _ & _ & Hpool & Hstart & _ & ->)]; [done|].
  simpl. set (u := unit_of (resource_free_on_day s) (type t) r).
  apply cell_unit_of in Hpool. fold u in Hpool.
  assert (le f start) as Hfs by (subst start; apply le_max_l).
  assert (le start (add start (effort t))) as Hse by by apply le_add.
  split.
  - intros row Hrow. simpl in *. unfold commit. fold u.
    apply elem_of_app in Hrow as [Hrow|Hrow].
    + destruct (Hcov row Hrow) as (f' & Hf' & Hle).
      destruct (decide (g_unit row = u)) as [E|N].
      * rewrite E in *. erewrite cell_write_same by done.
        eexists. split; [done|]. replace f' with f in * by congruence.
        eauto using le_trans.
      * rewrite cell_write_other by done. eauto.
    + apply list_elem_of_singleton in Hrow. subst row. simpl.
      erewrite cell_write_same by done. eexists. split; [done|apply le_refl].
  - intros i j a b Hij Ha Hb Hu.
    apply lookup_snoc_Some in Hb as [[Hj Hb]|[Hj <-]].
    + apply lookup_snoc_Some in Ha as [[_ Ha]|[Hi _]]; [|lia].
      by eapply (Hord i j).
    + apply lookup_snoc_Some in Ha as [[_ Ha]|[Hi _]]; [|lia].
      simpl in *. fold u in Hu.
      destruct (Hcov a) as (f' & Hf' & Hle); [by eapply list_elem_of_lookup_2|].
      rewrite Hu in Hf'. replace f' with f in * by congruence.
      eauto using le_trans.
Qed.

Lemma exclusivity_pass ws c c' :
  tick ws c = Some c' ->
  (forall t, t ∈ fst c -> le zero (effort t)) ->
  ledger_covers (snd c) /\ in_order (gantt_tasks (snd c)) ->
  ledger_covers (snd c') /\ in_order (gantt_tasks (snd c')).
Proof.
  destruct c as [ts s], c' as [ts3 s3]. intros Htick Heff Hinv.
  apply tick_inv in Htick as (ts2 & s2 & Hbind & Hret).
  apply retire_all_frame in Hret as (Hl & _ & Hg & _). simpl in *.
  unfold ledger_covers. rewrite Hg, Hl. clear Hg Hl.
  change (ledger_covers s2 /\ in_order (gantt_tasks s2)).
  replace s2 with (snd (bind_all (stable_sort task_le ts) (activate ws s)))
    by by rewrite Hbind.
  apply (bind_all_sim_inv (fun s => ledger_covers s /\ in_order (gantt_tasks s))).
  - intros t s0 Hin. apply exclusivity_bind, Heff. by apply stable_sort_elem in Hin.
  - pose proof (activate_frame ws s) as (Hl & _ & _ & _ & Hg).
    unfold ledger_covers. by rewrite Hg, Hl.
Qed.

Lemma exclusivity_reachable ws c0 c :
  reachable ws c0 c ->
  (forall t, t ∈ fst c0 -> le zero (effort t)) ->
  ledger_covers (snd c0) /\ in_order (gantt_tasks (snd c0)) ->
  (forall t, t ∈ fst c -> le zero (effort t)) /\
  ledger_covers (snd c) /\ in_order (gantt_tasks (snd c)).
Proof.
  induction 1 as [|c c' _ IH _ _ Htick]; intros H1 H2; [done|].
  destruct (IH H1 H2) as [He Hi]. split.
  - by eapply efforts_pass.
  - by eapply exclusivity_pass.
Qed.

(** Every binding leaves its row in [gantt_tasks], and rows are never
    removed. *)
Lemma bind_all_rows ts : forall s ts' s',
  bind_all ts s = (ts', s') ->
  (forall row, row ∈ gantt_tasks s -> row ∈ gantt_tasks s') /\
  Forall2 (fun t t' => t' = t \/
             exists row, row ∈ gantt_tasks s' /\ row_of t' row) ts ts'.
Proof.
  induction ts as [|t ts IH]; intros s ts' s' H; simpl in H.
  - inversion H; subst. split; [done|constructor].
  - destruct (bind_task t s) as [t1 s1] eqn:Ht.
    destruct (bind_all ts s1) as [rest s2] eqn:Hrest.
    inversion H; subst; clear H.
    destruct (IH _ _ _ Hrest) as [Hgrow HF].
    destruct (bind_task_cases t s)
      as [E|(start & r & f & _ & _ & _ & _ & _ & _ & E)];
      rewrite E in Ht; inversion Ht; subst; clear Ht.
    + split; [done|]. constructor; [by left|done].
    + split.
      * intros row Hrow. apply Hgrow. simpl. apply elem_of_app. by left.
      * constructor; [|done]. right. eexists. split.
        -- apply Hgrow. simpl. apply elem_of_app. right. left.
        -- done.
Qed.

Lemma rows_pass ws c c' :
  tick ws c = Some c' ->
  (forall t, t ∈ fst c -> status t ≠ pending ->
     exists row, row ∈ gantt_tasks (snd c) /\ row_of t row) ->
  forall t, t ∈ fst c' -> status t ≠ pending ->
    exists row, row ∈ gantt_tasks (snd c') /\ row_of t row.
Proof.
  destruct c as [ts s], c' as [ts3 s3]. intros Htick Hrows t3 Hin3 Hst3.
  apply tick_inv in Htick as (ts2 & s2 & Hbind & Hret).
  destruct (bind_all_rows _ _ _ _ Hbind) as [Hgrow HB].
  pose proof (bind_all_Forall2 _ _ _ _ Hbind) as HB'.
  pose proof (retire_all_Forall2 _ _ _ _ Hret) as HR.
  apply retire_all_frame in Hret as (_ & _ & Hg & _). simpl in *.
  rewrite Hg. clear Hg.
  pose proof (activate_frame ws s) as (_ & _ & _ & _ & Hga).
  destruct (Forall2_elem_r _ _ _ _ HR Hin3) as (t2 & Hin2 & Hr).
  assert (exists row, row ∈ gantt_tasks s2 /\ row_of t2 row) as (row & Hrow & Hof).
  { apply list_elem_of_lookup_1 in Hin2 as [k Hk].
    destruct (Forall2_lookup_r _ _ _ _ _ HB Hk) as (t1 & Hk1 & [->|Hnew]); [|done].
    destruct (Hrows t1) as (row & Hrow & Hof).
    - apply (stable_sort_elem task_le). by eapply list_elem_of_lookup_2.
    - destruct Hr as [->|[Hs _]]; [done|congruence].
    - exists row. split; [|done]. apply Hgrow. by rewrite Hga. }
  exists row. split; [done|]. by destruct Hr as [->|[_ ->]].
Qed.

Lemma rows_reachable ws c0 c :
  reachable ws c0 c ->
  (forall t, t ∈ fst c0 -> status t = pending) ->
  forall t, t ∈ fst c -> status t ≠ pending ->
    exists row, row ∈ gantt_tasks (snd c) /\ row_of t row.
Proof.
  induction 1 as [|c c' _ IH _ _ Htick]; intros H0.
  - intros t Ht Hst. by apply H0 in Ht.
  - eapply rows_pass; eauto.
Qed.

(** C6: with non-negative efforts, in every configuration the loop goes
    through, every bound task has its row in [gantt_tasks] with its start and
    finish, and two different rows for the same resource unit (Go-Live
    bindings counted on the WordPress or UI cell they occupy) have
    non-overlapping intervals. *)
Theorem unit_intervals_disjoint r ws e c :
  nonneg_efforts e ->
  visited r ws e c ->
  (forall t, t ∈ fst c -> status t ≠ pending ->
     exists row, row ∈ gantt_tasks (snd c) /\ row_of t row) /\
  (forall i j a b, i ≠ j ->
     gantt_tasks (snd c) !! i = Some a ->
     gantt_tasks (snd c) !! j = Some b ->
     g_unit a = g_unit b ->
     disjoint a b).
Proof.
  intros He Hv. split.
  - apply (rows_reachable _ _ _ Hv).
    apply (build_tasks_Forall (fun t => status t = pending)); [|done].
    intros s p t Ht. unfold page_chain in Ht.
    repeat (apply elem_of_cons in Ht as [->|Ht]; [done|]).
    by apply elem_of_nil in Ht.
  - intros i j a b Hij Ha Hb Hu.
    destruct (exclusivity_reachable _ _ _ Hv) as (_ & _ & Hord).
    + intros t. by apply build_tasks_efforts.
    + split; [|by intros ? ? ? ? _ H; simpl in H].
      intros row Hrow. simpl in Hrow. by apply elem_of_nil in Hrow.
    + unfold disjoint. destruct (decide (i < j)%nat).
      * left. by eapply Hord.
      * right. eapply (Hord j i); try done. lia.
Qed.

End Exclusivity.

(** Two Design tasks on the single designer, after four passes of a
    two-project run. *)
Lemma unit_intervals_disjoint_witness :
  let ws := [website 0 1; website 1 1] in
  let c := default (init one_each ws default_efforts)
             (passes 4 ws (init one_each ws default_efforts)) in
  exists a b,
    gantt_tasks (snd c) !! 0%nat = Some a /\
    gantt_tasks (snd c) !! 2%nat = Some b /\
    g_unit a = (Design, 0%nat) /\ g_unit b = (Design, 0%nat) /\
    disjoint a b.
Proof.
  intros ws c. eexists _, _.
  split; [vm_compute; reflexivity|].
  split; [vm_compute; reflexivity|].
  split; [reflexivity|]. split; [reflexivity|].
  assert (nonneg_efforts default_efforts) as He.
  { unfold nonneg_efforts. simpl. lra. }
  assert (visited one_each ws default_efforts c) as Hv.
  { apply (passes_visited 4). vm_compute. reflexivity. }
  destruct (unit_intervals_disjoint one_each ws default_efforts c He Hv)
    as [_ Hdis].
  apply (Hdis 0%nat 2%nat).
  - lia.
  - vm_compute. reflexivity.
  - vm_compute. reflexivity.
  - reflexivity.
Defined.

(** ** The active set *)

Section ActiveSet.

Variable ws : list site.

Lemma cap_activate s : cap_ok s -> cap_ok (activate ws s).
Proof.
  intros [Hsz Hfin].
  destruct (activate_cases ws s)
    as [->|(x & Hlt & _ & Hnot & Hend & _ & Hact & Hends & _)]; [done|].
  unfold cap_ok. rewrite Hact, Hends. split.
  - rewrite size_union by by apply disjoint_singleton_r.
    rewrite size_singleton. lia.
  - intros i Hi. apply elem_of_union in Hi as [Hi|Hi]; [by apply Hfin|].
    apply elem_of_singleton in Hi. by subst.
Qed.

Lemma cap_bind_all ts s : cap_ok s -> cap_ok (snd (bind_all ts s)).
Proof.
  unfold cap_ok. by destruct (bind_all_frame ts s) as (_ & -> & -> & _).
Qed.

Lemma cap_retire_task t s t' s' :
  retire_task t s = Some (t', s') -> cap_ok s -> cap_ok s'.
Proof.
  intros H [Hsz Hfin].
  destruct (retire_task_cases t s)
    as [E|[(? & ? & E)|[(? & ? & ? & E)|(? & ? & ? & E)]]];
    rewrite E in H; inversion H; subst; clear H; try done.
  split; simpl.
  - etrans; [|exact Hsz]. by apply subseteq_size, subseteq_difference_l.
  - intros i Hi. apply elem_of_difference in Hi as [Hi Hne].
    rewrite lookup_insert_ne; [by apply Hfin|].
    intros Hid. by apply Hne, elem_of_singleton.
Qed.






(** Recorded end times are never dropped. *)
Lemma ends_retire_all ts : forall s ts' s' i,
  retire_all ts s = Some (ts', s') ->
  is_Some (website_end_times s !! i) -> is_Some (website_end_times s' !! i).
Proof.
  induction ts as [|t ts IH]; intros s ts' s' i H Hi; simpl in H.
  - by inversion H; subst.
  - destruct (retire_task t s) as [[t1 s1]|] eqn:Ht; [|done].
    destruct (retire_all ts s1) as [[rest s2]|] eqn:Hrest; [|done].
    inversion H; subst; clear H.
    eapply IH; [exact Hrest|].
    destruct (retire_task_cases t s)
      as [E|[(? & ? & E)|[(? & ? & ? & E)|(? & ? & ? & E)]]];
      rewrite E in Ht; inversion Ht; subst; clear Ht; try done.
    simpl. rewrite lookup_insert_is_Some. destruct (decide (website_id t = i)); auto.
Qed.


Lemma ends_pass c c' i :
  tick ws c = Some c' ->
  is_Some (website_end_times (snd c) !! i) ->
  is_Some (website_end_times (snd c') !! i).
Proof.
  destruct c as [ts s], c' as [ts3 s3]. intros Htick Hi.
  apply tick_inv in Htick as (ts2 & s2 & Hbind & Hret).
  eapply ends_retire_all; [exact Hret|]. simpl in *.
  pose proof (bind_all_frame (stable_sort task_le ts) (activate ws s))
    as (_ & _ & Hb & _).
  rewrite Hbind in Hb. simpl in Hb. rewrite Hb.
  pose proof (activate_frame ws s) as (_ & _ & -> & _). done.
Qed.





End ActiveSet.


(** ** Termination *)

Section Termination.

Variable ws : list site.

Lemma tick_clock c c' :
  tick ws c = Some c' ->
  current_day (snd c') = Qred (current_day (snd c) + time_step).
Proof.
  destruct c as [ts s], c' as [ts3 s3]. intros Htick.
  apply tick_inv in Htick as (ts2 & s2 & Hbind & Hret).
  apply retire_all_frame in Hret as (_ & Hr & _). simpl in *. rewrite Hr.
  pose proof (bind_all_frame (stable_sort task_le ts) (activate ws s))
    as (_ & _ & _ & Hb).
  rewrite Hbind in Hb. simpl in Hb. rewrite Hb.
  by pose proof (activate_frame ws s) as (_ & _ & _ & -> & _).
Qed.

Lemma half_days_next d k :
  d == Z.of_nat k # 2 -> Qred (d + time_step) == Z.of_nat (S k) # 2.
Proof.
  intros H. rewrite Qred_correct, H. unfold time_step, Qeq, Qplus. simpl. lia.
Qed.

Lemma half_days_bound d k :
  d == Z.of_nat k # 2 -> Qle_bool d 1000 = true -> (k <= 2000)%nat.
Proof.
  intros H Hle. apply Qle_bool_iff in Hle. rewrite H in Hle.
  unfold Qle in Hle. simpl in Hle. lia.
Qed.

(** After [k] passes the clock reads [k/2]; from there, [2001 - k] more
    passes are enough to leave the loop. *)
Lemma main_loop_fuel fuel : forall c k,
  current_day (snd c) == Z.of_nat k # 2 ->
  (2001 <= k + fuel)%nat ->
  main_loop fuel ws c ≠ OutOfFuel /\ (body_entries fuel ws c <= S fuel)%nat.
Proof.
  induction fuel as [|fuel IH]; intros c k Hk Hfuel.
  - simpl. case_bool_decide; [|split; [done|lia]].
    destruct (Qle_bool _ _) eqn:Hle; simpl; [|split; [done|lia]].
    apply (half_days_bound _ _ Hk) in Hle. lia.
  - simpl. case_bool_decide; [|split; [done|lia]].
    destruct (Qle_bool _ _) eqn:Hle; simpl; [|split; [done|lia]].
    destruct (tick ws c) as [c'|] eqn:Ht; [|split; [done|lia]].
    destruct (IH c' (S k)) as [H1 H2].
    + rewrite (tick_clock _ _ Ht). by apply half_days_next.
    + lia.
    + split; [done|lia].
Qed.

(** C10: every pass moves the clock forward by the step 0.5, and from the
    initial configuration the loop is left, by completion, timeout or an
    exception, within 2001 full passes; the body is entered at most 2002
    times. *)
Theorem run_simulation_terminates r e :
  (forall c c', tick ws c = Some c' ->
     current_day (snd c') == current_day (snd c) + (1 # 2)) /\
  run_loop r ws e ≠ OutOfFuel /\
  (body_entries max_passes ws (init r ws e) <= 2002)%nat.
Proof.
  split.
  - intros c c' Ht. rewrite (tick_clock _ _ Ht). apply Qred_correct.
  - apply (main_loop_fuel max_passes (init r ws e) 0); [reflexivity|].
    unfold max_passes. lia.
Qed.

End Termination.

(** ** The empty Go-Live pool *)

Section EmptyPool.

Context (rs : resources) (ws : list site) (es : efforts).
Hypothesis no_wordpress : n_wordpress rs = 0%nat.
Hypothesis no_ui : n_ui rs = 0%nat.
Hypothesis some_project : ws ≠ [].

Lemma filter_length_Forall2 {A : Type} (P : A -> Prop) `{!forall x, Decision (P x)}
    (R : A -> A -> Prop) l l' :
  Forall2 R l l' -> (forall x y, R x y -> (P x <-> P y)) ->
  length (filter P l) = length (filter P l').
Proof.
  intros HF HR. induction HF as [|x y l l' Hxy _ IH]; [done|].
  rewrite !filter_cons. specialize (HR x y Hxy).
  destruct (decide (P x)), (decide (P y)); simpl; try tauto; by rewrite IH.
Qed.









End EmptyPool.



(** ** Determinism *)

Section Determinism.

Lemma loop_run_functional ws c o1 o2 :
  loop_run ws c o1 -> loop_run ws c o2 -> o1 = o2.
Proof.
  intros H1. revert o2.
  induction H1 as [c Hfin|c Hun Hout|c Hun Hin Htick|c c' o Hun Hin Htick _ IH];
    intros o2 H2; inversion H2; subst; try done; try congruence.
  apply IH. congruence.
Qed.

(** The fuelled loop follows the big-step reading whenever it does not run
    out of fuel. *)
Lemma main_loop_sound ws fuel : forall c,
  main_loop fuel ws c ≠ OutOfFuel -> loop_run ws c (main_loop fuel ws c).
Proof.
  induction fuel as [|fuel IH]; intros c; simpl.
  - case_bool_decide as Hun; [|intros _; by apply run_complete].
    destruct (Qle_bool _ _) eqn:Hle; simpl; [done|].
    intros _. apply run_timeout; [done|].
    unfold within_bound. rewrite <- Qle_bool_iff. congruence.
  - case_bool_decide as Hun; [|intros _; by apply run_complete].
    destruct (Qle_bool _ _) eqn:Hle; simpl.
    + apply Qle_bool_iff in Hle.
      destruct (tick ws c) as [c'|] eqn:Ht.
      * intros Hne. eapply run_pass; eauto.
      * intros _. by apply run_raise.
    + intros _. apply run_timeout; [done|].
      unfold within_bound. rewrite <- Qle_bool_iff. congruence.
Qed.

(** C9: two runs of the loop from the same resources, project list and
    efforts end the same way, with the same start-time map, the same end-time
    map and the same log. *)
Theorem run_simulation_deterministic r ws e o1 o2 :
  loop_run ws (init r ws e) o1 ->
  loop_run ws (init r ws e) o2 ->
  schedule_of o1 = schedule_of o2.
Proof.
  intros H1 H2. by rewrite (loop_run_functional _ _ _ _ H1 H2).
Qed.

(** The run of the sample project, followed with two different pass
    budgets. *)
Lemma run_simulation_deterministic_witness :
  let ws := [website 0 1] in
  schedule_of (main_loop 30 ws (init one_each ws default_efforts)) =
  schedule_of (run_loop one_each ws default_efforts).
Proof.
  intros ws.
  apply (run_simulation_deterministic one_each ws default_efforts).
  - apply main_loop_sound. vm_compute. discriminate.
  - apply main_loop_sound. vm_compute. discriminate.
Defined.

End Determinism.

(** ** The plan builder *)

Section PlanBuilder.

Lemma fold_left_append {A B : Type} (f : A -> list B) l : forall acc,
  fold_left (fun acc x => acc ++ f x) l acc = acc ++ flat_map f l.
Proof.
  induction l as [|x l IH]; intros acc; simpl.
  - by rewrite app_nil_r.
  - by rewrite IH, app_assoc.
Qed.

Lemma append_page_tasks_flat e ws : forall acc,
  append_page_tasks e ws acc =
  acc ++ flat_map (fun s => flat_map (page_chain e s) (seq 1 (site_pages s))) ws.
Proof.
  unfold append_page_tasks. induction ws as [|s ws IH]; intros acc; simpl.
  - by rewrite app_nil_r.
  - by rewrite IH, fold_left_append, app_assoc.
Qed.

Lemma ui_tasks_snoc_go_live acc g s :
  type g = GoLive -> ui_tasks_for_site (acc ++ [g]) s = ui_tasks_for_site acc s.
Proof.
  intros Hg. unfold ui_tasks_for_site. rewrite filter_app, filter_cons.
  destruct (decide _) as [[_ Hty]|_]; [congruence|].
  by rewrite filter_nil, app_nil_r.
Qed.

Lemma append_go_live_tasks_map r e ws : forall acc,
  append_go_live_tasks r e ws acc = acc ++ map (go_live_task r e acc) ws.
Proof.
  unfold append_go_live_tasks. induction ws as [|s ws IH]; intros acc; simpl.
  - by rewrite app_nil_r.
  - rewrite IH, <- app_assoc. simpl. do 2 f_equal.
    apply map_ext. intros s'. unfold go_live_task.
    by rewrite ui_tasks_snoc_go_live.
Qed.

(** The comprehension of line 82 on the page tasks of one site. *)
Lemma ui_filter_own e s pages :
  map id (filter (fun t => website_id t = site_id s /\ type t = UI)
                 (flat_map (page_chain e s) pages))
  = map (fun p => page_task_id s p "UI") pages.
Proof.
  induction pages as [|p pages IH]; [done|].
  simpl. rewrite !filter_cons. simpl.
  repeat (destruct (decide _) as [[_ ?]|?]; [done|]).
  destruct (decide _) as [?|Hn]; [|exfalso; by apply Hn].
  simpl. by rewrite IH.
Qed.

Lemma ui_filter_other e s s' pages :
  site_id s' ≠ site_id s ->
  filter (fun t => website_id t = site_id s /\ type t = UI)
         (flat_map (page_chain e s') pages) = [].
Proof.
  intros Hne. induction pages as [|p pages IH]; [done|].
  simpl. rewrite !filter_cons. simpl.
  repeat (destruct (decide _) as [[? _]|_]; [done|]). done.
Qed.

Lemma ui_filter_absent e s ws :
  (forall s', s' ∈ ws -> site_id s' ≠ site_id s) ->
  filter (fun t => website_id t = site_id s /\ type t = UI)
    (flat_map (fun s => flat_map (page_chain e s) (seq 1 (site_pages s))) ws) = [].
Proof.
  induction ws as [|a ws IH]; intros Hne; [done|].
  simpl. rewrite filter_app, ui_filter_other by (apply Hne; left).
  apply IH. intros s' Hs'. apply Hne. by right.
Qed.

Lemma ui_tasks_of_site e s ws :
  NoDup (map site_id ws) -> s ∈ ws ->
  ui_tasks_for_site
    (flat_map (fun s => flat_map (page_chain e s) (seq 1 (site_pages s))) ws) s
  = map (fun p => page_task_id s p "UI") (seq 1 (site_pages s)).
Proof.
  unfold ui_tasks_for_site.
  induction ws as [|a ws IH]; intros Hnd Hin.
  - by apply elem_of_nil in Hin.
  - simpl in Hnd. apply NoDup_cons in Hnd as [Ha Hnd].
    simpl. rewrite filter_app, map_app.
    apply elem_of_cons in Hin as [->|Hin].
    + rewrite ui_filter_own, ui_filter_absent; [by rewrite app_nil_r|].
      intros s' Hs' Heq. apply Ha. rewrite <- Heq.
      apply list_elem_of_fmap. by exists s'.
    + rewrite ui_filter_other.
      * simpl. by apply IH.
      * intros Heq. apply Ha. rewrite Heq.
        apply list_elem_of_fmap. by exists s.
Qed.

Lemma go_live_effort_spec r e : go_live_effort r e = finalize_effort_spec r e.
Proof.
  unfold go_live_effort, finalize_effort_spec.
  destruct (decide _) as [->|Hn]; [done|].
  destruct (0 <? _)%nat eqn:H; [done|]. apply Nat.ltb_ge in H. lia.
Qed.

(** C7: for a project list with distinct ids, the plan builder emits, per
    project and per page from 1 to the page count, the chain Design, Content,
    WordPress, UI with each stage depending on the id of the one before, then
    one Go-Live task per project depending on exactly the UI task ids of that
    project's pages, with effort go_live / (WordPress + UI units), or [+inf]
    when there is no such unit. *)
Theorem build_tasks_meets_plan r ws e :
  NoDup (map site_id ws) ->
  build_tasks r ws e = plan_spec r ws e.
Proof.
  intros Hnd. unfold build_tasks, plan_spec.
  rewrite append_go_live_tasks_map, append_page_tasks_flat. simpl.
  f_equal. apply map_ext_in. intros s Hs. apply list_elem_of_In in Hs.
  unfold go_live_task, finalize_task_spec.
  by rewrite ui_tasks_of_site, go_live_effort_spec.
Qed.

Lemma build_tasks_meets_plan_witness :
  let ws := [website 0 2; website 1 1] in
  build_tasks one_each ws default_efforts = plan_spec one_each ws default_efforts.
Proof.
  intros ws. apply (build_tasks_meets_plan one_each ws default_efforts).
  apply (bool_decide_unpack (NoDup (map site_id ws))). vm_compute. exact I.
Defined.

End PlanBuilder.

(** ** Activation *)

Section Activation.

Lemma insert_by_sorted x l :
  StronglySorted (fun a b => site_id a <= site_id b)%nat l ->
  StronglySorted (fun a b => site_id a <= site_id b)%nat (insert_by site_le x l).
Proof.
  induction 1 as [|y l Hl IH Hy]; simpl.
  - repeat constructor.
  - unfold site_le at 1. destruct (site_id x <=? site_id y)%nat eqn:Hxy.
    + apply Nat.leb_le in Hxy. constructor; [by constructor|].
      constructor; [done|]. eapply Forall_impl; [exact Hy|]. intros z Hz. simpl in *. lia.
    + apply Nat.leb_gt in Hxy. constructor; [done|].
      rewrite insert_by_perm. constructor; [lia|done].
Qed.

Lemma stable_sort_sorted ws :
  StronglySorted (fun a b => site_id a <= site_id b)%nat (stable_sort site_le ws).
Proof.
  induction ws as [|x ws IH]; simpl; [constructor|by apply insert_by_sorted].
Qed.

(** [find] on a list sorted by id returns a match of least id. *)
Lemma find_sorted_least (P : site -> bool) l x :
  StronglySorted (fun a b => site_id a <= site_id b)%nat l ->
  find P l = Some x ->
  forall y, y ∈ l -> P y = true -> (site_id x <= site_id y)%nat.
Proof.
  induction 1 as [|a l Hl IH Ha]; simpl; [done|].
  destruct (P a) eqn:HPa.
  - intros [= <-] y Hy _. apply elem_of_cons in Hy as [->|Hy]; [done|].
    rewrite Forall_forall in Ha. by apply Ha.
  - intros Hf y Hy HPy. apply elem_of_cons in Hy as [->|Hy]; [congruence|].
    by apply IH.
Qed.




(** C3, on the code: three one-page projects, one unit per category.
    Project 0 retires first, at day 11, and project 2 is activated at day 11;
    its Design task is then bound with the designer's free-at mark as start,
    so the start recorded for project 2 is day 3, before day 11. *)
Theorem third_project_start_is_backdated :
  let ws := [website 0 1; website 1 1; website 2 1] in
  exists tasks s,
    run_loop one_each ws default_efforts = Returned tasks s /\
    website_end_times s !! 0%nat = Some (Fin 11) /\
    website_end_times s !! 1%nat = Some (Fin 13) /\
    website_start_times s !! 2%nat = Some (Fin 3) /\
    lt (Fin 3) (Fin 11) /\
    log_messages s =
      [ EvActivated (Fin 0) 0; EvStarted (Fin 0) 0 Design;
        EvActivated (Fin (1 # 2)) 1; EvStarted (Fin (3 # 2)) 1 Design;
        EvComplete (Fin 11) 0; EvActivated (Fin 11) 2;
        EvStarted (Fin 3) 2 Design; EvComplete (Fin 13) 1;
        EvComplete (Fin 20) 2 ].
Proof.
  intros ws. eexists _, _.
  split; [vm_compute; reflexivity|].
  split; [by vm_compute|]. split; [by vm_compute|]. split; [by vm_compute|].
  split; [by vm_compute|]. by vm_compute.
Qed.

End Activation.

(** * Further properties of the scheduling core *)

(** ** The ledger scan (lines 136-147) *)

Section LedgerScan.

Lemma lt_le_trans a b c : lt a b -> le b c -> lt a c.
Proof. destruct a, b, c; simpl; try tauto; lra. Qed.

Lemma le_lt_trans a b c : le a b -> lt b c -> lt a c.
Proof. destruct a, b, c; simpl; try tauto; lra. Qed.

Lemma ltb_false_iff a b : ltb a b = false <-> le b a.
Proof.
  split; [apply ltb_ge|].
  intros Hle. destruct (ltb a b) eqn:E; [|done].
  apply ltb_lt in E. destruct a, b; simpl in *; try tauto; lra.
Qed.

(** The accumulator of the scan only goes down, it ends at or below every
    candidate, and a cell is only chosen when it is strictly better than the
    accumulator and than every cell before it. *)
Lemma scan_pool_least pool dep : forall i e a e' a',
  scan_pool i pool dep e a = (e', a') ->
  le e' e /\
  (forall k f, pool !! k = Some f -> le e' (max f dep)) /\
  ((e' = e /\ a' = a) \/
   exists k f, a' = Some (i + k)%nat /\ pool !! k = Some f /\ e' = max f dep /\
     lt e' e /\
     forall k' f', (k' < k)%nat -> pool !! k' = Some f' -> lt e' (max f' dep)).
Proof.
  induction pool as [|f pool IH]; intros i e a e' a' H; simpl in H.
  - inversion H; subst. split_and!; [apply le_refl|done|by left].
  - destruct (ltb (max f dep) e) eqn:Hlt.
    + apply ltb_lt in Hlt.
      destruct (IH _ _ _ _ _ H) as (Hle & Hall & Hcase).
      split_and!.
      * eapply le_trans; [exact Hle|by apply lt_le].
      * intros [|k] f' Hk; simpl in Hk; [by simplify_eq|by eapply Hall].
      * right. destruct Hcase as [[-> ->]|(k & f' & -> & Hk & -> & Hbetter & Hfirst)].
        -- exists 0%nat, f. rewrite Nat.add_0_r. split_and!; try done.
           intros k' f' Hk'. lia.
        -- exists (S k), f'. split_and!; try done.
           ++ f_equal. lia.
           ++ by eapply lt_le_trans; [|apply lt_le].
           ++ intros [|k'] f'' Hk' Hf''; simpl in Hf''.
              ** by simplify_eq.
              ** eapply Hfirst; [|done]. lia.
    + apply ltb_false_iff in Hlt.
      destruct (IH _ _ _ _ _ H) as (Hle & Hall & Hcase).
      split_and!; [done| |].
      * intros [|k] f' Hk; simpl in Hk; [|by eapply Hall].
        simplify_eq. by eapply le_trans.
      * destruct Hcase as [[-> ->]|(k & f' & -> & Hk & -> & Hbetter & Hfirst)];
          [by left|].
        right. exists (S k), f'. split_and!; try done.
        -- f_equal. lia.
        -- intros [|k'] f'' Hk' Hf''; simpl in Hf''.
           ++ simplify_eq. by eapply lt_le_trans.
           ++ eapply Hfirst; [|done]. lia.
Qed.

(** X1: the scan of a pool returns the unit whose [max(free_day, dep_end)]
    is smallest, the lowest index among equals; it returns no unit exactly
    when no cell offers a finite start, in particular on an empty pool. *)
Theorem scan_pool_earliest_unit pool dep :
  match scan_pool 0 pool dep Inf None with
  | (e, Some r) =>
      exists f, pool !! r = Some f /\ e = max f dep /\ lt e Inf /\
        (forall k f', pool !! k = Some f' -> le e (max f' dep)) /\
        (forall k f', (k < r)%nat -> pool !! k = Some f' -> lt e (max f' dep))
  | (e, None) =>
      e = Inf /\ forall k f, pool !! k = Some f -> max f dep = Inf
  end.
Proof.
  destruct (scan_pool 0 pool dep Inf None) as [e a] eqn:H.
  destruct (scan_pool_least _ _ _ _ _ _ _ H) as (_ & Hall & Hcase).
  destruct Hcase as [[-> ->]|(k & f & -> & Hk & -> & Hbetter & Hfirst)].
  - split; [done|]. intros k f Hk. specialize (Hall k f Hk).
    by destruct (max f dep).
  - exists f. by split_and!.
Qed.

End LedgerScan.

(** ** Induction principles for the two scans *)

Section ScanInduction.

(** A state invariant [P] and a per-task relation [R] that every single
    binding step establishes hold for the whole ready-task scan. *)
Lemma bind_all_joint (P : sim -> Prop) (R : task -> task -> Prop) ts :
  (forall t s, t ∈ ts -> P s ->
     P (snd (bind_task t s)) /\ R t (fst (bind_task t s))) ->
  forall s, P s ->
    P (snd (bind_all ts s)) /\ Forall2 R ts (fst (bind_all ts s)).
Proof.
  induction ts as [|t ts IH]; intros Hstep s Hs; simpl; [by split|].
  destruct (Hstep t s (list_elem_of_here _ _) Hs) as [Hs1 Ht].
  destruct (bind_task t s) as [t1 s1]. simpl in *.
  destruct (IH (fun t0 s0 Hin => Hstep t0 s0 (list_elem_of_further _ _ _ Hin)) s1 Hs1)
    as [Hs2 HF].
  destruct (bind_all ts s1) as [rest s2]. simpl in *.
  split; [done|by constructor].
Qed.

Lemma retire_all_joint (P : sim -> Prop) (R : task -> task -> Prop) ts :
  (forall t s t' s', t ∈ ts -> P s -> retire_task t s = Some (t', s') ->
     P s' /\ R t t') ->
  forall s ts' s', P s -> retire_all ts s = Some (ts', s') ->
    P s' /\ Forall2 R ts ts'.
Proof.
  induction ts as [|t ts IH]; intros Hstep s ts' s' Hs H; simpl in H.
  - inversion H; subst. by split.
  - destruct (retire_task t s) as [[t1 s1]|] eqn:Ht; [|done].
    destruct (retire_all ts s1) as [[rest s2]|] eqn:Hrest; [|done].
    inversion H; subst; clear H.
    destruct (Hstep t s t1 s1 (list_elem_of_here _ _) Hs Ht) as [Hs1 HR].
    destruct (IH (fun t0 s0 t0' s0' Hin => Hstep t0 s0 t0' s0' (list_elem_of_further _ _ _ Hin))
                 s1 rest s' Hs1 Hrest) as [Hs2 HF].
    split; [done|by constructor].
Qed.

(** A pass preserves a property of the configuration that survives the
    sort and can be pushed through both scans. *)
Lemma tick_shape ws ts s ts3 s3 :
  tick ws (ts, s) = Some (ts3, s3) ->
  exists ts2 s2,
    bind_all (stable_sort task_le ts) (activate ws s) = (ts2, s2) /\
    Forall2 (binds (activate ws s)) (stable_sort task_le ts) ts2 /\
    retire_all ts2 (advance s2) = Some (ts3, s3) /\
    Forall2 retires ts2 ts3.
Proof.
  intros H. apply tick_inv in H as (ts2 & s2 & Hb & Hr).
  exists ts2, s2. split_and!; try done.
  - by eapply bind_all_Forall2.
  - by eapply retire_all_Forall2.
Qed.

End ScanInduction.

(** ** The ledger over a run (lines 62-67 and 177-184) *)

Section LedgerOverRun.

Lemma marks_le_refl l : marks_le l l.
Proof. intros u f Hf. exists f. split; [done|apply le_refl]. Qed.

Lemma marks_le_trans l1 l2 l3 : marks_le l1 l2 -> marks_le l2 l3 -> marks_le l1 l3.
Proof.
  intros H12 H23 u f Hf.
  destruct (H12 u f Hf) as (f2 & Hf2 & Hle2).
  destruct (H23 u f2 Hf2) as (f3 & Hf3 & Hle3).
  exists f3. split; [done|by eapply le_trans].
Qed.

Lemma write_unit_shape r l u v :
  ledger_shape r l -> ledger_shape r (write_unit l u v).
Proof.
  intros (H1 & H2 & H3 & H4). unfold ledger_shape, write_unit.
  destruct (fst u); simpl; by rewrite ?length_insert.
Qed.

Lemma bind_task_marks t s :
  le zero (effort t) ->
  marks_le (resource_free_on_day s) (resource_free_on_day (snd (bind_task t s))).
Proof.
  intros Heff.
  destruct (bind_task_cases t s)
    as [->|(start & r & f & _ & _ & _ & Hpool & Hstart & _ & ->)];
    [apply marks_le_refl|].
  simpl. unfold commit. set (u := unit_of (resource_free_on_day s) (type t) r).
  apply cell_unit_of in Hpool. fold u in Hpool.
  intros u' f' Hf'. destruct (decide (u' = u)) as [->|Hne].
  - erewrite cell_write_same by done. eexists. split; [done|].
    replace f' with f by congruence.
    eapply le_trans; [|by apply le_add]. subst start. apply le_max_l.
  - rewrite cell_write_other by done. exists f'. split; [done|apply le_refl].
Qed.

Lemma bind_task_shape r t s :
  ledger_shape r (resource_free_on_day s) ->
  ledger_shape r (resource_free_on_day (snd (bind_task t s))).
Proof.
  intros Hs.
  destruct (bind_task_cases t s)
    as [->|(start & rr & f & _ & _ & _ & _ & _ & _ & ->)]; [done|].
  simpl. by apply write_unit_shape.
Qed.

Lemma ledger_pass r ws c c' :
  tick ws c = Some c' ->
  (forall t, t ∈ fst c -> le zero (effort t)) ->
  marks_le (resource_free_on_day (snd c)) (resource_free_on_day (snd c')) /\
  (ledger_shape r (resource_free_on_day (snd c)) ->
   ledger_shape r (resource_free_on_day (snd c'))).
Proof.
  destruct c as [ts s], c' as [ts3 s3]. intros Htick Heff.
  apply tick_inv in Htick as (ts2 & s2 & Hbind & Hret).
  apply retire_all_frame in Hret as (Hl & _). simpl in *. rewrite Hl.
  pose proof (activate_frame ws s) as (Hla & _).
  replace s2 with (snd (bind_all (stable_sort task_le ts) (activate ws s)))
    by by rewrite Hbind.
  split.
  - apply (bind_all_sim_inv
             (fun s0 => marks_le (resource_free_on_day s) (resource_free_on_day s0))).
    + intros t s0 Hin H0. eapply marks_le_trans; [exact H0|].
      apply bind_task_marks, Heff. by apply stable_sort_elem in Hin.
    + rewrite Hla. apply marks_le_refl.
  - intros Hshape.
    apply (bind_all_sim_inv (fun s0 => ledger_shape r (resource_free_on_day s0))).
    + intros t s0 _. apply bind_task_shape.
    + by rewrite Hla.
Qed.

Lemma ledger_reachable r ws c c' :
  reachable ws c c' ->
  (forall t, t ∈ fst c -> le zero (effort t)) ->
  (forall t, t ∈ fst c' -> le zero (effort t)) /\
  marks_le (resource_free_on_day (snd c)) (resource_free_on_day (snd c')) /\
  (ledger_shape r (resource_free_on_day (snd c)) ->
   ledger_shape r (resource_free_on_day (snd c'))).
Proof.
  induction 1 as [|c1 c2 _ IH _ _ Htick]; intros Heff.
  - split_and!; [done|apply marks_le_refl|done].
  - destruct (IH Heff) as (Heff1 & Hm & Hs).
    destruct (ledger_pass r _ _ _ Htick Heff1) as [Hm2 Hs2].
    split_and!; [by eapply efforts_pass|by eapply marks_le_trans|auto].
Qed.

Lemma init_shape r ws e :
  ledger_shape r (resource_free_on_day (snd (init r ws e))).
Proof. unfold ledger_shape. simpl. by rewrite !length_replicate. Qed.

(** X2: with non-negative efforts, the ledger keeps one mark per configured
    unit throughout the run, and no mark ever moves back: between a
    configuration and any later one every mark is the same or later. *)
Theorem free_marks_never_decrease r ws e c c' :
  nonneg_efforts e ->
  visited r ws e c -> reachable ws c c' ->
  ledger_shape r (resource_free_on_day (snd c')) /\
  marks_le (resource_free_on_day (snd c)) (resource_free_on_day (snd c')).
Proof.
  intros He Hv Hr.
  destruct (ledger_reachable r _ _ _ Hv) as (Heff & _ & Hshape).
  { intros t. by apply build_tasks_efforts. }
  destruct (ledger_reachable r _ _ _ Hr Heff) as (_ & Hm & Hshape').
  split; [|done]. apply Hshape', Hshape, init_shape.
Qed.

End LedgerOverRun.

(** The designer's mark of the sample project moves from 0 to 1.5 in the
    first pass. *)
Lemma free_marks_never_decrease_witness :
  let ws := [website 0 1] in
  let c := init one_each ws default_efforts in
  let c' := default c (passes 1 ws c) in
  (cell (resource_free_on_day (snd c)) (Design, 0%nat) = Some (Fin 0) /\
   cell (resource_free_on_day (snd c')) (Design, 0%nat) = Some (Fin (3 # 2))) /\
  ledger_shape one_each (resource_free_on_day (snd c')) /\
  marks_le (resource_free_on_day (snd c)) (resource_free_on_day (snd c')).
Proof.
  intros ws c c'. split; [split; vm_compute; reflexivity|].
  apply (free_marks_never_decrease one_each ws default_efforts c c').
  - unfold nonneg_efforts. simpl. lra.
  - apply reach_start.
  - apply (passes_reachable 1 ws c c c'); [apply reach_start|].
    vm_compute. reflexivity.
Defined.

(** ** No infinite day is ever recorded *)

Section FiniteTimes.

Context (r : resources).

Lemma max_finite a b : finite a -> finite b -> finite (max a b).
Proof. intros Ha Hb. unfold max. by destruct (ltb a b). Qed.

Lemma add_finite a b : finite a -> finite b -> finite (add a b).
Proof. intros [x ->] [y ->]. simpl. by eexists. Qed.

Lemma max_list_finite fs : forall f,
  finite f -> Forall finite fs -> finite (max_list f fs).
Proof.
  unfold max_list. induction fs as [|x fs IH]; intros f Hf Hfs; simpl; [done|].
  inversion Hfs; subst. apply IH; [by apply max_finite|done].
Qed.

Lemma dep_end_day_finite (done_at : gmap string time) dep :
  (forall d f, done_at !! d = Some f -> finite f) ->
  finite (dep_end_day done_at dep).
Proof.
  intros Hfin. destruct dep as [|d|ds]; simpl.
  - by exists 0.
  - destruct (done_at !! d) eqn:E; [by eapply Hfin|by exists 0].
  - assert (Forall finite (map (fun dep => default zero (done_at !! dep)) ds)) as HF.
    { apply Forall_forall. intros f Hf. apply list_elem_of_fmap in Hf as (d & -> & _).
      destruct (done_at !! d) eqn:E; simpl; [by eapply Hfin|by exists 0]. }
    destruct (map _ ds) as [|f fs]; [by exists 0|].
    inversion HF; subst. by apply max_list_finite.
Qed.

Lemma finite_bind_step t s :
  effort_ok r t -> bound_finite t -> stores_finite r s ->
  stores_finite r (snd (bind_task t s)) /\ bound_finite (fst (bind_task t s)).
Proof.
  intros Heff Hbt Hs.
  destruct (bind_task_cases t s)
    as [->|(start & k & f & _ & _ & _ & Hpool & Hstart & _ & ->)]; [done|].
  destruct Hs as (Hshape & Hcells & Hdone & Hstarts & Hends & Hrows).
  assert (finite (effort t)) as Hfe.
  { destruct Heff as [?|[Hty Hzero]]; [done|]. exfalso.
    destruct Hshape as (_ & _ & Hw & Hu). rewrite Hty in Hpool. simpl in Hpool.
    apply lookup_lt_Some in Hpool. rewrite length_app in Hpool. lia. }
  apply cell_unit_of in Hpool.
  assert (finite start) as Hfs.
  { subst start. apply max_finite; [by eapply Hcells|by apply dep_end_day_finite]. }
  assert (finite (add start (effort t))) as Hfend by by apply add_finite.
  simpl. split; [|done].
  split_and!; simpl.
  - by apply write_unit_shape.
  - intros u f' Hf'. unfold commit in Hf'.
    destruct (decide (u = unit_of (resource_free_on_day s) (type t) k)) as [->|Hne].
    + erewrite cell_write_same in Hf' by done. by simplify_eq.
    + rewrite cell_write_other in Hf' by done. by eapply Hcells.
  - done.
  - intros i f'. case_bool_decide; [|by apply Hstarts].
    intros [[_ <-]|[_ ?]]%lookup_insert_Some; [done|by eapply Hstarts].
  - done.
  - intros row [Hrow|Hrow]%elem_of_app; [by apply Hrows|].
    apply list_elem_of_singleton in Hrow. by subst row.
Qed.

Lemma finite_retire_step t s t' s' :
  bound_finite t -> stores_finite r s ->
  retire_task t s = Some (t', s') ->
  stores_finite r s' /\ bound_finite t'.
Proof.
  intros Hbt Hs Hret.
  destruct Hs as (Hshape & Hcells & Hdone & Hstarts & Hends & Hrows).
  destruct (retire_task_cases t s)
    as [E|[(Hst & _ & E)|[(Hst & _ & _ & E)|(_ & _ & _ & E)]]];
    rewrite E in Hret; inversion Hret; subst; clear Hret.
  - by split.
  - assert (finite (start_day t) /\ finite (end_day t)) as [Hfs Hfe]
      by (apply Hbt; congruence).
    split; [|by intros _].
    split_and!; simpl; try done.
    intros d f [[_ <-]|[_ ?]]%lookup_insert_Some; [done|by eapply Hdone].
  - assert (finite (start_day t) /\ finite (end_day t)) as [Hfs Hfe]
      by (apply Hbt; congruence).
    split; [|by intros _].
    split_and!; simpl; try done.
    + intros d f [[_ <-]|[_ ?]]%lookup_insert_Some; [done|by eapply Hdone].
    + intros i f [[_ <-]|[_ ?]]%lookup_insert_Some; [done|by eapply Hends].
Qed.

Lemma finite_pass ws c c' :
  tick ws c = Some c' ->
  Forall (effort_ok r) (fst c) -> Forall bound_finite (fst c) -> stores_finite r (snd c) ->
  Forall (effort_ok r) (fst c') /\ Forall bound_finite (fst c') /\ stores_finite r (snd c').
Proof.
  destruct c as [ts s], c' as [ts3 s3]. intros Htick Heff Hbf Hs. simpl in *.
  apply tick_inv in Htick as (ts2 & s2 & Hbind & Hret).
  assert (Forall (effort_ok r) (stable_sort task_le ts)) as Heff1
    by by rewrite stable_sort_perm.
  assert (Forall bound_finite (stable_sort task_le ts)) as Hbf1
    by by rewrite stable_sort_perm.
  assert (stores_finite r (activate ws s)) as Hsa.
  { pose proof (activate_frame ws s) as (Hl & Hc & He & _ & Hg).
    destruct Hs as (? & ? & ? & Hst & ? & ?).
    unfold stores_finite. rewrite Hl, Hc, He, Hg. split_and!; try done.
    unfold activate. case_bool_decide; [|done]. by destruct (find _ _). }
  rewrite Forall_forall in Heff1. rewrite Forall_forall in Hbf1.
  destruct (bind_all_joint (stores_finite r)
              (fun t t' => effort_ok r t' /\ bound_finite t')
              (stable_sort task_le ts)) with (s := activate ws s) as [Hs2 HF2].
  { intros t s0 Hin Hs0.
    destruct (finite_bind_step t s0 (Heff1 t Hin) (Hbf1 t Hin) Hs0) as [? ?].
    split_and!; try done.
    destruct (bind_task_cases t s0)
      as [->|(start & k & f & _ & _ & _ & _ & _ & _ & ->)]; exact (Heff1 t Hin). }
  { done. }
  rewrite Hbind in Hs2, HF2. simpl in Hs2, HF2.
  assert (forall t, t ∈ ts2 -> effort_ok r t /\ bound_finite t) as H2.
  { intros t Ht. by destruct (Forall2_elem_r _ _ _ _ HF2 Ht) as (? & _ & ?). }
  destruct (retire_all_joint (stores_finite r)
              (fun t t' => effort_ok r t' /\ bound_finite t') ts2)
    with (s := advance s2) (ts' := ts3) (s' := s3) as [Hs3 HF3]; try done.
  { intros t s0 t' s0' Hin Hs0 Hstep.
    destruct (H2 t Hin) as [He Hb].
    destruct (finite_retire_step _ _ _ _ Hb Hs0 Hstep) as [? ?].
    split_and!; try done.
    destruct (retire_task_cases t s0)
      as [E|[(_ & _ & E)|[(_ & _ & _ & E)|(_ & _ & _ & E)]]];
      rewrite E in Hstep; inversion Hstep; subst; exact He. }
  split_and!; [| |done]; apply Forall_forall; intros t Ht;
    by destruct (Forall2_elem_r _ _ _ _ HF3 Ht) as (? & _ & ? & ?).
Qed.

Lemma finite_reachable ws c0 c :
  reachable ws c0 c ->
  Forall (effort_ok r) (fst c0) -> Forall bound_finite (fst c0) -> stores_finite r (snd c0) ->
  Forall (effort_ok r) (fst c) /\ Forall bound_finite (fst c) /\ stores_finite r (snd c).
Proof.
  induction 1 as [|c c' _ IH _ _ Htick]; intros H1 H2 H3; [done|].
  destruct (IH H1 H2 H3) as (? & ? & ?). by eapply finite_pass.
Qed.

Lemma finite_init ws e :
  Forall (effort_ok r) (fst (init r ws e)) /\
  Forall bound_finite (fst (init r ws e)) /\
  stores_finite r (snd (init r ws e)).
Proof.
  split_and!.
  - apply Forall_forall. apply build_tasks_Forall.
    + intros s p t Ht. left. unfold page_chain in Ht.
      repeat (apply elem_of_cons in Ht as [->|Ht]; [by eexists|]).
      by apply elem_of_nil in Ht.
    + intros acc s. unfold effort_ok. simpl. unfold go_live_effort.
      destruct (0 <? _)%nat eqn:E; [left; by eexists|].
      right. apply Nat.ltb_ge in E. split; [done|lia].
  - apply Forall_forall.
    apply (build_tasks_Forall (fun t => bound_finite t)).
    + intros s p t Ht. unfold page_chain in Ht.
      repeat (apply elem_of_cons in Ht as [->|Ht]; [by intros ?|]).
      by apply elem_of_nil in Ht.
    + by intros acc s ?.
  - split_and!; simpl; try done.
    + apply init_shape with (ws := ws) (e := e).
    + intros [ty i] f. unfold cell. simpl.
      destruct ty; simpl; try done;
        intros [-> _]%lookup_replicate; by exists 0.
    + intros row Hrow. by apply elem_of_nil in Hrow.
Qed.

(** X3: every time the run records is a number: no free-at mark, no
    completed-task entry, no start or finish of a bound task, no project start
    or end time and no Gantt row is ever [inf], whatever the inputs.  A Go-Live
    task of infinite effort is never bound. *)
Theorem recorded_times_are_finite ws e c :
  visited r ws e c -> times_finite c.
Proof.
  intros Hv.
  destruct (finite_init ws e) as (H1 & H2 & H3).
  destruct (finite_reachable _ _ _ Hv H1 H2 H3) as (_ & Hb & Hs).
  destruct Hs as (_ & ? & ? & ? & ? & ?).
  unfold times_finite. split_and!; try done.
  rewrite Forall_forall in Hb. intros t Ht. by apply Hb.
Qed.

End FiniteTimes.

(** The run without WordPress and UI units, where Go-Live has infinite
    effort, after five passes: the Design and Content tasks are bound with
    finite times. *)
Lemma recorded_times_are_finite_witness :
  let r := {| n_design := 1; n_content := 1; n_wordpress := 0; n_ui := 0 |} in
  let ws := [website 0 1] in
  let c := default (init r ws default_efforts)
             (passes 5 ws (init r ws default_efforts)) in
  (go_live_effort r default_efforts = Inf /\ length (gantt_tasks (snd c)) = 2%nat) /\
  times_finite c.
Proof.
  intros r ws c. split; [split; vm_compute; reflexivity|].
  apply (recorded_times_are_finite r ws default_efforts c).
  apply (passes_visited 5). vm_compute. reflexivity.
Defined.

(** ** What a returned run means (lines 95-98 and 188-198) *)

Section ReturnedRun.

Lemma main_loop_returned_cases ws fuel : forall c0 c tasks s,
  reachable ws c0 c ->
  main_loop fuel ws c = Returned tasks s ->
  exists c', reachable ws c0 c' /\ fst c' = tasks /\
    ((s = snd c' /\ ~ unfinished c') \/
     (s = timed_out (snd c') /\ unfinished c' /\ ~ within_bound c')).
Proof.
  induction fuel as [|fuel IH]; intros c0 c tasks s Hr; simpl.
  - case_bool_decide as Hun.
    + destruct (Qle_bool _ _) eqn:Hle; simpl; [done|].
      intros [= <- <-]. exists c. split_and!; try done. right. split_and!; try done.
      unfold within_bound. rewrite <- Qle_bool_iff. congruence.
    + intros [= <- <-]. exists c. split_and!; try done. by left.
  - case_bool_decide as Hun.
    + destruct (Qle_bool _ _) eqn:Hle; simpl.
      * apply Qle_bool_iff in Hle.
        destruct (tick ws c) as [c1|] eqn:Ht; [|done].
        apply IH. by eapply reach_pass.
      * intros [= <- <-]. exists c. split_and!; try done. right. split_and!; try done.
        unfold within_bound. rewrite <- Qle_bool_iff. congruence.
    + intros [= <- <-]. exists c. split_and!; try done. by left.
Qed.

(** The retirement scan adds at most one key to [completed_tasks] per task
    it completes. *)
Lemma retire_all_count ts : forall s ts' s',
  retire_all ts s = Some (ts', s') ->
  (size (completed_tasks s') + complete_count ts
     <= size (completed_tasks s) + complete_count ts')%nat.
Proof.
  unfold complete_count.
  induction ts as [|t ts IH]; intros s ts' s' H; simpl in H.
  - by inversion H; subst.
  - destruct (retire_task t s) as [[t1 s1]|] eqn:Ht; [|done].
    destruct (retire_all ts s1) as [[rest s2]|] eqn:Hrest; [|done].
    inversion H; subst; clear H. specialize (IH _ _ _ Hrest).
    rewrite !filter_cons.
    assert ((t1 = t /\ completed_tasks s1 = completed_tasks s) \/
            (status t = inprogress /\ t1 = completed t /\
             completed_tasks s1 = <[id t := end_day t]> (completed_tasks s)))
      as [[-> E]|(Hst & -> & E)].
    { destruct (retire_task_cases t s)
        as [E|[(? & ? & E)|[(? & ? & ? & E)|(? & ? & ? & E)]]];
        rewrite E in Ht; inversion Ht; subst; auto. }
    + rewrite E in IH. destruct (decide (status t = complete)); simpl; lia.
    + rewrite E in IH. simpl.
      destruct (decide (status t = complete)); [congruence|].
      destruct (decide (complete = complete)); [|done]. simpl.
      destruct (completed_tasks s !! id t) as [f|] eqn:Hlook.
      * rewrite map_size_insert_Some in IH by by eexists. lia.
      * rewrite map_size_insert_None in IH by done. lia.
Qed.

Lemma count_pass ws c c' :
  tick ws c = Some c' ->
  (size (completed_tasks (snd c)) <= complete_count (fst c))%nat ->
  (size (completed_tasks (snd c')) <= complete_count (fst c'))%nat.
Proof.
  destruct c as [ts s], c' as [ts3 s3]. intros Htick Hsz. simpl in *.
  apply tick_shape in Htick as (ts2 & s2 & Hbind & HB & Hret & HR).
  apply retire_all_count in Hret. simpl in Hret.
  pose proof (bind_all_frame (stable_sort task_le ts) (activate ws s)) as (Hcb & _).
  rewrite Hbind in Hcb. simpl in Hcb.
  pose proof (activate_frame ws s) as (_ & Hca & _).
  assert (complete_count ts2 = complete_count ts) as Hcount.
  { unfold complete_count.
    rewrite <- (filter_length_Forall2 _ _ _ _ HB).
    - by rewrite stable_sort_perm.
    - intros x y [->|(Hp & _ & _ & st & -> & _)]; [done|]. simpl.
      split; congruence. }
  rewrite Hcb, Hca in Hret. lia.
Qed.

Lemma no_timeout_pass ws c c' :
  tick ws c = Some c' ->
  EvTimeout ∉ log_messages (snd c) -> EvTimeout ∉ log_messages (snd c').
Proof.
  destruct c as [ts s], c' as [ts3 s3]. intros Htick Hlog. simpl in *.
  apply tick_inv in Htick as (ts2 & s2 & Hbind & Hret).
  set (P := fun s0 : sim => EvTimeout ∉ log_messages s0).
  assert (P (activate ws s)) as Ha.
  { destruct (activate_cases ws s) as [->|(x & _ & _ & _ & _ & _ & _ & _ & Hl)]; [done|].
    unfold P. rewrite Hl. intros [?|Hin]%elem_of_app; [done|].
    by apply list_elem_of_singleton in Hin. }
  assert (P s2) as H2.
  { replace s2 with (snd (bind_all (stable_sort task_le ts) (activate ws s)))
      by by rewrite Hbind.
    apply (bind_all_sim_inv P); [|done].
    intros t s0 _ H0.
    destruct (bind_task_cases t s0)
      as [->|(start & k & f & _ & _ & _ & _ & _ & _ & ->)]; [done|].
    unfold P. simpl. case_bool_decide; [|done].
    intros [?|Hin]%elem_of_app; [done|]. by apply list_elem_of_singleton in Hin. }
  destruct (retire_all_joint P (fun _ _ => True) ts2) with
    (s := advance s2) (ts' := ts3) (s' := s3); try done.
  intros t s0 t' s0' _ H0 Hstep. split; [|done].
  destruct (retire_task_cases t s0)
    as [E|[(_ & _ & E)|[(_ & _ & _ & E)|(_ & _ & _ & E)]]];
    rewrite E in Hstep; inversion Hstep; subst; try done.
  unfold P. simpl. intros [?|Hin]%elem_of_app; [done|].
  by apply list_elem_of_singleton in Hin.
Qed.

(** A Go-Live task completed by the retirement scan has its site's end time
    in the map the scan returns. *)
Lemma retire_all_go_live ts : forall s ts' s',
  retire_all ts s = Some (ts', s') ->
  Forall2 (fun t t' => t' = t \/
             (status t = inprogress /\ t' = completed t /\
              (type t = GoLive -> is_Some (website_end_times s' !! website_id t))))
          ts ts'.
Proof.
  induction ts as [|t ts IH]; intros s ts' s' H; simpl in H.
  - inversion H; subst. constructor.
  - destruct (retire_task t s) as [[t1 s1]|] eqn:Ht; [|done].
    destruct (retire_all ts s1) as [[rest s2]|] eqn:Hrest; [|done].
    inversion H; subst; clear H. constructor; [|by eapply IH].
    destruct (retire_task_cases t s)
      as [E|[(Hst & Hty & E)|[(Hst & Hty & _ & E)|(_ & _ & _ & E)]]];
      rewrite E in Ht; inversion Ht; subst; clear Ht.
    + by left.
    + right. by split_and!.
    + right. split_and!; try done. intros _.
      eapply ends_retire_all; [exact Hrest|]. simpl.
      rewrite lookup_insert_eq. by eexists.
Qed.

(** Invariant: the end time of every completed Go-Live task is recorded, and
    every project has a Go-Live task. *)
Lemma go_live_pass ws c c' :
  tick ws c = Some c' ->
  (forall t, t ∈ fst c -> type t = GoLive -> status t = complete ->
     is_Some (website_end_times (snd c) !! website_id t)) ->
  (forall x, x ∈ ws -> exists t, t ∈ fst c /\ type t = GoLive /\
     website_id t = site_id x) ->
  (forall t, t ∈ fst c' -> type t = GoLive -> status t = complete ->
     is_Some (website_end_times (snd c') !! website_id t)) /\
  (forall x, x ∈ ws -> exists t, t ∈ fst c' /\ type t = GoLive /\
     website_id t = site_id x).
Proof.
  intros Htick Hrec Hgo.
  pose proof (fun i => ends_pass ws _ _ i Htick) as Hmono.
  destruct c as [ts s], c' as [ts3 s3]. simpl in *.
  apply tick_shape in Htick as (ts2 & s2 & Hbind & HB & Hret & HR).
  pose proof (retire_all_go_live _ _ _ _ Hret) as HG. simpl in HG.
  split.
  - intros t3 Hin3 Hty Hst.
    destruct (Forall2_elem_r _ _ _ _ HG Hin3) as (t2 & Hin2 & Hr).
    destruct (Forall2_elem_r _ _ _ _ HB Hin2) as (t1 & Hin1 & Hb).
    apply stable_sort_elem in Hin1.
    destruct Hr as [->|(Hip & -> & Hnew)]; [|by apply Hnew].
    destruct Hb as [->|(_ & _ & _ & start & -> & _)]; [|done].
    by apply Hmono, Hrec.
  - intros x Hx. destruct (Hgo x Hx) as (t1 & Hin1 & Hty & Hid).
    apply (stable_sort_elem task_le) in Hin1.
    destruct (Forall2_elem_l _ _ _ _ HB Hin1) as (t2 & Hin2 & Hb).
    destruct (Forall2_elem_l _ _ _ _ HR Hin2) as (t3 & Hin3 & Hr).
    exists t3. split; [done|].
    assert (type t2 = type t1 /\ website_id t2 = website_id t1) as [E1 E2].
    { destruct Hb as [->|(_ & _ & _ & start & -> & _)]; done. }
    assert (type t3 = type t2 /\ website_id t3 = website_id t2) as [E3 E4].
    { destruct Hr as [->|[_ ->]]; done. }
    split; congruence.
Qed.

Lemma returned_invariants r ws e c :
  visited r ws e c ->
  (size (completed_tasks (snd c)) <= complete_count (fst c))%nat /\
  (EvTimeout ∉ log_messages (snd c)) /\
  (forall t, t ∈ fst c -> type t = GoLive -> status t = complete ->
     is_Some (website_end_times (snd c) !! website_id t)) /\
  (forall x, x ∈ ws -> exists t, t ∈ fst c /\ type t = GoLive /\
     website_id t = site_id x).
Proof.
  induction 1 as [|c c' _ IH _ _ Htick].
  - split_and!.
    + simpl. rewrite map_size_empty. lia.
    + simpl. apply not_elem_of_nil.
    + intros t Ht _ Hst. destruct (precedence_init r ws e) as [_ Hp].
      apply Hp in Ht. congruence.
    + intros x Hx. simpl. unfold build_tasks. rewrite append_go_live_tasks_map.
      eexists. split.
      * apply elem_of_app. right. apply list_elem_of_fmap. by exists x.
      * done.
  - destruct IH as (H1 & H2 & H3 & H4).
    destruct (go_live_pass _ _ _ Htick H3 H4).
    split_and!; try done; [by eapply count_pass|by eapply no_timeout_pass].
Qed.

(** X4: a run that returns either went through the timeout branch, and then
    the timeout line is the last line of the log and occurs once, the clock is
    beyond 1000 and [completed_tasks] is still short; or it has no timeout
    line at all, and then every task is complete and every project of the
    input has a recorded end time. *)
Theorem returned_run_is_complete_or_timed_out r ws e tasks s :
  run_loop r ws e = Returned tasks s ->
  ((EvTimeout ∉ log_messages s) /\
   (forall t, t ∈ tasks -> status t = complete) /\
   (forall x, x ∈ ws -> is_Some (website_end_times s !! site_id x)))
  \/
  (exists s0, s = timed_out s0 /\ (EvTimeout ∉ log_messages s0) /\
     1000 < current_day s0 /\
     (size (completed_tasks s0) < length tasks)%nat).
Proof.
  intros Hrun.
  destruct (main_loop_returned_cases ws max_passes (init r ws e) (init r ws e) tasks s)
    as (c & Hv & <- & Hcase); [apply reach_start|done|].
  destruct (returned_invariants r ws e c Hv) as (Hsz & Hlog & Hrec & Hgo).
  destruct Hcase as [[-> Hfin]|(-> & Hun & Hout)].
  - left. unfold unfinished in Hfin.
    assert (forall t, t ∈ fst c -> status t = complete) as Hall.
    { intros t Ht. destruct (decide (status t = complete)) as [|Hne]; [done|].
      pose proof (length_filter_lt (fun t => status t = complete) _ _ Ht Hne).
      unfold complete_count in Hsz. lia. }
    split_and!; try done.
    intros x Hx. destruct (Hgo x Hx) as (t & Ht & Hty & <-).
    apply Hrec; auto.
  - right. exists (snd c). split_and!; try done.
    unfold within_bound in Hout. by apply Qnot_le_lt.
Qed.

End ReturnedRun.

Lemma returned_run_is_complete_or_timed_out_witness :
  let ws := [website 0 1] in
  let o := run_loop one_each ws default_efforts in
  match o with
  | Returned tasks s =>
      ((EvTimeout ∉ log_messages s) /\
       (forall t, t ∈ tasks -> status t = complete) /\
       (forall x, x ∈ ws -> is_Some (website_end_times s !! site_id x)))
      \/
      (exists s0, s = timed_out s0 /\ (EvTimeout ∉ log_messages s0) /\
         1000 < current_day s0 /\
         (size (completed_tasks s0) < length tasks)%nat)
  | _ => False
  end.
Proof.
  intros ws o.
  destruct o as [tasks s| |] eqn:Ho; [|by vm_compute in Ho..].
  apply (returned_run_is_complete_or_timed_out one_each ws default_efforts tasks s).
  exact Ho.
Defined.

(** ** Project start and end times (lines 172-175 and 192-196) *)

Section ProjectTimes.

Variable ws : list site.

(** The set of sites whose first start was logged is the key set of the
    start-time map. *)
Lemma logged_bind_task t s :
  website_actual_start_logged s = dom (website_start_times s) ->
  website_actual_start_logged (snd (bind_task t s))
    = dom (website_start_times (snd (bind_task t s))) /\
  (forall i v, website_start_times s !! i = Some v ->
     website_start_times (snd (bind_task t s)) !! i = Some v) /\
  (fst (bind_task t s) = t \/
   is_Some (website_start_times (snd (bind_task t s)) !! website_id (fst (bind_task t s)))).
Proof.
  intros Hdom.
  destruct (bind_task_cases t s)
    as [->|(start & k & f & _ & _ & _ & _ & _ & _ & ->)]; [by split_and!; auto|].
  simpl. case_bool_decide as Hfirst.
  - split_and!.
    + rewrite dom_insert_L, Hdom. apply (comm_L (∪)).
    + intros i v Hi. rewrite lookup_insert_ne; [done|].
      intros <-. apply Hfirst. rewrite Hdom. apply elem_of_dom. by eexists.
    + right. rewrite lookup_insert_eq. by eexists.
  - split_and!; [done|done|]. right.
    apply elem_of_dom. rewrite <- Hdom.
    by destruct (decide (website_id t ∈ website_actual_start_logged s)).
Qed.

Lemma bind_all_starts ts : forall s ts' s',
  website_actual_start_logged s = dom (website_start_times s) ->
  bind_all ts s = (ts', s') ->
  website_actual_start_logged s' = dom (website_start_times s') /\
  (forall i v, website_start_times s !! i = Some v ->
     website_start_times s' !! i = Some v) /\
  Forall2 (fun t t' => t' = t \/ is_Some (website_start_times s' !! website_id t'))
          ts ts'.
Proof.
  induction ts as [|t ts IH]; intros s ts' s' Hdom H; simpl in H.
  - inversion H; subst. by split_and!.
  - destruct (logged_bind_task t s Hdom) as (Hdom1 & Hkeep1 & Ht).
    destruct (bind_task t s) as [t1 s1].
    destruct (bind_all ts s1) as [rest s2] eqn:Hrest.
    inversion H; subst; clear H. simpl in *.
    destruct (IH _ _ _ Hdom1 Hrest) as (Hdom2 & Hkeep2 & HF).
    split_and!; [done|auto|]. constructor; [|done].
    destruct Ht as [->|[v Hv]]; [by left|]. right. exists v. by apply Hkeep2.
Qed.

Lemma times_pass c c' :
  tick ws c = Some c' -> times_inv c ->
  times_inv c' /\
  (forall i v, website_start_times (snd c) !! i = Some v ->
     website_start_times (snd c') !! i = Some v) /\
  (forall i v, website_end_times (snd c) !! i = Some v ->
     website_end_times (snd c') !! i = Some v).
Proof.
  destruct c as [ts s], c' as [ts3 s3].
  intros Htick (Hdom & Htasks & Hends & Hcap). simpl in *.
  apply tick_inv in Htick as (ts2 & s2 & Hbind & Hret).
  assert (website_actual_start_logged (activate ws s) = website_actual_start_logged s /\
          website_start_times (activate ws s) = website_start_times s) as [Hla Hsa].
  { unfold activate. case_bool_decide; [|done]. by destruct (find _ _). }
  pose proof (activate_frame ws s) as (_ & _ & Hea & _).
  destruct (bind_all_starts _ _ _ _ ltac:(by rewrite Hla, Hsa) Hbind)
    as (Hdom2 & Hkeep2 & HF2).
  rewrite Hsa in Hkeep2.
  pose proof (bind_all_Forall2 _ _ _ _ Hbind) as HB.
  pose proof (bind_all_frame (stable_sort task_le ts) (activate ws s))
    as (_ & _ & Heb & _).
  rewrite Hbind in Heb. simpl in Heb.
  assert (cap_ok s2) as Hcap2.
  { replace s2 with (snd (bind_all (stable_sort task_le ts) (activate ws s)))
      by by rewrite Hbind.
    by apply cap_bind_all, cap_activate. }
  assert (forall t, t ∈ ts2 -> status t ≠ pending ->
            is_Some (website_start_times s2 !! website_id t)) as Htasks2.
  { intros t2 Hin2 Hst.
    apply list_elem_of_lookup_1 in Hin2 as [k Hk].
    destruct (Forall2_lookup_r _ _ _ _ _ HF2 Hk) as (t1 & Hk1 & [->|Hnew]); [|done].
    destruct (Htasks t1) as [v Hv]; [|done|by exists v; apply Hkeep2].
    apply (stable_sort_elem task_le). by eapply list_elem_of_lookup_2. }
  set (P := fun s0 : sim =>
    cap_ok s0 /\
    website_start_times s0 = website_start_times s2 /\
    website_actual_start_logged s0 = website_actual_start_logged s2 /\
    (forall i, is_Some (website_end_times s0 !! i) ->
       is_Some (website_start_times s2 !! i)) /\
    (forall i v, website_end_times s2 !! i = Some v ->
       website_end_times s0 !! i = Some v)).
  destruct (retire_all_joint P retires ts2) with
    (s := advance s2) (ts' := ts3) (s' := s3) as [(Hcap3 & Hs3 & Hl3 & He3 & Hk3) HR];
    try done.
  { intros t s0 t' s0' Hin (Hc0 & Hs0 & Hl0 & He0 & Hk0) Hstep.
    pose proof (cap_retire_task _ _ _ _ Hstep Hc0) as Hc0'.
    destruct (retire_task_cases t s0)
      as [E|[(Hst & _ & E)|[(Hst & _ & Hact & E)|(_ & _ & _ & E)]]];
      rewrite E in Hstep; inversion Hstep; subst; clear Hstep.
    - split; [done|by left].
    - split; [done|by right].
    - split; [|by right]. split_and!; try done; simpl.
      + intros i. rewrite lookup_insert_is_Some.
        intros [<-|[_ Hi]]; [|by apply He0].
        apply Htasks2; [done|congruence].
      + intros i v Hi. rewrite lookup_insert_ne; [by apply Hk0|].
        intros <-. destruct Hc0 as [_ Hfin]. apply Hfin in Hact.
        apply Hk0 in Hi. simpl in Hact. congruence. }
  { unfold P. split_and!; try done. simpl. intros i Hi.
    rewrite Heb, Hea in Hi. destruct (Hends i Hi) as [v Hv].
    exists v. by apply Hkeep2. }
  split_and!.
  - unfold times_inv. simpl. rewrite Hs3, Hl3. split_and!; try done.
    intros t3 Hin3 Hst3.
    destruct (Forall2_elem_r _ _ _ _ HR Hin3) as (t2 & Hin2 & [->|[Hip ->]]).
    + by apply Htasks2.
    + apply (Htasks2 t2 Hin2). congruence.
  - rewrite Hs3. done.
  - intros i v Hi. apply Hk3. by rewrite Heb, Hea.
Qed.

Lemma times_reachable c c' :
  reachable ws c c' -> times_inv c ->
  times_inv c' /\
  (forall i v, website_start_times (snd c) !! i = Some v ->
     website_start_times (snd c') !! i = Some v) /\
  (forall i v, website_end_times (snd c) !! i = Some v ->
     website_end_times (snd c') !! i = Some v).
Proof.
  induction 1 as [|c1 c2 _ IH _ _ Htick]; intros Hinv; [by split_and!|].
  destruct (IH Hinv) as (Hinv1 & Hs1 & He1).
  destruct (times_pass _ _ Htick Hinv1) as (Hinv2 & Hs2 & He2).
  split_and!; auto.
Qed.

(** X5: a project's start time and end time are written once: from any
    configuration of the run on, the recorded values stay as they are.  A
    project with a recorded end time always has a recorded start time, so the
    default of [starts.get(site_id, 0)] in the summary is never used. *)
Theorem project_times_are_written_once r e c c' :
  visited r ws e c -> reachable ws c c' ->
  (forall i v, website_start_times (snd c) !! i = Some v ->
     website_start_times (snd c') !! i = Some v) /\
  (forall i v, website_end_times (snd c) !! i = Some v ->
     website_end_times (snd c') !! i = Some v) /\
  (forall i, is_Some (website_end_times (snd c') !! i) ->
     is_Some (website_start_times (snd c') !! i)).
Proof.
  intros Hv Hr.
  assert (times_inv (init r ws e)) as H0.
  { split_and!; simpl.
    - by rewrite dom_empty_L.
    - intros t Ht Hst. destruct (precedence_init r ws e) as [_ Hp].
      by apply Hp in Ht.
    - intros i [v Hv']. by rewrite lookup_empty in Hv'.
    - split.
      + change (size (∅ : gset nat) <= 2)%nat. rewrite size_empty. lia.
      + intros i Hi. change (i ∈ (∅ : gset nat)) in Hi.
        by apply elem_of_empty in Hi. }
  destruct (times_reachable _ _ Hv H0) as (Hinv & _ & _).
  destruct (times_reachable _ _ Hr Hinv) as ((_ & _ & Hends & _) & Hs & He).
  by split_and!.
Qed.

End ProjectTimes.

(** The start of project 0 recorded in the first pass of the sample run is
    still there when its end time is recorded, 21 passes later. *)
Lemma project_times_are_written_once_witness :
  let ws := [website 0 1] in
  let c0 := init one_each ws default_efforts in
  let c := default c0 (passes 1 ws c0) in
  let c' := default c0 (passes 21 ws c) in
  (website_start_times (snd c) !! 0%nat = Some (Fin 0) /\
   website_end_times (snd c') !! 0%nat = Some (Fin 11)) /\
  website_start_times (snd c') !! 0%nat = Some (Fin 0) /\
  is_Some (website_start_times (snd c') !! 0%nat).
Proof.
  intros ws c0 c c'. split; [split; vm_compute; reflexivity|].
  assert (visited one_each ws default_efforts c) as Hv.
  { apply (passes_visited 1). vm_compute. reflexivity. }
  assert (reachable ws c c') as Hr.
  { apply (passes_reachable 21 ws c c c'); [apply reach_start|].
    vm_compute. reflexivity. }
  destruct (project_times_are_written_once ws one_each default_efforts c c' Hv Hr)
    as (Hs & _ & Hboth).
  split.
  - apply Hs. vm_compute. reflexivity.
  - apply Hboth. exists (Fin 11). vm_compute. reflexivity.
Defined.

(** ** Task status against the clock (lines 149-152 and 186-191) *)

Section StatusAndClock.

Variable ws : list site.

Lemma retire_task_clock t s t' s' :
  retire_task t s = Some (t', s') ->
  (t' = t /\ (status t = inprogress -> ~ le (end_day t) (Fin (current_day s)))) \/
  (status t = inprogress /\ le (end_day t) (Fin (current_day s)) /\ t' = completed t).
Proof.
  unfold retire_task. case_bool_decide as Hst; simpl.
  - destruct (leb _ _) eqn:Hle.
    + intros H. right. apply leb_le in Hle. split_and!; try done.
      case_bool_decide; [case_bool_decide|]; by simplify_eq.
    + intros [= <- <-]. left. split; [done|]. intros _ Hle'.
      apply leb_le in Hle'. congruence.
  - intros [= <- <-]. left. by split.
Qed.

Lemma clock_pass c c' :
  tick ws c = Some c' ->
  Forall (on_the_clock (current_day (snd c))) (fst c) ->
  Forall (on_the_clock (current_day (snd c'))) (fst c').
Proof.
  intros Htick Hinv.
  pose proof (tick_clock ws _ _ Htick) as Hclock.
  destruct c as [ts s], c' as [ts3 s3]. simpl in *.
  assert (current_day s <= current_day s3) as Hmono.
  { rewrite Hclock, Qred_correct. unfold time_step. lra. }
  apply tick_shape in Htick as (ts2 & s2 & Hbind & HB & Hret & _).
  pose proof (activate_frame ws s) as (_ & _ & _ & Hda & _).
  destruct (retire_all_joint
              (fun s0 => current_day s0 = current_day s3)
              (fun t t' =>
                 (t' = t /\ (status t = inprogress ->
                             ~ le (end_day t) (Fin (current_day s3)))) \/
                 (status t = inprogress /\ le (end_day t) (Fin (current_day s3)) /\
                  t' = completed t)) ts2)
    with (s := advance s2) (ts' := ts3) (s' := s3) as [_ HR]; try done.
  { intros t s0 t' s0' _ Hd Hstep.
    pose proof (retire_task_frame _ _ _ _ Hstep) as (_ & Hd' & _).
    split; [congruence|]. rewrite <- Hd. by eapply retire_task_clock. }
  { by apply retire_all_frame in Hret as (_ & -> & _). }
  apply Forall_forall. intros t3 Hin3 Hst3.
  destruct (Forall2_elem_r _ _ _ _ HR Hin3) as (t2 & Hin2 & Hr).
  destruct (Forall2_elem_r _ _ _ _ HB Hin2) as (t1 & Hin1 & Hb).
  apply stable_sort_elem in Hin1.
  rewrite Forall_forall in Hinv. specialize (Hinv t1 Hin1).
  assert (status t2 ≠ pending) as Hst2.
  { destruct Hr as [[-> _]|(Hip & _ & _)]; [done|congruence]. }
  assert (end_day t2 = add (start_day t2) (effort t2) /\
          le (start_day t2) (Fin (current_day s3)) /\
          (status t2 = complete -> le (end_day t2) (Fin (current_day s3)))) as (He & Hs & Hc).
  { destruct Hb as [->|(_ & _ & _ & start & -> & _ & Hle)].
    - destruct (Hinv Hst2) as (? & Hstart & Hiff). split_and!; [done| |].
      + eapply le_trans; [exact Hstart|done].
      + intros Hcomp. apply Hiff in Hcomp. by eapply le_trans.
    - rewrite Hda in Hle. split_and!; simpl; [done| |done].
      by eapply le_trans. }
  destruct Hr as [[-> Hnot]|(Hip & Hle & ->)].
  - split_and!; try done. split; [done|].
    intros Hle. destruct (status t2) eqn:E; try done. by destruct Hnot.
  - simpl. split_and!; try done.
Qed.

(** X6: at the head of the loop every bound task has
    [end_day = start_day + effort], a start that is not after the clock, and
    is complete exactly when its finish is not after the clock: no task stays
    in progress past its finish, and none is completed early. *)
Theorem bound_tasks_follow_the_clock r e c t :
  visited r ws e c -> t ∈ fst c ->
  on_the_clock (current_day (snd c)) t.
Proof.
  intros Hv. revert t. apply Forall_forall.
  induction Hv as [|c c' _ IH _ _ Htick].
  - apply Forall_forall. intros t Ht Hst.
    destruct (precedence_init r ws e) as [_ Hp]. by apply Hp in Ht.
  - by eapply clock_pass.
Qed.

End StatusAndClock.

(** After 4 passes of the sample run the clock reads 2.0: Design (0 to 1.5)
    is complete and Content (1.5 to 3.0) is in progress. *)
Lemma bound_tasks_follow_the_clock_witness :
  let ws := [website 0 1] in
  let c := default (init one_each ws default_efforts)
             (passes 4 ws (init one_each ws default_efforts)) in
  let t := default (go_live_task one_each default_efforts [] (website 0 1))
             (fst c !! 1%nat) in
  (current_day (snd c) = 2 /\ status t = inprogress /\ end_day t = Fin 3) /\
  on_the_clock (current_day (snd c)) t.
Proof.
  intros ws c t. split; [by vm_compute|].
  apply (bound_tasks_follow_the_clock ws one_each default_efforts c t).
  - apply (passes_visited 4). vm_compute. reflexivity.
  - apply (list_elem_of_lookup_2 _ 1%nat). vm_compute. reflexivity.
Defined.

(** ** Tasks over a run (lines 112-196) *)

Section TasksOverRun.

Variable ws : list site.

Lemma evolves_refl t : evolves t t.
Proof. unfold evolves. by split_and!. Qed.

Lemma evolves_trans t1 t2 t3 : evolves t1 t2 -> evolves t2 t3 -> evolves t1 t3.
Proof.
  intros (A1 & A2 & A3 & A4 & A5 & A6 & A7 & A8)
         (B1 & B2 & B3 & B4 & B5 & B6 & B7 & B8).
  unfold evolves. split_and!; try congruence.
  - intros Hst. destruct (A7 Hst) as (Hn & Hs & He).
    destruct (B7 Hn) as (? & ? & ?). split_and!; congruence.
  - auto.
Qed.

Lemma binds_evolves s t t' : binds s t t' -> evolves t t'.
Proof.
  intros [->|(Hp & _ & _ & start & -> & _)]; [apply evolves_refl|].
  unfold evolves. simpl. split_and!; try done; congruence.
Qed.

Lemma retires_evolves t t' : retires t t' -> evolves t t'.
Proof.
  intros [->|[Hip ->]]; [apply evolves_refl|].
  unfold evolves. simpl. by split_and!.
Qed.

Lemma evolves_pass c c' :
  tick ws c = Some c' ->
  exists l, l ≡ₚ fst c /\ Forall2 evolves l (fst c').
Proof.
  destruct c as [ts s], c' as [ts3 s3]. intros Htick. simpl.
  apply tick_shape in Htick as (ts2 & s2 & _ & HB & _ & HR).
  exists (stable_sort task_le ts). split; [apply stable_sort_perm|].
  eapply Forall2_trans; [|exact HB|exact HR].
  intros x y z Hxy Hyz. eapply evolves_trans;
    [by eapply binds_evolves|by apply retires_evolves].
Qed.

Lemma evolves_reachable c c' :
  reachable ws c c' ->
  exists l, l ≡ₚ fst c /\ Forall2 evolves l (fst c').
Proof.
  induction 1 as [|c1 c2 _ IH _ _ Htick].
  - exists (fst c). split; [done|]. apply Forall_Forall2_diag, Forall_forall.
    intros t _. apply evolves_refl.
  - destruct IH as (l & Hl & HF).
    destruct (evolves_pass _ _ Htick) as (l' & Hl' & HF').
    apply Forall2_flip in HF.
    destruct (Permutation_Forall2 (Permutation_sym Hl') HF) as (k & Hk & HFk).
    apply Forall2_flip in HFk.
    exists k. split; [by rewrite <- Hk|].
    eapply Forall2_trans; [|exact HFk|exact HF'].
    intros x y z. apply evolves_trans.
Qed.

(** X7: the task list of a later configuration is the task list of an
    earlier one, task for task up to the order: no task is added, dropped or
    duplicated, only [status], [start_day] and [end_day] ever change, and once
    a task is bound its two days are frozen and its status never goes back. *)
Theorem tasks_only_move_forward r e c c' :
  visited r ws e c -> reachable ws c c' ->
  length (fst c') = length (fst c) /\
  exists l, l ≡ₚ fst c /\ Forall2 evolves l (fst c').
Proof.
  intros _ Hr. destruct (evolves_reachable _ _ Hr) as (l & Hl & HF).
  split; [|by exists l].
  rewrite <- (Forall2_length _ _ _ HF). by rewrite Hl.
Qed.

Lemma bind_all_row_count ts : forall s ts' s',
  bind_all ts s = (ts', s') ->
  (length (gantt_tasks s') + bound_count ts
   = length (gantt_tasks s) + bound_count ts')%nat.
Proof.
  unfold bound_count.
  induction ts as [|t ts IH]; intros s ts' s' H; simpl in H.
  - by inversion H; subst.
  - destruct (bind_task t s) as [t1 s1] eqn:Ht.
    destruct (bind_all ts s1) as [rest s2] eqn:Hrest.
    inversion H; subst; clear H. specialize (IH _ _ _ Hrest).
    rewrite !filter_cons.
    destruct (bind_task_cases t s)
      as [E|(start & k & f & Hp & _ & _ & _ & _ & _ & E)];
      rewrite E in Ht; inversion Ht; subst; clear Ht.
    + destruct (decide _); simpl; lia.
    + simpl in IH. rewrite length_app in IH. simpl in IH.
      destruct (decide (status t ≠ pending)); [done|].
      destruct (decide (status (started t start) ≠ pending)) as [|Hn];
        [|by destruct Hn]. simpl. lia.
Qed.

(** X8: [gantt_tasks] holds exactly one row per bound task. *)
Theorem one_gantt_row_per_bound_task r e c :
  visited r ws e c ->
  length (gantt_tasks (snd c)) = bound_count (fst c).
Proof.
  induction 1 as [|c c' _ IH _ _ Htick].
  - simpl. unfold bound_count.
    destruct (precedence_init r ws e) as [_ Hp]. simpl in Hp.
    induction (build_tasks r ws e) as [|t ts IH]; [done|].
    rewrite filter_cons.
    destruct (decide (status t ≠ pending)) as [Hn|_].
    + destruct Hn. apply Hp. left.
    + apply IH. intros u Hu. apply Hp. by right.
  - destruct c as [ts s], c' as [ts3 s3]. simpl in *.
    apply tick_shape in Htick as (ts2 & s2 & Hbind & HB & Hret & HR).
    apply bind_all_row_count in Hbind.
    apply retire_all_frame in Hret as (_ & _ & Hg & _). simpl in Hg.
    pose proof (activate_frame ws s) as (_ & _ & _ & _ & Hga).
    assert (bound_count (stable_sort task_le ts) = bound_count ts) as E1.
    { unfold bound_count. by rewrite stable_sort_perm. }
    assert (bound_count ts3 = bound_count ts2) as E2.
    { unfold bound_count. symmetry.
      apply (filter_length_Forall2 _ _ _ _ HR).
      intros x y [->|[Hip ->]]; [done|]. simpl. split; congruence. }
    rewrite Hga in Hbind. rewrite Hg. lia.
Qed.

End TasksOverRun.

Lemma tasks_only_move_forward_witness :
  let ws := [website 0 1] in
  let c0 := init one_each ws default_efforts in
  let c := default c0 (passes 4 ws c0) in
  let c' := default c0 (passes 18 ws c) in
  length (fst c') = length (fst c) /\
  exists l, l ≡ₚ fst c /\ Forall2 evolves l (fst c').
Proof.
  intros ws c0 c c'.
  apply (tasks_only_move_forward ws one_each default_efforts c c').
  - apply (passes_visited 4). vm_compute. reflexivity.
  - apply (passes_reachable 18 ws c c c'); [apply reach_start|].
    vm_compute. reflexivity.
Defined.

Lemma one_gantt_row_per_bound_task_witness :
  let ws := [website 0 1; website 1 1] in
  let c := default (init one_each ws default_efforts)
             (passes 4 ws (init one_each ws default_efforts)) in
  bound_count (fst c) = 3%nat /\
  length (gantt_tasks (snd c)) = bound_count (fst c).
Proof.
  intros ws c. split; [by vm_compute|].
  apply (one_gantt_row_per_bound_task ws one_each default_efforts c).
  apply (passes_visited 4). vm_compute. reflexivity.
Defined.

(** ** The event log (lines 108, 175 and 196) *)

Section EventLog.

Variable ws : list site.

Lemma activated_snoc log ev :
  activated_sites (log ++ [ev]) =
  activated_sites log ++ match ev with EvActivated _ i => [i] | _ => [] end.
Proof. unfold activated_sites. rewrite omap_app. by destruct ev. Qed.

Lemma started_snoc log ev :
  started_sites (log ++ [ev]) =
  started_sites log ++ match ev with EvStarted _ i _ => [i] | _ => [] end.
Proof. unfold started_sites. rewrite omap_app. by destruct ev. Qed.

Lemma completed_snoc log ev :
  completed_sites (log ++ [ev]) =
  completed_sites log ++ match ev with EvComplete _ i => [i] | _ => [] end.
Proof. unfold completed_sites. rewrite omap_app. by destruct ev. Qed.

Lemma StronglySorted_snoc (l : list nat) x :
  StronglySorted Nat.lt l -> (forall a, a ∈ l -> (a < x)%nat) ->
  StronglySorted Nat.lt (l ++ [x]).
Proof.
  induction 1 as [|a l Hl IH Ha]; intros Hx; simpl.
  - repeat constructor.
  - constructor.
    + apply IH. intros b Hb. apply Hx. by right.
    + apply Forall_app. split; [done|]. constructor; [|constructor].
      apply Hx. left.
Qed.

Lemma activation_activate s :
  activation_inv ws s -> activation_inv ws (activate ws s).
Proof.
  intros (Hsorted & Hset & Hskip).
  destruct (activate_cases ws s)
    as [->|(x & _ & Hx & Hnot & Hend & Hfind & Hact & Hends & Hlog)]; [done|].
  assert (forall y, y ∈ ws -> (site_id y < site_id x)%nat ->
            site_id y ∈ activated_sites (log_messages s)) as Hbelow.
  { intros y Hy Hlt. apply Hset.
    destruct (eligible s y) eqn:Hel.
    - pose proof (find_sorted_least (eligible s) _ x (stable_sort_sorted ws) Hfind y
                    ltac:(by apply stable_sort_elem) Hel). lia.
    - unfold eligible in Hel. apply andb_false_iff in Hel as [H|H];
        apply bool_decide_eq_false in H.
      + left. by destruct (decide (site_id y ∈ active_websites s)).
      + right. by destruct (website_end_times s !! site_id y). }
  assert (site_id x ∉ activated_sites (log_messages s)) as Hfresh.
  { intros [H|[v H]]%Hset; [done|congruence]. }
  unfold activation_inv. rewrite Hlog, Hact, Hends, activated_snoc.
  split_and!.
  - apply StronglySorted_snoc; [done|].
    intros a Ha. destruct (decide (a < site_id x)%nat) as [|Hge]; [done|].
    assert (a ≠ site_id x) by (by intros ->).
    destruct Hfresh. apply (Hskip a x); [done|done|lia].
  - intros i. rewrite elem_of_app, list_elem_of_singleton, Hset, elem_of_union,
      elem_of_singleton. tauto.
  - intros a y [Ha|Ha]%elem_of_app Hy Hlt; apply elem_of_app.
    + left. by eapply Hskip.
    + apply list_elem_of_singleton in Ha. subst a. left. by apply Hbelow.
Qed.

Lemma activation_bind_task t s :
  activation_inv ws s -> activation_inv ws (snd (bind_task t s)).
Proof.
  intros Hinv.
  destruct (bind_task_cases t s)
    as [->|(start & k & f & _ & _ & _ & _ & _ & _ & ->)]; [done|].
  unfold activation_inv in *. simpl.
  case_bool_decide; [|done]. by rewrite activated_snoc, app_nil_r.
Qed.

Lemma activation_retire_task t s t' s' :
  retire_task t s = Some (t', s') ->
  activation_inv ws s -> activation_inv ws s'.
Proof.
  intros Hstep (Hsorted & Hset & Hskip).
  destruct (retire_task_cases t s)
    as [E|[(_ & _ & E)|[(_ & _ & Hact & E)|(_ & _ & _ & E)]]];
    rewrite E in Hstep; inversion Hstep; subst; clear Hstep; try done.
  unfold activation_inv. simpl. rewrite activated_snoc, app_nil_r.
  split_and!; [done| |done].
  intros i. rewrite Hset, elem_of_difference, elem_of_singleton,
    lookup_insert_is_Some.
  destruct (decide (website_id t = i)) as [<-|Hne]; [tauto|].
  split; [intros [?|?]; [left|right]; auto|]. intros [[? _]|[?|[_ ?]]]; auto.
  congruence.
Qed.

Lemma activation_pass c c' :
  tick ws c = Some c' -> activation_inv ws (snd c) -> activation_inv ws (snd c').
Proof.
  destruct c as [ts s], c' as [ts3 s3]. intros Htick Hinv. simpl in *.
  apply tick_inv in Htick as (ts2 & s2 & Hbind & Hret).
  assert (activation_inv ws s2) as H2.
  { replace s2 with (snd (bind_all (stable_sort task_le ts) (activate ws s)))
      by by rewrite Hbind.
    apply (bind_all_sim_inv (activation_inv ws)).
    - intros t s0 _. apply activation_bind_task.
    - by apply activation_activate. }
  destruct (retire_all_joint (activation_inv ws) (fun _ _ => True) ts2)
    with (s := advance s2) (ts' := ts3) (s' := s3); try done.
  intros t s0 t' s0' _ H0 Hstep. split; [|done].
  by eapply activation_retire_task.
Qed.

(** X9: projects are activated in strictly ascending id order, each at most
    once; the activated projects are exactly the active and the ended ones;
    and a project is never activated while a project of the input with a
    smaller id is still waiting. *)
Theorem projects_activate_in_id_order r e c :
  visited r ws e c -> activation_inv ws (snd c).
Proof.
  induction 1 as [|c c' _ IH _ _ Htick]; [|by eapply activation_pass].
  unfold activation_inv. simpl. split_and!.
  - constructor.
  - intros i. split; [by intros ?%elem_of_nil|].
    intros [Hi|[v Hv]]; [|by rewrite lookup_empty in Hv].
    change (i ∈ (∅ : gset nat)) in Hi. by apply elem_of_empty in Hi.
  - intros a y Ha. by apply elem_of_nil in Ha.
Qed.

Lemma log_activate s : log_inv s -> log_inv (activate ws s).
Proof.
  intros (H1 & H2 & H3 & H4 & H5 & H6 & H7 & H8).
  pose proof (cap_activate ws s H8) as Hcap.
  destruct (activate_cases ws s)
    as [->|(x & _ & _ & _ & _ & _ & _ & Hends & Hlog)]; [by split_and!|].
  assert (website_start_times (activate ws s) = website_start_times s /\
          website_actual_start_logged (activate ws s) = website_actual_start_logged s)
    as [Hs Hl].
  { unfold activate. case_bool_decide; [|done]. by destruct (find _ _). }
  unfold log_inv. rewrite Hlog, Hends, Hs, Hl, started_snoc, completed_snoc, !app_nil_r.
  split_and!; try done.
  - intros d i ty [?|Hin]%elem_of_app; [by eapply H1|].
    by apply list_elem_of_singleton in Hin.
  - intros d i [?|Hin]%elem_of_app; [by eapply H2|].
    by apply list_elem_of_singleton in Hin.
Qed.

Lemma log_bind_task t s : log_inv s -> log_inv (snd (bind_task t s)).
Proof.
  intros (H1 & H2 & H3 & H4 & H5 & H6 & H7 & H8).
  destruct (bind_task_cases t s)
    as [->|(start & k & f & _ & _ & _ & _ & _ & _ & ->)]; [by split_and!|].
  unfold log_inv. simpl. case_bool_decide as Hfirst; [|by split_and!].
  assert (website_start_times s !! website_id t = None) as Hnone.
  { apply not_elem_of_dom. by rewrite <- H7. }
  rewrite started_snoc, completed_snoc, app_nil_r.
  split_and!; try done.
  - intros d i ty [Hin|Hin]%elem_of_app.
    + rewrite lookup_insert_ne; [by eapply H1|].
      intros <-. apply H1 in Hin. congruence.
    + apply list_elem_of_singleton in Hin. simplify_eq. apply lookup_insert_eq.
  - intros d i [?|Hin]%elem_of_app; [by eapply H2|].
    by apply list_elem_of_singleton in Hin.
  - intros i. rewrite elem_of_app, list_elem_of_singleton, H3, lookup_insert_is_Some'.
    split; [intros [? | ->]; auto|intros [<- | ?]; auto].
  - apply NoDup_app. split_and!; [done| |apply NoDup_singleton].
    intros i Hi ->%list_elem_of_singleton. apply H3 in Hi as [v Hv]. congruence.
  - rewrite dom_insert_L, H7. apply (comm_L (∪)).
Qed.

Lemma log_retire_task t s t' s' :
  retire_task t s = Some (t', s') -> log_inv s -> log_inv s'.
Proof.
  intros Hstep (H1 & H2 & H3 & H4 & H5 & H6 & H7 & H8).
  pose proof (cap_retire_task _ _ _ _ Hstep H8) as Hcap.
  destruct (retire_task_cases t s)
    as [E|[(_ & _ & E)|[(_ & _ & Hact & E)|(_ & _ & _ & E)]]];
    rewrite E in Hstep; inversion Hstep; subst; clear Hstep;
    [by split_and!|by split_and!|].
  assert (website_end_times s !! website_id t = None) as Hnone.
  { destruct H8 as [_ Hfin]. by apply Hfin. }
  unfold log_inv. simpl. rewrite started_snoc, completed_snoc, app_nil_r.
  split_and!; try done.
  - intros d i ty [?|Hin]%elem_of_app; [by eapply H1|].
    by apply list_elem_of_singleton in Hin.
  - intros d i [Hin|Hin]%elem_of_app.
    + rewrite lookup_insert_ne; [by eapply H2|].
      intros <-. apply H2 in Hin. congruence.
    + apply list_elem_of_singleton in Hin. simplify_eq. apply lookup_insert_eq.
  - intros i. rewrite elem_of_app, list_elem_of_singleton, H4, lookup_insert_is_Some'.
    split; [intros [? | ->]; auto|intros [<- | ?]; auto].
  - apply NoDup_app. split_and!; [done| |apply NoDup_singleton].
    intros i Hi ->%list_elem_of_singleton. apply H4 in Hi as [v Hv]. congruence.
Qed.

Lemma log_pass c c' :
  tick ws c = Some c' -> log_inv (snd c) -> log_inv (snd c').
Proof.
  destruct c as [ts s], c' as [ts3 s3]. intros Htick Hinv. simpl in *.
  apply tick_inv in Htick as (ts2 & s2 & Hbind & Hret).
  assert (log_inv s2) as H2.
  { replace s2 with (snd (bind_all (stable_sort task_le ts) (activate ws s)))
      by by rewrite Hbind.
    apply (bind_all_sim_inv log_inv).
    - intros t s0 _. apply log_bind_task.
    - by apply log_activate. }
  destruct (retire_all_joint log_inv (fun _ _ => True) ts2)
    with (s := advance s2) (ts' := ts3) (s' := s3); try done.
  intros t s0 t' s0' _ H0 Hstep. split; [|done].
  by eapply log_retire_task.
Qed.

(** X10: the log agrees with the returned maps: a "work has started" line
    carries the start time recorded for its project, a "complete" line its
    recorded end time; each project has at most one line of each kind, and has
    one exactly when the map has an entry for it. *)
Theorem log_agrees_with_time_maps r e c :
  visited r ws e c ->
  (forall d i ty, EvStarted d i ty ∈ log_messages (snd c) ->
     website_start_times (snd c) !! i = Some d) /\
  (forall d i, EvComplete d i ∈ log_messages (snd c) ->
     website_end_times (snd c) !! i = Some d) /\
  (forall i, i ∈ started_sites (log_messages (snd c)) <->
     is_Some (website_start_times (snd c) !! i)) /\
  (forall i, i ∈ completed_sites (log_messages (snd c)) <->
     is_Some (website_end_times (snd c) !! i)) /\
  NoDup (started_sites (log_messages (snd c))) /\
  NoDup (completed_sites (log_messages (snd c))).
Proof.
  intros Hv.
  assert (log_inv (snd c)) as (H1 & H2 & H3 & H4 & H5 & H6 & _).
  { induction Hv as [|c c' _ IH _ _ Htick]; [|by eapply log_pass].
    unfold log_inv. simpl. split_and!.
    - intros d i ty Hin. by apply elem_of_nil in Hin.
    - intros d i Hin. by apply elem_of_nil in Hin.
    - intros i. split; [by intros ?%elem_of_nil|].
      intros [v Hv]. by rewrite lookup_empty in Hv.
    - intros i. split; [by intros ?%elem_of_nil|].
      intros [v Hv]. by rewrite lookup_empty in Hv.
    - constructor.
    - constructor.
    - by rewrite dom_empty_L.
    - split.
      + change (size (∅ : gset nat) <= 2)%nat. rewrite size_empty. lia.
      + intros i Hi. change (i ∈ (∅ : gset nat)) in Hi.
        by apply elem_of_empty in Hi. }
  by split_and!.
Qed.

End EventLog.

(** The three-project run: activations in the order 0, 1, 2. *)
Lemma projects_activate_in_id_order_witness :
  let ws := [website 2 1; website 0 1; website 1 1] in
  let c := default (init one_each ws default_efforts)
             (passes 23 ws (init one_each ws default_efforts)) in
  activated_sites (log_messages (snd c)) = [0; 1; 2]%nat /\
  activation_inv ws (snd c).
Proof.
  intros ws c. split; [by vm_compute|].
  apply (projects_activate_in_id_order ws one_each default_efforts c).
  apply (passes_visited 23). vm_compute. reflexivity.
Defined.

Lemma log_agrees_with_time_maps_witness :
  let ws := [website 0 1; website 1 1; website 2 1] in
  let c := default (init one_each ws default_efforts)
             (passes 23 ws (init one_each ws default_efforts)) in
  EvStarted (Fin 3) 2 Design ∈ log_messages (snd c) /\
  website_start_times (snd c) !! 2%nat = Some (Fin 3).
Proof.
  intros ws c.
  assert (EvStarted (Fin 3) 2 Design ∈ log_messages (snd c)) as Hin.
  { apply (list_elem_of_lookup_2 _ 6%nat). vm_compute. reflexivity. }
  split; [done|].
  assert (visited one_each ws default_efforts c) as Hv.
  { apply (passes_visited 23). vm_compute. reflexivity. }
  destruct (log_agrees_with_time_maps ws one_each default_efforts c Hv) as (H1 & _).
  by apply (H1 _ _ Design).
Defined.

(** ** Task ids (lines 72-79 and 85) *)

Section TaskIds.

Lemma pretty_N_go_no_dash x : forall s, no_dash s -> no_dash (pretty_N_go x s).
Proof.
  induction (N.lt_wf_0 x) as [x _ IH]; intros s Hs.
  assert (x = 0 \/ 0 < x)%N as [->|Hpos] by lia.
  - by rewrite pretty_N_go_0.
  - rewrite pretty_N_go_step by done. apply IH.
    { by apply N.div_lt. }
    split; [|done]. unfold pretty_N_char. by repeat case_match.
Qed.

Lemma pretty_nat_no_dash (n : nat) : no_dash (pretty n).
Proof.
  unfold pretty, pretty_nat, pretty, pretty_N.
  case_decide; [by split|]. by apply pretty_N_go_no_dash.
Qed.

(** Two strings that agree after a dash-free prefix and a dash have the same
    prefix and the same rest. *)
Lemma split_at_dash s1 : forall s2 x y,
  no_dash s1 -> no_dash s2 ->
  s1 +:+ String "-" x = s2 +:+ String "-" y -> s1 = s2 /\ x = y.
Proof.
  induction s1 as [|a s1 IH]; intros [|b s2] x y H1 H2 Heq; simpl in *.
  - by simplify_eq.
  - destruct H2 as [Hb _]. by simplify_eq.
  - destruct H1 as [Ha _]. by simplify_eq.
  - destruct H1 as [_ H1], H2 as [_ H2]. simplify_eq.
    destruct (IH _ _ _ H1 H2 ltac:(done)) as [-> ->]. done.
Qed.

Lemma page_task_id_inj s p suffix s' p' suffix' :
  page_task_id s p suffix = page_task_id s' p' suffix' ->
  site_id s = site_id s' /\ p = p' /\ suffix = suffix'.
Proof.
  unfold page_task_id. simpl. intros [= H].
  apply split_at_dash in H as [Ha H]; try apply pretty_nat_no_dash.
  injection H as H.
  apply split_at_dash in H as [Hp Hsuf]; try apply pretty_nat_no_dash.
  apply (inj pretty) in Ha. apply (inj pretty) in Hp.
  split_and!; [lia|done|done].
Qed.

Lemma go_live_task_id_inj s s' :
  go_live_task_id s = go_live_task_id s' -> site_id s = site_id s'.
Proof.
  unfold go_live_task_id. simpl. intros [= H].
  apply split_at_dash in H as [Ha _]; try apply pretty_nat_no_dash.
  apply (inj pretty) in Ha. lia.
Qed.

Lemma page_id_not_go_live_id s p suffix s' :
  page_task_id s p suffix ≠ go_live_task_id s'.
Proof.
  unfold page_task_id, go_live_task_id. simpl. intros [= H].
  apply split_at_dash in H as [_ H]; try apply pretty_nat_no_dash.
  discriminate.
Qed.

Lemma NoDup_flat_map {A B : Type} (f : A -> list B) l :
  NoDup l -> (forall x, x ∈ l -> NoDup (f x)) ->
  (forall x1 x2 y, x1 ∈ l -> x2 ∈ l -> y ∈ f x1 -> y ∈ f x2 -> x1 = x2) ->
  NoDup (flat_map f l).
Proof.
  induction 1 as [|x l Hx Hl IH]; intros Hf Hsep; simpl; [constructor|].
  apply NoDup_app. split_and!.
  - apply Hf. left.
  - intros y Hy Hy'. apply list_elem_of_In, in_flat_map in Hy' as (x2 & Hx2 & Hy2).
    apply list_elem_of_In in Hx2, Hy2.
    assert (x = x2) as <-; [|done].
    eapply Hsep; [left|by right|done|done].
  - apply IH.
    + intros x' Hx'. apply Hf. by right.
    + intros x1 x2 y H1 H2. apply Hsep; by right.
Qed.

Lemma map_flat_map {A B C : Type} (g : B -> C) (f : A -> list B) l :
  map g (flat_map f l) = flat_map (fun x => map g (f x)) l.
Proof. induction l as [|x l IH]; simpl; [done|]. by rewrite map_app, IH. Qed.

Lemma NoDup_map_inj {A B : Type} (f : A -> B) l x y :
  NoDup (map f l) -> x ∈ l -> y ∈ l -> f x = f y -> x = y.
Proof.
  induction l as [|a l IH]; intros Hnd Hx Hy Hxy; [by apply elem_of_nil in Hx|].
  simpl in Hnd. apply NoDup_cons in Hnd as [Ha Hnd].
  apply elem_of_cons in Hx as [->|Hx]; apply elem_of_cons in Hy as [->|Hy]; auto.
  - destruct Ha. rewrite Hxy. apply list_elem_of_fmap. by exists y.
  - destruct Ha. rewrite <- Hxy. apply list_elem_of_fmap. by exists x.
Qed.

Lemma chain_ids e s p :
  map id (page_chain e s p) =
  [page_task_id s p "Design"; page_task_id s p "Content";
   page_task_id s p "WP"; page_task_id s p "UI"].
Proof. done. Qed.

Lemma chain_ids_elem e s p y :
  y ∈ map id (page_chain e s p) -> exists suffix, y = page_task_id s p suffix.
Proof.
  rewrite chain_ids. intros H.
  repeat (apply elem_of_cons in H as [->|H]; [by eexists|]).
  by apply elem_of_nil in H.
Qed.

Lemma chain_ids_NoDup e s p : NoDup (map id (page_chain e s p)).
Proof.
  rewrite chain_ids.
  repeat (apply NoDup_cons; split;
    [intros H; repeat (apply elem_of_cons in H as [H|H];
       [by apply page_task_id_inj in H as (_ & _ & ?)|]);
     by apply elem_of_nil in H|]).
  constructor.
Qed.

Lemma task_ids_unique_of_sites r ws e :
  NoDup (map site_id ws) -> NoDup (map id (build_tasks r ws e)).
Proof.
  intros Hnd. unfold build_tasks.
  rewrite append_go_live_tasks_map, append_page_tasks_flat. simpl.
  rewrite map_app, map_map, map_flat_map. simpl.
  apply NoDup_app. split_and!.
  - apply NoDup_flat_map.
    + by apply NoDup_fmap_1 in Hnd.
    + intros s _. rewrite map_flat_map. apply NoDup_flat_map.
      * apply NoDup_seq.
      * intros p _. apply chain_ids_NoDup.
      * intros p1 p2 y _ _ [f1 ->]%chain_ids_elem [f2 H]%chain_ids_elem.
        by apply page_task_id_inj in H as (_ & ? & _).
    + intros s1 s2 y H1 H2 Hy1 Hy2.
      rewrite map_flat_map in Hy1, Hy2.
      apply list_elem_of_In, in_flat_map in Hy1 as (p1 & _ & Hy1).
      apply list_elem_of_In, in_flat_map in Hy2 as (p2 & _ & Hy2).
      apply list_elem_of_In, chain_ids_elem in Hy1 as [f1 ->].
      apply list_elem_of_In, chain_ids_elem in Hy2 as [f2 H].
      apply page_task_id_inj in H as (Hid & _ & _).
      by eapply NoDup_map_inj.
  - intros y Hy Hy'.
    apply list_elem_of_In, in_flat_map in Hy as (s1 & _ & Hy).
    rewrite map_flat_map in Hy. apply in_flat_map in Hy as (p1 & _ & Hy).
    apply list_elem_of_In, chain_ids_elem in Hy as [f1 ->].
    apply list_elem_of_fmap in Hy' as (s2 & H & _).
    by apply page_id_not_go_live_id in H.
  - apply (NoDup_fmap_2_strong go_live_task_id); [|by apply NoDup_fmap_1 in Hnd].
    intros s1 s2 H1 H2 H. apply go_live_task_id_inj in H.
    by eapply NoDup_map_inj.
Qed.

(** X11: when the projects have distinct ids, all task ids of the plan are
    distinct, so [completed_tasks] can hold one key per task and the loop
    condition [len(completed_tasks) < len(tasks)] can become false. *)
Theorem task_ids_are_distinct r ws e :
  NoDup (map site_id ws) ->
  NoDup (map id (build_tasks r ws e)) /\
  forall t u, t ∈ build_tasks r ws e -> u ∈ build_tasks r ws e ->
    id t = id u -> t = u.
Proof.
  intros Hnd. pose proof (task_ids_unique_of_sites r ws e Hnd) as Hids.
  split; [done|]. intros t u Ht Hu Htu. by eapply NoDup_map_inj.
Qed.

End TaskIds.

Lemma task_ids_are_distinct_witness :
  let ws := [website 0 11; website 10 1] in
  NoDup (map id (build_tasks one_each ws default_efforts)).
Proof.
  intros ws. apply (task_ids_are_distinct one_each ws default_efforts).
  apply (bool_decide_unpack (NoDup (map site_id ws))). vm_compute. exact I.
Defined.

(** ** [completed_tasks] against the task list (lines 95 and 188-191) *)

Section CompletedMap.

Variable ws : list site.

Lemma retire_all_done_keys ts : forall s ts' s',
  retire_all ts s = Some (ts', s') ->
  (forall d, is_Some (completed_tasks s !! d) -> is_Some (completed_tasks s' !! d)) /\
  Forall2 (fun t t' => t' = t \/
             (status t = inprogress /\ t' = completed t /\
              is_Some (completed_tasks s' !! id t))) ts ts'.
Proof.
  induction ts as [|t ts IH]; intros s ts' s' H; simpl in H.
  - inversion H; subst. split; [done|constructor].
  - destruct (retire_task t s) as [[t1 s1]|] eqn:Ht; [|done].
    destruct (retire_all ts s1) as [[rest s2]|] eqn:Hrest; [|done].
    inversion H; subst; clear H.
    destruct (IH _ _ _ Hrest) as [Hmono HF].
    destruct (retire_task_cases t s)
      as [E|[(Hst & _ & E)|[(Hst & _ & _ & E)|(_ & _ & _ & E)]]];
      rewrite E in Ht; inversion Ht; subst; clear Ht.
    + split; [done|]. constructor; [by left|done].
    + split.
      * intros d Hd. apply Hmono. simpl. rewrite lookup_insert_is_Some'. auto.
      * constructor; [|done]. right. split_and!; try done.
        apply Hmono. simpl. rewrite lookup_insert_eq. by eexists.
    + split.
      * intros d Hd. apply Hmono. simpl. rewrite lookup_insert_is_Some'. auto.
      * constructor; [|done]. right. split_and!; try done.
        apply Hmono. simpl. rewrite lookup_insert_eq. by eexists.
Qed.

Lemma done_keys_pass c c' :
  tick ws c = Some c' ->
  (forall t, t ∈ fst c -> status t = complete ->
     is_Some (completed_tasks (snd c) !! id t)) ->
  forall t, t ∈ fst c' -> status t = complete ->
    is_Some (completed_tasks (snd c') !! id t).
Proof.
  destruct c as [ts s], c' as [ts3 s3]. intros Htick Hinv t3 Hin3 Hst3. simpl in *.
  apply tick_shape in Htick as (ts2 & s2 & Hbind & HB & Hret & _).
  destruct (retire_all_done_keys _ _ _ _ Hret) as [Hmono HF]. simpl in Hmono.
  pose proof (bind_all_frame (stable_sort task_le ts) (activate ws s)) as (Hcb & _).
  rewrite Hbind in Hcb. simpl in Hcb.
  pose proof (activate_frame ws s) as (_ & Hca & _).
  destruct (Forall2_elem_r _ _ _ _ HF Hin3) as (t2 & Hin2 & Hr).
  destruct Hr as [->|(_ & -> & Hkey)]; [|done].
  destruct (Forall2_elem_r _ _ _ _ HB Hin2) as (t1 & Hin1 & Hb).
  apply stable_sort_elem in Hin1.
  destruct Hb as [->|(_ & _ & _ & start & -> & _)]; [|done].
  apply Hmono. rewrite Hcb, Hca. by apply Hinv.
Qed.

(** X12: when the projects have distinct ids, [completed_tasks] is the map
    from the ids of the complete tasks to their finish days: a task is
    complete exactly when its id is a key, the value is its [end_day], and the
    number of keys is the number of complete tasks. *)
Theorem completed_map_mirrors_tasks r e c :
  NoDup (map site_id ws) -> visited r ws e c ->
  (forall t, t ∈ fst c ->
     (status t = complete <-> is_Some (completed_tasks (snd c) !! id t)) /\
     (forall f, completed_tasks (snd c) !! id t = Some f -> f = end_day t)) /\
  size (completed_tasks (snd c)) = complete_count (fst c).
Proof.
  intros Hnd Hv.
  assert (NoDup (map id (fst c))) as Hids.
  { destruct (evolves_reachable ws _ _ Hv) as (l & Hl & HF).
    assert (map id (fst c) = map id l) as ->.
    { clear -HF. induction HF as [|x y l k Hxy _ IH]; [done|].
      simpl. destruct Hxy as (-> & _). by rewrite IH. }
    rewrite Hl. by apply task_ids_unique_of_sites. }
  assert (completed_sound c) as Hsound.
  { destruct (precedence_init r ws e) as [Hcs Hp].
    eapply (precedence_reachable _ _ _ Hv); [done|].
    intros u Hu Hs. by apply Hp in Hu. }
  assert (forall t, t ∈ fst c -> status t = complete ->
            is_Some (completed_tasks (snd c) !! id t)) as Hkeys.
  { clear -Hv. induction Hv as [|c c' _ IH _ _ Htick]; [|by eapply done_keys_pass].
    intros t Ht Hst. destruct (precedence_init r ws e) as [_ Hp].
    apply Hp in Ht. congruence. }
  assert (forall t f, t ∈ fst c -> completed_tasks (snd c) !! id t = Some f ->
            status t = complete /\ f = end_day t) as Hback.
  { intros t f Ht Hf. destruct (Hsound _ _ Hf) as (u & Hu & Hid & Hst & Hend).
    assert (u = t) as -> by by eapply NoDup_map_inj. by split. }
  split.
  - intros t Ht. split.
    + split; [by apply Hkeys|]. intros [f Hf]. by destruct (Hback t f Ht Hf).
    + intros f Hf. by destruct (Hback t f Ht Hf).
  - rewrite <- size_dom.
    assert (dom (completed_tasks (snd c)) =
            list_to_set (map id (filter (fun t => status t = complete) (fst c))))
      as ->.
    { apply set_eq. intros d. rewrite elem_of_dom, elem_of_list_to_set, list_elem_of_fmap.
      split.
      - intros [f Hf]. destruct (Hsound _ _ Hf) as (u & Hu & Hid & Hst & _).
        exists u. split; [done|]. by apply list_elem_of_filter.
      - intros (t & -> & [Hst Ht]%list_elem_of_filter). by apply Hkeys. }
    rewrite size_list_to_set; [by rewrite length_map|].
    apply NoDup_fmap_2_strong.
    + intros x y [_ Hx]%list_elem_of_filter [_ Hy]%list_elem_of_filter.
      by eapply NoDup_map_inj.
    + apply NoDup_filter. by eapply NoDup_fmap_1.
Qed.

End CompletedMap.

Lemma completed_map_mirrors_tasks_witness :
  let ws := [website 0 1; website 1 1] in
  let c := default (init one_each ws default_efforts)
             (passes 7 ws (init one_each ws default_efforts)) in
  complete_count (fst c) = 3%nat /\
  size (completed_tasks (snd c)) = complete_count (fst c).
Proof.
  intros ws c. split; [by vm_compute|].
  apply (completed_map_mirrors_tasks ws one_each default_efforts c).
  - apply (bool_decide_unpack (NoDup (map site_id ws))). vm_compute. exact I.
  - apply (passes_visited 7). vm_compute. reflexivity.
Defined.

(** ** The priority order (line 112) *)

Section PriorityOrder.

Lemma page_key_le_total a b : page_key_le a b = false -> page_key_le b a = true.
Proof.
  destruct a as [m|], b as [n|]; simpl; try done.
  intros H. apply Nat.leb_gt in H. apply Nat.leb_le. lia.
Qed.

Lemma task_le_total a b : task_le a b = false -> task_le b a = true.
Proof.
  unfold task_le. intros H.
  apply orb_false_iff in H as [Hlt H]. apply Nat.ltb_ge in Hlt.
  apply andb_false_iff in H as [Hne|Hp].
  - apply Nat.eqb_neq in Hne. apply orb_true_iff. left. apply Nat.ltb_lt. lia.
  - destruct (decide (website_id a = website_id b)) as [E|N].
    + apply orb_true_iff. right. apply andb_true_iff. split.
      * apply Nat.eqb_eq. done.
      * by apply page_key_le_total.
    + apply orb_true_iff. left. apply Nat.ltb_lt. lia.
Qed.

Lemma insert_by_Sorted x l :
  Sorted (fun a b => task_le a b = true) l ->
  Sorted (fun a b => task_le a b = true) (insert_by task_le x l).
Proof.
  induction 1 as [|y l Hl IH Hy]; simpl; [by repeat constructor|].
  destruct (task_le x y) eqn:Hxy.
  - constructor; [by constructor|by constructor].
  - constructor; [done|].
    destruct l as [|z l]; simpl.
    + constructor. by apply task_le_total.
    + destruct (task_le x z); constructor; [by apply task_le_total|].
      by inversion Hy.
Qed.

Lemma stable_sort_Sorted l :
  Sorted (fun a b => task_le a b = true) (stable_sort task_le l).
Proof.
  induction l as [|x l IH]; simpl; [constructor|by apply insert_by_Sorted].
Qed.

Lemma stable_sort_fixed l :
  Sorted (fun a b => task_le a b = true) l -> stable_sort task_le l = l.
Proof.
  induction 1 as [|x l Hl IH Hx]; simpl; [done|].
  rewrite IH. destruct Hx as [|y l Hxy]; simpl; [done|]. by rewrite Hxy.
Qed.

Lemma Sorted_same_keys l l' :
  Forall2 (fun t t' => website_id t' = website_id t /\ page t' = page t) l l' ->
  Sorted (fun a b => task_le a b = true) l ->
  Sorted (fun a b => task_le a b = true) l'.
Proof.
  induction 1 as [|x y l l' [Hw Hp] HF IH]; intros Hs; [constructor|].
  inversion Hs as [|? ? Hl Hhd]; subst. constructor; [by apply IH|].
  destruct HF as [|x2 y2 l2 l2' [Hw2 Hp2] _]; constructor.
  inversion Hhd; subst. unfold task_le in *. by rewrite Hw, Hp, Hw2, Hp2.
Qed.

(** X13: a pass leaves the task list in priority order (ascending project
    id, then ascending page, the Go-Live task after the pages), so the sort at
    the start of the next pass changes nothing. *)
Theorem pass_leaves_tasks_sorted ws c c' :
  tick ws c = Some c' ->
  Sorted (fun a b => task_le a b = true) (fst c') /\
  stable_sort task_le (fst c') = fst c'.
Proof.
  destruct c as [ts s], c' as [ts3 s3]. intros Htick. simpl.
  apply tick_shape in Htick as (ts2 & s2 & _ & HB & _ & HR).
  assert (Sorted (fun a b => task_le a b = true) ts3) as Hs.
  { eapply Sorted_same_keys; [|apply (stable_sort_Sorted ts)].
    eapply Forall2_trans; [|exact HB|exact HR].
    intros x y z Hxy Hyz. simpl in *.
    assert (website_id y = website_id x /\ page y = page x) as [E1 E2].
    { destruct Hxy as [->|(_ & _ & _ & start & -> & _)]; done. }
    rewrite <- E1, <- E2. destruct Hyz as [->|[_ ->]]; done. }
  split; [done|by apply stable_sort_fixed].
Qed.

End PriorityOrder.

(** The plan of two projects is built with all page tasks before the
    Go-Live tasks; after one pass the Go-Live task of project 0 comes before
    the page tasks of project 1. *)
Lemma pass_leaves_tasks_sorted_witness :
  let ws := [website 0 1; website 1 1] in
  let c := init one_each ws default_efforts in
  let c' := default c (tick ws c) in
  (map type (fst c) = [Design; Content; WordPress; UI;
                       Design; Content; WordPress; UI; GoLive; GoLive] /\
   map type (fst c') = [Design; Content; WordPress; UI; GoLive;
                        Design; Content; WordPress; UI; GoLive]) /\
  Sorted (fun a b => task_le a b = true) (fst c') /\
  stable_sort task_le (fst c') = fst c'.
Proof.
  intros ws c c'. split; [split; vm_compute; reflexivity|].
  apply (pass_leaves_tasks_sorted ws c c').
  vm_compute. reflexivity.
Defined.

(** ** The sidebar's project list (lines 47-52) *)

Section Sidebar.

Lemma imap_site_ids (pages : list nat) : forall (f : nat -> nat -> site) k,
  (forall i p, site_id (f i p) = (k + i)%nat) ->
  map site_id (imap f pages) = seq k (length pages).
Proof.
  induction pages as [|p pages IH]; intros f k Hf; simpl; [done|].
  rewrite Hf, Nat.add_0_r. f_equal. apply IH.
  intros i q. simpl. rewrite Hf. lia.
Qed.

Lemma websites_info_of_ids pages :
  map site_id (websites_info_of pages) = seq 0 (length pages).
Proof. by apply imap_site_ids. Qed.

Lemma build_tasks_length r ws e :
  length (build_tasks r ws e) = (4 * total_pages ws + length ws)%nat.
Proof.
  unfold build_tasks, total_pages.
  rewrite append_go_live_tasks_map, append_page_tasks_flat. simpl.
  rewrite length_app, length_map. f_equal.
  induction ws as [|s ws IH]; simpl; [done|].
  rewrite length_app, IH.
  assert (forall l, length (flat_map (page_chain e s) l) = 4 * length l)%nat as H.
  { induction l as [|p l IHl]; simpl; [done|]. rewrite IHl. lia. }
  rewrite H, length_seq. lia.
Qed.

(** X14: whatever page counts are entered, the project list the sidebar
    hands to [run_simulation] has the ids 0, 1, ..., n-1 and the page counts
    in the order entered; on it the plan builder emits 4 tasks per page and
    one per project, all with different ids. *)
Theorem sidebar_plan_is_well_formed r pages e :
  let ws := websites_info_of pages in
  map site_id ws = seq 0 (length pages) /\
  map site_pages ws = pages /\
  length (build_tasks r ws e) = (4 * sum_list pages + length pages)%nat /\
  NoDup (map id (build_tasks r ws e)).
Proof.
  intros ws.
  assert (map site_pages ws = pages) as Hpages.
  { unfold ws, websites_info_of.
    change (map site_pages) with (fmap (M := list) site_pages).
    rewrite fmap_imap. apply list_eq. intros i. rewrite list_lookup_imap.
    by destruct (pages !! i). }
  assert (NoDup (map site_id ws)) as Hnd.
  { unfold ws. rewrite websites_info_of_ids. apply NoDup_seq. }
  split_and!.
  - apply websites_info_of_ids.
  - done.
  - rewrite build_tasks_length. unfold total_pages. rewrite Hpages.
    unfold ws, websites_info_of. by rewrite length_imap.
  - by apply task_ids_unique_of_sites.
Qed.

End Sidebar.

(** ** The summary table (lines 219-232) *)

Section Summary.

Lemma le_max_list_acc fs : forall f, le f (max_list f fs).
Proof.
  unfold max_list. induction fs as [|x fs IH]; intros f; simpl; [apply le_refl|].
  eapply le_trans; [apply le_max_l|apply IH].
Qed.

Lemma le_max_list_elem fs : forall f x, x ∈ fs -> le x (max_list f fs).
Proof.
  unfold max_list. induction fs as [|y fs IH]; intros f x Hx; simpl.
  - by apply elem_of_nil in Hx.
  - apply elem_of_cons in Hx as [->|Hx]; [|by apply IH].
    eapply le_trans; [apply le_max_r|apply le_max_list_acc].
Qed.

Lemma summary_rows_of_Some starts items :
  (forall item, item ∈ items -> finite (snd item)) ->
  (forall i v, starts !! i = Some v -> finite v) ->
  exists rows, summary_rows_of starts items = Some rows /\
    Forall2 (row_matches starts) items rows.
Proof.
  intros Hends Hstarts. induction items as [|item items IH]; simpl.
  - exists []. split; [done|constructor].
  - destruct IH as (rows & -> & HF).
    { intros it Hit. apply Hends. by right. }
    destruct (Hends item) as [e He]; [left|].
    assert (finite (default zero (starts !! fst item))) as [s Hs].
    { destruct (starts !! fst item) eqn:E; simpl; [by eapply Hstarts|by exists 0]. }
    unfold summary_row_of. rewrite He, Hs. simpl.
    eexists. split; [done|]. constructor; [|done].
    unfold row_matches. simpl. rewrite Hs. split_and!; try done.
    by exists e, s.
Qed.

Lemma summary_rows_of_inv starts items rows :
  summary_rows_of starts items = Some rows ->
  Forall2 (row_matches starts) items rows.
Proof.
  revert rows. induction items as [|item items IH]; intros rows; simpl.
  - intros [= <-]. constructor.
  - unfold summary_row_of at 1. destruct (snd item) as [e|] eqn:He; simpl; [|done].
    destruct (default zero (starts !! fst item)) as [s|] eqn:Hs; simpl; [|done].
    destruct (summary_rows_of starts items) as [rows'|]; [|done].
    intros [= <-]. constructor; [|by apply IH].
    unfold row_matches. simpl. rewrite He, Hs. split_and!; try done.
    by exists e, s.
Qed.

Lemma insert_by_items_sorted x l :
  StronglySorted (fun a b : nat * time => fst a <= fst b)%nat l ->
  StronglySorted (fun a b : nat * time => fst a <= fst b)%nat (insert_by item_le x l).
Proof.
  induction 1 as [|y l Hl IH Hy]; simpl.
  - repeat constructor.
  - unfold item_le at 1. destruct (fst x <=? fst y)%nat eqn:Hxy.
    + apply Nat.leb_le in Hxy. constructor; [by constructor|].
      constructor; [done|]. eapply Forall_impl; [exact Hy|].
      intros z Hz. simpl in *. lia.
    + apply Nat.leb_gt in Hxy. constructor; [done|].
      rewrite insert_by_perm. constructor; [lia|done].
Qed.

Lemma sorted_items_strict (l : list (nat * time)) :
  NoDup (map fst l) ->
  StronglySorted (fun a b => fst a < fst b)%nat (stable_sort item_le l).
Proof.
  intros Hnd.
  assert (StronglySorted (fun a b : nat * time => fst a <= fst b)%nat
            (stable_sort item_le l)) as Hs.
  { clear Hnd. induction l as [|x l IH]; simpl; [constructor|].
    by apply insert_by_items_sorted. }
  assert (NoDup (map fst (stable_sort item_le l))) as Hnd'
    by by rewrite stable_sort_perm.
  clear Hnd. induction Hs as [|x k Hk IH Hx]; [constructor|].
  simpl in Hnd'. apply NoDup_cons in Hnd' as [Hx' Hnd'].
  constructor; [by apply IH|].
  apply Forall_forall. intros y Hy. rewrite Forall_forall in Hx.
  specialize (Hx y Hy). destruct (decide (fst x = fst y)) as [E|]; [|lia].
  destruct Hx'. rewrite E. apply list_elem_of_fmap. by exists y.
Qed.

Lemma nonneg_bind_task t s :
  le zero (effort t) -> nonneg_marks s -> nonneg_marks (snd (bind_task t s)).
Proof.
  intros Heff [Hcells Hstarts].
  destruct (bind_task_cases t s)
    as [->|(start & k & f & _ & _ & _ & Hpool & Hstart & _ & ->)]; [done|].
  apply cell_unit_of in Hpool.
  assert (le zero start) as Hs.
  { eapply le_trans; [by eapply Hcells|]. subst start. apply le_max_l. }
  split; simpl.
  - intros u f' Hf'. unfold commit in Hf'.
    destruct (decide (u = unit_of (resource_free_on_day s) (type t) k)) as [->|Hne].
    + erewrite cell_write_same in Hf' by done. simplify_eq.
      exact (le_trans _ _ _ Hs (le_add _ _ Heff)).
    + rewrite cell_write_other in Hf' by done. by eapply Hcells.
  - intros i v. case_bool_decide; [|by apply Hstarts].
    intros [[_ <-]|[_ ?]]%lookup_insert_Some; [done|by eapply Hstarts].
Qed.

Lemma nonneg_pass ws c c' :
  tick ws c = Some c' ->
  (forall t, t ∈ fst c -> le zero (effort t)) ->
  nonneg_marks (snd c) -> nonneg_marks (snd c').
Proof.
  destruct c as [ts s], c' as [ts3 s3]. intros Htick Heff Hinv. simpl in *.
  apply tick_inv in Htick as (ts2 & s2 & Hbind & Hret).
  apply retire_all_frame in Hret as (Hl & _ & _ & Hst). simpl in *.
  unfold nonneg_marks. rewrite Hl, Hst.
  change (nonneg_marks s2).
  replace s2 with (snd (bind_all (stable_sort task_le ts) (activate ws s)))
    by by rewrite Hbind.
  apply (bind_all_sim_inv nonneg_marks).
  - intros t s0 Hin. apply nonneg_bind_task, Heff. by apply stable_sort_elem in Hin.
  - pose proof (activate_frame ws s) as (Hla & _).
    assert (website_start_times (activate ws s) = website_start_times s) as Hsa.
    { unfold activate. case_bool_decide; [|done]. by destruct (find _ _). }
    unfold nonneg_marks. by rewrite Hla, Hsa.
Qed.

Lemma nonneg_reachable r ws e c :
  nonneg_efforts e -> visited r ws e c -> nonneg_marks (snd c).
Proof.
  intros He Hv.
  assert ((forall t, t ∈ fst c -> le zero (effort t)) /\ nonneg_marks (snd c)) as [_ H];
    [|done].
  induction Hv as [|c c' _ [IH1 IH2] _ _ Htick].
  - split; [intros t; by apply build_tasks_efforts|].
    split; simpl.
    + intros [ty i] f. unfold cell. simpl.
      destruct ty; simpl; try done;
        intros [-> _]%lookup_replicate; exact (le_refl zero).
    + intros i v. by rewrite lookup_empty.
  - split; [by eapply efforts_pass|by eapply nonneg_pass].
Qed.

(** What [run_simulation] returns comes from a configuration of the run. *)
Lemma run_simulation_visited r ws e starts ends log gantt :
  run_simulation r ws e = Some (starts, ends, log, gantt) ->
  exists c, visited r ws e c /\
    starts = website_start_times (snd c) /\ ends = website_end_times (snd c).
Proof.
  unfold run_simulation.
  destruct (run_loop r ws e) as [tasks s| |] eqn:Hrun; [|done..].
  intros [= <- <- <- <-].
  destruct (main_loop_returned ws max_passes (init r ws e) (init r ws e) tasks s)
    as (c & Hv & _ & [->| ->]); [apply reach_start|done|..]; by exists c.
Qed.

(** X15: the summary never raises on what [run_simulation] returns: every
    value handed to [math.ceil] is a number.  It shows the warning exactly
    when no project has a recorded end time, and a table otherwise. *)
Theorem summary_never_raises r ws e starts ends log gantt :
  run_simulation r ws e = Some (starts, ends, log, gantt) ->
  exists shown, summary starts ends = Some shown /\
    (shown = None <-> ends = ∅).
Proof.
  intros Hrun.
  destruct (run_simulation_visited _ _ _ _ _ _ _ Hrun) as (c & Hv & -> & ->).
  destruct (finite_init r ws e) as (H1 & H2 & H3).
  destruct (finite_reachable r _ _ _ Hv H1 H2 H3) as (_ & _ & Hs).
  destruct Hs as (_ & _ & _ & Hstarts & Hends & _).
  unfold summary.
  destruct (map snd (map_to_list (website_end_times (snd c)))) as [|f fs] eqn:Hvals.
  - exists None. split; [done|]. split; [|done]. intros _.
    apply map_to_list_empty_iff. by destruct (map_to_list _).
  - assert (forall v, v ∈ f :: fs -> finite v) as Hfin.
    { intros v Hv'. rewrite <- Hvals in Hv'.
      apply list_elem_of_fmap in Hv' as ([i v'] & -> & Hin).
      apply elem_of_map_to_list in Hin. by eapply Hends. }
    destruct (max_list_finite fs f) as [m Hm].
    { apply Hfin. left. }
    { apply Forall_forall. intros v Hv'. apply Hfin. by right. }
    rewrite Hm. simpl.
    destruct (summary_rows_of_Some (website_start_times (snd c))
                (stable_sort item_le (map_to_list (website_end_times (snd c)))))
      as (rows & -> & _); [|done|].
    { intros [i v] Hin. apply stable_sort_elem, elem_of_map_to_list in Hin.
      by eapply Hends. }
    eexists. split; [done|]. split; [done|].
    intros Hempty. rewrite Hempty, map_to_list_empty in Hvals. done.
Qed.

(** X16: with non-negative efforts, the table shown for a run has one row
    per project with a recorded end time, in ascending project order; each row
    shows the recorded end and the recorded start of its project (never the
    default 0), and its duration does not exceed the total duration shown
    above the table. *)
Theorem summary_rows_are_sound r ws e starts ends log gantt total rows :
  nonneg_efforts e ->
  run_simulation r ws e = Some (starts, ends, log, gantt) ->
  summary starts ends = Some (Some (total, rows)) ->
  StronglySorted (fun a b => row_site a < row_site b)%nat rows /\
  (forall i, is_Some (ends !! i) <-> exists row, row ∈ rows /\ row_site row = i) /\
  (forall row, row ∈ rows ->
     ends !! row_site row = Some (row_end row) /\
     starts !! row_site row = Some (row_start row) /\
     (row_duration row <= total)%Z).
Proof.
  intros He Hrun Hsum.
  destruct (run_simulation_visited _ _ _ _ _ _ _ Hrun) as (c & Hv & -> & ->).
  destruct (nonneg_reachable _ _ _ _ He Hv) as [_ Hpos].
  assert (times_inv (init r ws e)) as H0.
  { split_and!; simpl.
    - by rewrite dom_empty_L.
    - intros t Ht Hst. destruct (precedence_init r ws e) as [_ Hp].
      by apply Hp in Ht.
    - intros i [v Hv']. by rewrite lookup_empty in Hv'.
    - split.
      + change (size (∅ : gset nat) <= 2)%nat. rewrite size_empty. lia.
      + intros i Hi. change (i ∈ (∅ : gset nat)) in Hi.
        by apply elem_of_empty in Hi. }
  destruct (times_reachable ws _ _ Hv H0) as ((_ & _ & Hboth & _) & _ & _).
  set (starts := website_start_times (snd c)) in *.
  set (ends := website_end_times (snd c)) in *.
  unfold summary in Hsum.
  destruct (map snd (map_to_list ends)) as [|f fs] eqn:Hvals; [done|].
  destruct (max_list f fs) as [m|] eqn:Hm; simpl in Hsum; [|done].
  destruct (summary_rows_of starts (stable_sort item_le (map_to_list ends)))
    as [rows'|] eqn:Hrows; [|done].
  injection Hsum as <- <-.
  apply summary_rows_of_inv in Hrows.
  pose proof (sorted_items_strict (map_to_list ends) (NoDup_fst_map_to_list ends))
    as Hsorted.
  split_and!.
  - clear -Hrows Hsorted. induction Hrows as [|it row its rws Hm Hrest IH]; [constructor|].
    inversion Hsorted as [|? ? Hs Hhd]; subst. constructor; [by apply IH|].
    apply Forall_forall. intros row' Hrow'.
    destruct (Forall2_elem_r _ _ _ _ Hrest Hrow') as (it' & Hit' & Hm').
    rewrite Forall_forall in Hhd. specialize (Hhd it' Hit').
    destruct Hm as (-> & _), Hm' as (-> & _). done.
  - intros i. split.
    + intros [v Hi].
      assert ((i, v) ∈ stable_sort item_le (map_to_list ends)) as Hin
        by by apply stable_sort_elem, elem_of_map_to_list.
      destruct (Forall2_elem_l _ _ _ _ Hrows Hin) as (row & Hrow & Hmatch & _).
      by exists row.
    + intros (row & Hrow & <-).
      destruct (Forall2_elem_r _ _ _ _ Hrows Hrow) as ([i v] & Hin & Hmatch & _).
      apply stable_sort_elem, elem_of_map_to_list in Hin.
      rewrite Hmatch. by exists v.
  - intros row Hrow.
    destruct (Forall2_elem_r _ _ _ _ Hrows Hrow)
      as ([i v] & Hin & Hsite & Hend & Hstart & e' & s' & Hv' & Hs' & Hdur).
    apply stable_sort_elem, elem_of_map_to_list in Hin. simpl in *.
    destruct (Hboth i) as [st Hst]; [by exists v|].
    fold starts in Hst. rewrite Hst in Hstart. simpl in Hstart.
    rewrite Hsite, Hend. split_and!; [done|by rewrite Hstart|].
    rewrite Hdur.
    assert (le v (Fin m)) as Hle.
    { rewrite <- Hm.
      assert (v ∈ f :: fs) as Hvin.
      { rewrite <- Hvals. apply list_elem_of_fmap. exists (i, v). split; [done|].
        by apply elem_of_map_to_list. }
      apply elem_of_cons in Hvin as [->|Hvin];
        [apply le_max_list_acc|by apply le_max_list_elem]. }
    assert (le zero (Fin s')) as Hs0.
    { rewrite <- Hs', Hstart. by eapply Hpos. }
    rewrite Hv' in Hle. simpl in Hle, Hs0.
    apply Qceiling_resp_le. lra.
Qed.

End Summary.

(** The three-project run: total 20 days, rows for projects 0, 1 and 2 with
    durations 11, 12 and 17 days. *)
Lemma summary_never_raises_witness :
  let ws := [website 0 1; website 1 1; website 2 1] in
  match run_simulation one_each ws default_efforts with
  | Some (starts, ends, log, gantt) =>
      (option_map (fun p => (fst p, map row_duration (snd p)))
         <$> summary starts ends) = Some (Some (20%Z, [11%Z; 12%Z; 17%Z])) /\
      exists shown, summary starts ends = Some shown /\
        (shown = None <-> ends = ∅)
  | None => False
  end.
Proof.
  intros ws.
  destruct (run_simulation one_each ws default_efforts)
    as [[[[starts ends] log] gantt]|] eqn:Hrun; [|by vm_compute in Hrun].
  split.
  - vm_compute in Hrun. injection Hrun as <- <- <- <-. vm_compute. reflexivity.
  - apply (summary_never_raises one_each ws default_efforts starts ends log gantt).
    exact Hrun.
Defined.

Lemma summary_rows_are_sound_witness :
  let ws := [website 0 1; website 1 1; website 2 1] in
  match run_simulation one_each ws default_efforts with
  | Some (starts, ends, log, gantt) =>
      match summary starts ends with
      | Some (Some (total, rows)) =>
          StronglySorted (fun a b => row_site a < row_site b)%nat rows /\
          (forall i, is_Some (ends !! i) <->
             exists row, row ∈ rows /\ row_site row = i) /\
          (forall row, row ∈ rows ->
             ends !! row_site row = Some (row_end row) /\
             starts !! row_site row = Some (row_start row) /\
             (row_duration row <= total)%Z)
      | _ => False
      end
  | None => False
  end.
Proof.
  intros ws.
  destruct (run_simulation one_each ws default_efforts)
    as [[[[starts ends] log] gantt]|] eqn:Hrun; [|by vm_compute in Hrun].
  destruct (summary starts ends) as [[[total rows]|]|] eqn:Hsum.
  - apply (summary_rows_are_sound one_each ws default_efforts
             starts ends log gantt total rows); [|exact Hrun|exact Hsum].
    unfold nonneg_efforts. simpl. lra.
  - vm_compute in Hrun. injection Hrun as <- <- <- <-. by vm_compute in Hsum.
  - vm_compute in Hrun. injection Hrun as <- <- <- <-. by vm_compute in Hsum.
Defined.

(** ** Project times against the tasks (lines 172-175 and 188-196) *)

Section TimeOrigins.

Variable ws : list site.

Lemma bind_all_start_origin ts : forall s ts' s' i v,
  bind_all ts s = (ts', s') ->
  website_start_times s' !! i = Some v ->
  website_start_times s !! i = Some v \/
  exists t', t' ∈ ts' /\ website_id t' = i /\ status t' ≠ pending /\
    start_day t' = v.
Proof.
  induction ts as [|t ts IH]; intros s ts' s' i v H Hv; simpl in H.
  - inversion H; subst. by left.
  - destruct (bind_task t s) as [t1 s1] eqn:Ht.
    destruct (bind_all ts s1) as [rest s2] eqn:Hrest.
    inversion H; subst; clear H.
    destruct (IH _ _ _ _ _ Hrest Hv) as [Hv1|(t' & Hin & Ht')].
    + destruct (bind_task_cases t s)
        as [E|(start & k & f & _ & _ & _ & _ & _ & _ & E)];
        rewrite E in Ht; inversion Ht; subst; clear Ht; [by left|].
      simpl in Hv1. case_bool_decide; [|by left].
      apply lookup_insert_Some in Hv1 as [[<- <-]|[_ Hv1]]; [|by left].
      right. exists (started t start). split; [left|]. by simpl.
    + right. exists t'. split; [by right|done].
Qed.

Lemma retire_all_end_origin ts : forall s ts' s' i v,
  retire_all ts s = Some (ts', s') ->
  website_end_times s' !! i = Some v ->
  website_end_times s !! i = Some v \/
  exists t', t' ∈ ts' /\ website_id t' = i /\ type t' = GoLive /\
    status t' = complete /\ end_day t' = v.
Proof.
  induction ts as [|t ts IH]; intros s ts' s' i v H Hv; simpl in H.
  - inversion H; subst. by left.
  - destruct (retire_task t s) as [[t1 s1]|] eqn:Ht; [|done].
    destruct (retire_all ts s1) as [[rest s2]|] eqn:Hrest; [|done].
    inversion H; subst; clear H.
    destruct (IH _ _ _ _ _ Hrest Hv) as [Hv1|(t' & Hin & Ht')].
    + destruct (retire_task_cases t s)
        as [E|[(Hst & _ & E)|[(Hst & Hty & _ & E)|(_ & _ & _ & E)]]];
        rewrite E in Ht; inversion Ht; subst; clear Ht; try by left.
      simpl in Hv1.
      apply lookup_insert_Some in Hv1 as [[<- <-]|[_ Hv1]]; [|by left].
      right. exists (completed t). split; [left|]. by simpl.
    + right. exists t'. split; [by right|done].
Qed.

Lemma origins_pass c c' :
  tick ws c = Some c' -> times_from_tasks c -> times_from_tasks c'.
Proof.
  destruct c as [ts s], c' as [ts3 s3]. intros Htick [Hstarts Hends]. simpl in *.
  apply tick_shape in Htick as (ts2 & s2 & Hbind & HB & Hret & HR).
  assert (forall t2, t2 ∈ ts2 -> exists t3, t3 ∈ ts3 /\ evolves t2 t3) as Hfwd2.
  { intros t2 Hin2. destruct (Forall2_elem_l _ _ _ _ HR Hin2) as (t3 & Hin3 & Hr).
    exists t3. split; [done|by apply retires_evolves]. }
  assert (forall t, t ∈ ts -> exists t3, t3 ∈ ts3 /\ evolves t t3) as Hfwd.
  { intros t Hin. apply (stable_sort_elem task_le) in Hin.
    destruct (Forall2_elem_l _ _ _ _ HB Hin) as (t2 & Hin2 & Hb).
    destruct (Hfwd2 t2 Hin2) as (t3 & Hin3 & He).
    exists t3. split; [done|].
    eapply evolves_trans; [by eapply binds_evolves|done]. }
  pose proof (retire_all_frame _ _ _ _ Hret) as (_ & _ & _ & Hst3). simpl in Hst3.
  assert (website_start_times (activate ws s) = website_start_times s) as Hsa.
  { unfold activate. case_bool_decide; [|done]. by destruct (find _ _). }
  pose proof (activate_frame ws s) as (_ & _ & Hea & _).
  pose proof (bind_all_frame (stable_sort task_le ts) (activate ws s))
    as (_ & _ & Heb & _).
  rewrite Hbind in Heb. simpl in Heb.
  split; simpl.
  - intros i v Hv. rewrite Hst3 in Hv.
    destruct (bind_all_start_origin _ _ _ _ _ _ Hbind Hv)
      as [Hold|(t2 & Hin2 & Hid & Hst & Hstart)].
    + rewrite Hsa in Hold.
      destruct (Hstarts i v Hold) as (t & Hin & Hid & Hst & Hstart).
      destruct (Hfwd t Hin) as (t3 & Hin3 & He).
      destruct He as (_ & Hw & _ & _ & _ & _ & Hkeep & _).
      destruct (Hkeep Hst) as (Hst3' & Hs3 & _).
      exists t3. split_and!; [done|congruence|done|congruence].
    + destruct (Hfwd2 t2 Hin2) as (t3 & Hin3 & He).
      destruct He as (_ & Hw & _ & _ & _ & _ & Hkeep & _).
      destruct (Hkeep Hst) as (Hst3' & Hs3 & _).
      exists t3. split_and!; [done|congruence|done|congruence].
  - intros i v Hv.
    destruct (retire_all_end_origin _ _ _ _ _ _ Hret Hv) as [Hold|Hnew]; [|done].
    simpl in Hold. rewrite Heb, Hea in Hold.
    destruct (Hends i v Hold) as (t & Hin & Hid & Hty & Hst & Hend).
    destruct (Hfwd t Hin) as (t3 & Hin3 & He).
    destruct He as (_ & Hw & _ & Hty3 & _ & _ & Hkeep & Hdone).
    destruct Hkeep as (_ & _ & He3); [congruence|].
    exists t3. split_and!; [done|congruence|congruence|by apply Hdone|congruence].
Qed.

Lemma origins_reachable r e c : visited r ws e c -> times_from_tasks c.
Proof.
  induction 1 as [|c c' _ IH _ _ Htick]; [|by eapply origins_pass].
  split; simpl; intros i v; by rewrite lookup_empty.
Qed.

Lemma clock_reachable r e c :
  visited r ws e c -> Forall (on_the_clock (current_day (snd c))) (fst c).
Proof.
  induction 1 as [|c c' _ IH _ _ Htick]; [|by eapply clock_pass].
  apply Forall_forall. intros t Ht Hst.
  destruct (precedence_init r ws e) as [_ Hp]. by apply Hp in Ht.
Qed.

(** X17: at the head of the loop, every recorded project start is the
    [start_day] of a bound task of that project, and every recorded project
    end is the [end_day] of a complete Go-Live task of that project. *)
Theorem recorded_times_come_from_tasks r e c :
  visited r ws e c ->
  (forall i v, website_start_times (snd c) !! i = Some v ->
     exists t, t ∈ fst c /\ website_id t = i /\ status t ≠ pending /\
       start_day t = v) /\
  (forall i v, website_end_times (snd c) !! i = Some v ->
     exists t, t ∈ fst c /\ website_id t = i /\ type t = GoLive /\
       status t = complete /\ end_day t = v).
Proof.
  intros Hv. change (times_from_tasks c).
  induction Hv as [|c c' _ IH _ _ Htick].
  - split; simpl; intros i v; by rewrite lookup_empty.
  - by eapply origins_pass.
Qed.

(** The shape of the plan, read from [build_tasks]. *)
Lemma plan_cases r e t0 :
  t0 ∈ build_tasks r ws e ->
  exists x, x ∈ ws /\ website_id t0 = site_id x /\
    ((type t0 = GoLive /\ id t0 = go_live_task_id x) \/
     (type t0 ≠ GoLive /\ exists p, p ∈ seq 1 (site_pages x) /\
        t0 ∈ page_chain e x p)).
Proof.
  unfold build_tasks. rewrite append_go_live_tasks_map, append_page_tasks_flat.
  simpl. intros [H|H]%elem_of_app.
  - apply list_elem_of_In, in_flat_map in H as (x & Hx & H).
    apply in_flat_map in H as (p & Hp & H).
    apply list_elem_of_In in Hx, Hp, H.
    exists x. split; [done|].
    assert (website_id t0 = site_id x /\ type t0 ≠ GoLive) as [? ?].
    { unfold page_chain in H.
      repeat (apply elem_of_cons in H as [->|H]; [by split|]).
      by apply elem_of_nil in H. }
    split; [done|]. right. split; [done|]. by exists p.
  - apply list_elem_of_fmap in H as (x & -> & Hx).
    exists x. split_and!; [done|done|]. by left.
Qed.

Lemma chain_in_plan r e x p t0 :
  x ∈ ws -> p ∈ seq 1 (site_pages x) -> t0 ∈ page_chain e x p ->
  t0 ∈ build_tasks r ws e.
Proof.
  intros Hx Hp Ht. unfold build_tasks.
  rewrite append_go_live_tasks_map, append_page_tasks_flat. simpl.
  apply elem_of_app. left.
  apply list_elem_of_In, in_flat_map. exists x. split; [by apply list_elem_of_In|].
  apply in_flat_map. exists p. split; by apply list_elem_of_In.
Qed.

Lemma go_live_in_plan r e x :
  NoDup (map site_id ws) -> x ∈ ws ->
  exists g0, g0 ∈ build_tasks r ws e /\ id g0 = go_live_task_id x /\
    depends_on g0 =
      DepAll (map (fun p => page_task_id x p "UI") (seq 1 (site_pages x))).
Proof.
  intros Hnd Hx.
  exists (go_live_task r e
            (flat_map (fun s => flat_map (page_chain e s) (seq 1 (site_pages s))) ws) x).
  split_and!.
  - unfold build_tasks. rewrite append_go_live_tasks_map, append_page_tasks_flat.
    simpl. apply elem_of_app. right. apply list_elem_of_fmap. by exists x.
  - done.
  - simpl. by rewrite ui_tasks_of_site.
Qed.

End TimeOrigins.

Lemma recorded_times_come_from_tasks_witness :
  let ws := [website 0 1] in
  let c := default (init one_each ws default_efforts)
             (passes 22 ws (init one_each ws default_efforts)) in
  (website_start_times (snd c) !! 0%nat = Some (Fin 0) /\
   website_end_times (snd c) !! 0%nat = Some (Fin 11)) /\
  (forall i v, website_start_times (snd c) !! i = Some v ->
     exists t, t ∈ fst c /\ website_id t = i /\ status t ≠ pending /\
       start_day t = v) /\
  (forall i v, website_end_times (snd c) !! i = Some v ->
     exists t, t ∈ fst c /\ website_id t = i /\ type t = GoLive /\
       status t = complete /\ end_day t = v).
Proof.
  intros ws c. split; [split; vm_compute; reflexivity|].
  apply (recorded_times_come_from_tasks ws one_each default_efforts c).
  apply (passes_visited 22). vm_compute. reflexivity.
Defined.

(** ** A finished project (lines 81-85, 118-134 and 188-196) *)

Section FinishedProject.

Variable ws : list site.
Variable rs : resources.
Variable es : efforts.
Variable c : list task * sim.

Hypothesis distinct_sites : NoDup (map site_id ws).
Hypothesis efforts_nonneg : nonneg_efforts es.
Hypothesis on_the_run : visited rs ws es c.

Lemma run_origin t :
  t ∈ fst c -> exists t0, t0 ∈ build_tasks rs ws es /\ evolves t0 t.
Proof.
  intros Ht. destruct (evolves_reachable ws _ _ on_the_run) as (l & Hl & HF).
  destruct (Forall2_elem_r _ _ _ _ HF Ht) as (t0 & Hin & He).
  exists t0. split; [|done]. by rewrite <- Hl.
Qed.

Lemma run_ids : NoDup (map id (fst c)).
Proof.
  destruct (evolves_reachable ws _ _ on_the_run) as (l & Hl & HF).
  assert (map id (fst c) = map id l) as ->.
  { clear -HF. induction HF as [|x y l k Hxy _ IH]; [done|].
    simpl. destruct Hxy as (-> & _). by rewrite IH. }
  rewrite Hl. by apply task_ids_unique_of_sites.
Qed.

Lemma task_by_id t0 u :
  t0 ∈ build_tasks rs ws es -> u ∈ fst c -> id u = id t0 -> evolves t0 u.
Proof.
  intros Ht0 Hu Hid. destruct (run_origin u Hu) as (u0 & Hu0 & He).
  assert (u0 = t0) as <-; [|done].
  eapply NoDup_map_inj; [by apply task_ids_unique_of_sites|done|done|].
  destruct He as (<- & _). done.
Qed.

Lemma bound_span t :
  t ∈ fst c -> status t ≠ pending -> le (start_day t) (end_day t).
Proof.
  intros Ht Hst.
  pose proof (clock_reachable ws _ _ _ on_the_run) as Hclock.
  rewrite Forall_forall in Hclock. destruct (Hclock t Ht Hst) as (-> & _).
  apply le_add. destruct (run_origin t Ht) as (t0 & Ht0 & He).
  destruct He as (_ & _ & _ & _ & -> & _). by eapply build_tasks_efforts.
Qed.

Lemma run_precedence t :
  t ∈ fst c -> status t ≠ pending -> precedence_ok (fst c) t.
Proof.
  destruct (precedence_init rs ws es) as [Hcs Hp].
  destruct (precedence_reachable _ _ _ on_the_run Hcs) as [_ H]; [|by apply H].
  intros u Hu Hs. by apply Hp in Hu.
Qed.

Lemma dep_one_step u d :
  u ∈ fst c -> status u ≠ pending -> depends_on u = DepOne d ->
  exists w, w ∈ fst c /\ id w = d /\ status w = complete /\
    le (end_day w) (start_day u).
Proof.
  intros Hu Hst Hdep. pose proof (run_precedence u Hu Hst) as Hp.
  unfold precedence_ok in Hp. rewrite Hdep in Hp.
  destruct Hp as (f & (w & Hw & Hid & Hdone & <-) & Hle). by exists w.
Qed.

Lemma dep_all_step u ds d :
  u ∈ fst c -> status u ≠ pending -> depends_on u = DepAll ds -> d ∈ ds ->
  exists w, w ∈ fst c /\ id w = d /\ status w = complete /\
    le (end_day w) (start_day u).
Proof.
  intros Hu Hst Hdep Hd. pose proof (run_precedence u Hu Hst) as Hp.
  unfold precedence_ok in Hp. rewrite Hdep in Hp.
  destruct Hp as (fs & HF & Hle).
  destruct (Forall2_elem_l _ _ _ _ HF Hd) as (f & Hf & (w & Hw & Hid & Hdone & <-)).
  exists w. split_and!; try done.
  destruct fs as [|f0 fs]; [by apply elem_of_nil in Hf|].
  eapply le_trans; [|exact Hle].
  apply elem_of_cons in Hf as [->|Hf];
    [apply le_max_list_acc|by apply le_max_list_elem].
Qed.

(** One step down a page chain below a bound task [g]. *)
Lemma descend g u0 u d :
  u0 ∈ build_tasks rs ws es -> depends_on u0 = DepOne d ->
  u ∈ fst c -> id u = id u0 -> status u = complete ->
  le (end_day u) (start_day g) ->
  exists w, w ∈ fst c /\ id w = d /\ status w = complete /\
    le (end_day w) (start_day g).
Proof.
  intros Hu0 Hdep Hu Hid Hdone Hle.
  destruct (task_by_id u0 u Hu0 Hu Hid) as (_ & _ & _ & _ & _ & Hd & _).
  assert (status u ≠ pending) as Hst by congruence.
  destruct (dep_one_step u d Hu Hst) as (w & Hw & Hwid & Hwdone & Hwle);
    [congruence|].
  exists w. split_and!; try done.
  eapply le_trans; [exact Hwle|].
  eapply le_trans; [by apply bound_span|done].
Qed.

Lemma chain_done x p g t0 t :
  x ∈ ws -> p ∈ seq 1 (site_pages x) ->
  g ∈ fst c -> status g ≠ pending -> id g = go_live_task_id x ->
  t0 ∈ page_chain es x p -> t ∈ fst c -> id t = id t0 ->
  status t = complete /\ le (end_day t) (start_day g).
Proof.
  intros Hx Hp Hg Hgst Hgid Ht0 Ht Hid.
  destruct (go_live_in_plan ws rs es x distinct_sites Hx) as (g0 & Hg0 & Hg0id & Hg0dep).
  destruct (task_by_id g0 g Hg0 Hg ltac:(congruence)) as (_ & _ & _ & _ & _ & Hgdep & _).
  rewrite Hg0dep in Hgdep.
  destruct (dep_all_step g _ (page_task_id x p "UI") Hg Hgst Hgdep)
    as (u & Hu & Huid & Hudone & Hule).
  { apply list_elem_of_fmap. by exists p. }
  assert (forall y, y ∈ page_chain es x p -> y ∈ build_tasks rs ws es) as Hplan.
  { intros y Hy. by eapply chain_in_plan. }
  destruct (descend g
              (mk_page_task (page_task_id x p "UI") x p UI (e_ui es)
                 (DepOne (page_task_id x p "WP")))
              u (page_task_id x p "WP"))
    as (w & Hw & Hwid & Hwdone & Hwle); try done.
  { apply Hplan. unfold page_chain. do 3 right. left. }
  destruct (descend g
              (mk_page_task (page_task_id x p "WP") x p WordPress (e_wordpress es)
                 (DepOne (page_task_id x p "Content")))
              w (page_task_id x p "Content"))
    as (k & Hk & Hkid & Hkdone & Hkle); try done.
  { apply Hplan. unfold page_chain. do 2 right. left. }
  destruct (descend g
              (mk_page_task (page_task_id x p "Content") x p Content (e_content es)
                 (DepOne (page_task_id x p "Design")))
              k (page_task_id x p "Design"))
    as (d & Hd & Hdid & Hddone & Hdle); try done.
  { apply Hplan. unfold page_chain. right. left. }
  pose proof run_ids as Hids.
  unfold page_chain in Ht0.
  apply elem_of_cons in Ht0 as [->|Ht0].
  { assert (t = d) as -> by (eapply NoDup_map_inj; [exact Hids|done|done|]; by rewrite Hid, Hdid).
    done. }
  apply elem_of_cons in Ht0 as [->|Ht0].
  { assert (t = k) as -> by (eapply NoDup_map_inj; [exact Hids|done|done|]; by rewrite Hid, Hkid).
    done. }
  apply elem_of_cons in Ht0 as [->|Ht0].
  { assert (t = w) as -> by (eapply NoDup_map_inj; [exact Hids|done|done|]; by rewrite Hid, Hwid).
    done. }
  apply elem_of_cons in Ht0 as [->|Ht0]; [|by apply elem_of_nil in Ht0].
  assert (t = u) as -> by (eapply NoDup_map_inj; [exact Hids|done|done|]; by rewrite Hid, Huid).
  done.
Qed.

(** Every task of a project with a recorded end time is complete and has
    finished by then. *)
Lemma finished_project_tasks i f :
  website_end_times (snd c) !! i = Some f ->
  forall t, t ∈ fst c -> website_id t = i ->
    status t = complete /\ le (end_day t) f.
Proof.
  intros Hend.
  destruct (origins_reachable ws _ _ _ on_the_run) as [_ Hends].
  destruct (Hends i f Hend) as (g & Hg & Hgsite & Hgty & Hgdone & Hgend).
  assert (status g ≠ pending) as Hgst by congruence.
  destruct (run_origin g Hg) as (g0 & Hg0 & Heg).
  destruct (plan_cases ws rs es g0 Hg0) as (x & Hx & Hxsite & Hcase).
  assert (id g = go_live_task_id x) as Hgid.
  { destruct Heg as (-> & _ & _ & Hty & _).
    destruct Hcase as [[_ ?]|[Hn _]]; [done|]. destruct Hn. congruence. }
  assert (site_id x = i) as Hxi.
  { destruct Heg as (_ & Hw & _). congruence. }
  intros t Ht Hti.
  destruct (run_origin t Ht) as (t0 & Ht0 & Het).
  destruct (plan_cases ws rs es t0 Ht0) as (x' & Hx' & Hx'site & Hcase').
  assert (x' = x) as ->.
  { eapply NoDup_map_inj; [exact distinct_sites|done|done|].
    destruct Het as (_ & Hw & _). congruence. }
  destruct Hcase' as [[_ Hid0]|[_ (p & Hp & Hchain)]].
  - assert (t = g) as ->.
    { eapply NoDup_map_inj; [exact run_ids|done|done|].
      destruct Het as (-> & _). congruence. }
    split; [done|]. rewrite Hgend. apply le_refl.
  - destruct (chain_done x p g t0 t) as [Hdone Hle]; try done.
    { by destruct Het as (-> & _). }
    split; [done|]. eapply le_trans; [exact Hle|].
    rewrite <- Hgend. by apply bound_span.
Qed.

(** X18: with distinct project ids and non-negative efforts, once a
    project has a recorded end time, every task of that project is complete
    and finished no later than that time, and the project's recorded start is
    not after its recorded end. *)
Theorem finished_project_is_fully_done i f :
  website_end_times (snd c) !! i = Some f ->
  (forall t, t ∈ fst c -> website_id t = i ->
     status t = complete /\ le (end_day t) f) /\
  (forall s, website_start_times (snd c) !! i = Some s -> le s f).
Proof.
  intros Hend. split; [by apply finished_project_tasks|].
  intros s Hs.
  destruct (origins_reachable ws _ _ _ on_the_run) as [Hstarts _].
  destruct (Hstarts i s Hs) as (t & Ht & Hti & Hst & <-).
  destruct (finished_project_tasks i f Hend t Ht Hti) as [_ Hle].
  eapply le_trans; [by apply bound_span|done].
Qed.

End FinishedProject.

(** Two one-page projects finish on days 11 and 13, both recorded after 26
    passes; the second started on day 1.5. *)
Lemma finished_project_is_fully_done_witness :
  let ws := [website 0 1; website 1 1] in
  let c := default (init one_each ws default_efforts)
             (passes 26 ws (init one_each ws default_efforts)) in
  (website_start_times (snd c) !! 1%nat = Some (Fin (3 # 2)) /\
   website_end_times (snd c) !! 1%nat = Some (Fin 13)) /\
  (forall t, t ∈ fst c -> website_id t = 1%nat ->
     status t = complete /\ le (end_day t) (Fin 13)) /\
  (forall s, website_start_times (snd c) !! 1%nat = Some s -> le s (Fin 13)).
Proof.
  intros ws c. split; [split; vm_compute; reflexivity|].
  apply (finished_project_is_fully_done ws one_each default_efforts c).
  - apply (bool_decide_unpack (NoDup (map site_id ws))). vm_compute. exact I.
  - unfold nonneg_efforts. simpl. lra.
  - apply (passes_visited 26). vm_compute. reflexivity.
  - vm_compute. reflexivity.
Defined.

(** ** Durations in the summary table (line 230) *)

Section SummaryDurations.

Lemma summary_row_inv starts ends total rows row :
  summary starts ends = Some (Some (total, rows)) -> row ∈ rows ->
  exists e s, ends !! row_site row = Some (Fin e) /\
    default zero (starts !! row_site row) = Fin s /\
    row_duration row = Qceiling (e - s).
Proof.
  unfold summary. intros Hsum Hrow.
  destruct (map snd (map_to_list ends)) as [|f fs]; [done|].
  destruct (ceil_days (max_list f fs)); [|done].
  destruct (summary_rows_of starts (stable_sort item_le (map_to_list ends)))
    as [rows'|] eqn:Hrows; [|done].
  injection Hsum as _ <-. apply summary_rows_of_inv in Hrows.
  destruct (Forall2_elem_r _ _ _ _ Hrows Hrow)
    as ([i v] & Hin & Hsite & _ & Hstart & e & s & Hv & Hs & Hdur).
  apply stable_sort_elem, elem_of_map_to_list in Hin. simpl in *.
  exists e, s. rewrite Hsite. split_and!; [congruence|congruence|done].
Qed.

(** X19: with distinct project ids and non-negative efforts, no row of
    the summary table of a run shows a negative duration. *)
Theorem summary_durations_are_nonneg r ws e starts ends log gantt total rows :
  NoDup (map site_id ws) -> nonneg_efforts e ->
  run_simulation r ws e = Some (starts, ends, log, gantt) ->
  summary starts ends = Some (Some (total, rows)) ->
  forall row, row ∈ rows -> (0 <= row_duration row)%Z.
Proof.
  intros Hnd He Hrun Hsum row Hrow.
  destruct (run_simulation_visited _ _ _ _ _ _ _ Hrun) as (c & Hv & -> & ->).
  destruct (summary_row_inv _ _ _ _ _ Hsum Hrow) as (e' & s' & Hend & Hstart & ->).
  destruct (origins_reachable ws _ _ _ Hv) as [Hstarts _].
  assert (times_inv (init r ws e)) as H0.
  { split_and!; simpl.
    - by rewrite dom_empty_L.
    - intros t Ht Hst. destruct (precedence_init r ws e) as [_ Hp].
      by apply Hp in Ht.
    - intros i [v Hv']. by rewrite lookup_empty in Hv'.
    - split.
      + change (size (∅ : gset nat) <= 2)%nat. rewrite size_empty. lia.
      + intros i Hi. change (i ∈ (∅ : gset nat)) in Hi.
        by apply elem_of_empty in Hi. }
  destruct (times_reachable ws _ _ Hv H0) as ((_ & _ & Hboth & _) & _ & _).
  destruct (Hboth (row_site row)) as [st Hst]; [by eexists|].
  rewrite Hst in Hstart. simpl in Hstart. subst st.
  destruct (Hstarts _ _ Hst) as (t & Ht & Hti & Hbound & Hts).
  destruct (finished_project_tasks ws r e c Hnd He Hv _ _ Hend t Ht Hti) as [_ Hle].
  pose proof (bound_span ws r e c He Hv t Ht Hbound) as Hspan.
  rewrite Hts in Hspan.
  destruct (end_day t) as [m|]; simpl in Hspan, Hle; [|done].
  change 0%Z with (Qceiling 0). apply Qceiling_resp_le. lra.
Qed.

End SummaryDurations.

Lemma summary_durations_are_nonneg_witness :
  let ws := [website 0 1; website 1 1; website 2 1] in
  match run_simulation one_each ws default_efforts with
  | Some (starts, ends, log, gantt) =>
      match summary starts ends with
      | Some (Some (total, rows)) =>
          map row_duration rows = [11%Z; 12%Z; 17%Z] /\
          forall row, row ∈ rows -> (0 <= row_duration row)%Z
      | _ => False
      end
  | None => False
  end.
Proof.
  intros ws.
  destruct (run_simulation one_each ws default_efforts)
    as [[[[starts ends] log] gantt]|] eqn:Hrun; [|by vm_compute in Hrun].
  destruct (summary starts ends) as [[[total rows]|]|] eqn:Hsum.
  - split.
    + vm_compute in Hrun. injection Hrun as <- <- <- <-.
      vm_compute in Hsum. injection Hsum as <- <-. reflexivity.
    + apply (summary_durations_are_nonneg one_each ws default_efforts
               starts ends log gantt total rows); [| |exact Hrun|exact Hsum].
      * apply (bool_decide_unpack (NoDup (map site_id ws))). vm_compute. exact I.
      * unfold nonneg_efforts. simpl. lra.
  - vm_compute in Hrun. injection Hrun as <- <- <- <-. by vm_compute in Hsum.
  - vm_compute in Hrun. injection Hrun as <- <- <- <-. by vm_compute in Hsum.
Defined.
